(** * Truman Heartland content migration: crawler, classifier, cleaners, parser

    A shallow embedding of the scraper ([scripts/scrape.mjs]), the page
    classifier ([scripts/utils/classify-page.mjs]), the field extractors
    ([scripts/utils/extract-fields.mjs]), the content preparation script
    ([scripts/prepare-content.mjs]), the image downloader
    ([scripts/download-images.mjs]) and the uploader
    ([scripts/upload-to-r2.mjs]).

    Conventions.
    - A JavaScript string is a [string] of code units below 256.
    - The WHATWG [URL] constructor belongs to the platform; it is a parameter
      of the functions that call it, and a parsed URL is a record of the
      components the scripts read.
    - A regular expression literal is a term of [Regex.re], matched by
      derivatives; [^] and [$] are the two flags of [Regex.jsre]. *)

From Stdlib Require Import String Ascii List Bool Arith Lia ZArith.
From stdpp Require Import base option list gmap sets strings.

Local Open Scope string_scope.
#[local] Set Warnings "-register-all,-clear-no-such-hyp".

(* ===================================================================== *)
(** ** Strings as the scripts use them *)
(* ===================================================================== *)

Module Str.

(** White space of [String.prototype.trim] and of the class [\s], restricted
    to code units below 256: TAB, LF, VT, FF, CR, SPACE and NBSP. *)
Definition is_ws (c : ascii) : bool :=
  let n := nat_of_ascii c in
  (Nat.eqb n 9 || Nat.eqb n 10 || Nat.eqb n 11 || Nat.eqb n 12
   || Nat.eqb n 13 || Nat.eqb n 32 || Nat.eqb n 160)%bool.

(** Lower-casing of the letters A-Z, as the [i] flag compares them. *)
Definition lower (c : ascii) : ascii :=
  let n := nat_of_ascii c in
  if (Nat.leb 65 n && Nat.leb n 90)%bool then ascii_of_nat (n + 32) else c.

Fixpoint lower_s (s : string) : string :=
  match s with
  | "" => ""
  | String c s' => String (lower c) (lower_s s')
  end.

(** The double quote. *)
Definition dquote : ascii := ascii_of_nat 34.

Definition is_empty (s : string) : bool :=
  match s with "" => true | _ => false end.

(** [a || b] on strings: the empty string is falsy. *)
Definition or_else (a b : string) : string := if is_empty a then b else a.

(** Every character of [s] passes [p]. *)
Fixpoint all (p : ascii -> bool) (s : string) : bool :=
  match s with
  | "" => true
  | String c s' => p c && all p s'
  end.

Definition all_ws (s : string) : bool := all is_ws s.

(** [s] without the longest run of characters that pass [p] at its end. *)
Fixpoint drop_end_while (p : ascii -> bool) (s : string) : string :=
  match s with
  | "" => ""
  | String c s' => if all p s then "" else String c (drop_end_while p s')
  end.

Fixpoint trimStart (s : string) : string :=
  match s with
  | "" => ""
  | String c s' => if is_ws c then trimStart s' else s
  end.

Definition trimEnd (s : string) : string := drop_end_while is_ws s.

Definition trim (s : string) : string := trimEnd (trimStart s).

(** [s.startsWith(p)] *)
Definition startsWith (p s : string) : bool := String.prefix p s.

(** [s.startsWith(p)] up to the case of A-Z. *)
Definition startsWith_ci (p s : string) : bool :=
  String.prefix (lower_s p) (lower_s s).

Fixpoint drop (n : nat) (s : string) : string :=
  match n, s with
  | O, _ => s
  | S n', "" => ""
  | S n', String _ s' => drop n' s'
  end.

(** [s.replace(/\/$/, '')]: one slash at the very end is removed. *)
Fixpoint strip_trailing_slash (s : string) : string :=
  match s with
  | "" => ""
  | String c s' =>
      if (is_empty s' && Ascii.eqb c "/")%bool then ""
      else String c (strip_trailing_slash s')
  end.

(** [s.replace(/^\//, '')]: one slash at the very start is removed. *)
Definition strip_leading_slash (s : string) : string :=
  match s with
  | String c s' => if Ascii.eqb c "/" then s' else s
  | "" => ""
  end.

(** [s.replace(/\//g, '--')] *)
Fixpoint slashes_to_dashes (s : string) : string :=
  match s with
  | "" => ""
  | String c s' =>
      if Ascii.eqb c "/" then String "-" (String "-" (slashes_to_dashes s'))
      else String c (slashes_to_dashes s')
  end.

Fixpoint contains_char (c : ascii) (s : string) : bool :=
  match s with
  | "" => false
  | String d s' => Ascii.eqb c d || contains_char c s'
  end.

(** [s.lastIndexOf(p)]: the greatest index at which [p] starts, if any. *)
Fixpoint lastIndexOf (p s : string) : option nat :=
  match s with
  | "" => if is_empty p then Some 0 else None
  | String _ s' =>
      match lastIndexOf p s' with
      | Some i => Some (S i)
      | None => if String.prefix p s then Some 0 else None
      end
  end.

(** [s.includes(p)] *)
Fixpoint includes (p s : string) : bool :=
  String.prefix p s ||
  match s with
  | "" => false
  | String _ s' => includes p s'
  end.

Fixpoint concat_all (l : list string) : string :=
  match l with
  | nil => ""
  | s :: l' => s +:+ concat_all l'
  end.

End Str.

(* ===================================================================== *)
(** ** Regular expressions *)
(* ===================================================================== *)

Module Regex.

Inductive re : Type :=
| Void
| Eps
| Sym (p : ascii -> bool)
| Cat (a b : re)
| Alt (a b : re)
| Star (a : re).

Fixpoint nullable (r : re) : bool :=
  match r with
  | Void => false
  | Eps => true
  | Sym _ => false
  | Cat a b => nullable a && nullable b
  | Alt a b => nullable a || nullable b
  | Star _ => true
  end.

Definition cat (a b : re) : re :=
  match a, b with
  | Void, _ => Void
  | _, Void => Void
  | Eps, _ => b
  | _, Eps => a
  | _, _ => Cat a b
  end.

Definition alt (a b : re) : re :=
  match a, b with
  | Void, _ => b
  | _, Void => a
  | _, _ => Alt a b
  end.

Fixpoint deriv (c : ascii) (r : re) : re :=
  match r with
  | Void => Void
  | Eps => Void
  | Sym p => if p c then Eps else Void
  | Cat a b =>
      if nullable a then alt (cat (deriv c a) b) (deriv c b)
      else cat (deriv c a) b
  | Alt a b => alt (deriv c a) (deriv c b)
  | Star a => cat (deriv c a) (Star a)
  end.

(** The whole of [s] is a word of [r]. *)
Fixpoint matches (r : re) (s : string) : bool :=
  match s with
  | "" => nullable r
  | String c s' => matches (deriv c r) s'
  end.

(** The words of a regular expression. *)
Inductive lang : re -> string -> Prop :=
| lang_eps : lang Eps ""
| lang_sym p c : p c = true -> lang (Sym p) (String c "")
| lang_cat a b s1 s2 : lang a s1 -> lang b s2 -> lang (Cat a b) (s1 +:+ s2)
| lang_alt_l a b s : lang a s -> lang (Alt a b) s
| lang_alt_r a b s : lang b s -> lang (Alt a b) s
| lang_star_nil a : lang (Star a) ""
| lang_star_cons a s1 s2 :
    lang a s1 -> lang (Star a) s2 -> lang (Star a) (s1 +:+ s2).

Definition any : re := Sym (fun _ => true).
Definition chr (c : ascii) : re := Sym (Ascii.eqb c).
Definition chr_ci (c : ascii) : re :=
  Sym (fun d => Ascii.eqb (Str.lower c) (Str.lower d)).
Definition not_chr (c : ascii) : re := Sym (fun d => negb (Ascii.eqb c d)).
Definition ws : re := Sym Str.is_ws.
Definition opt (r : re) : re := Alt r Eps.
Definition plus (r : re) : re := Cat r (Star r).

Fixpoint lit (s : string) : re :=
  match s with
  | "" => Eps
  | String c s' => Cat (chr c) (lit s')
  end.

Fixpoint lit_ci (s : string) : re :=
  match s with
  | "" => Eps
  | String c s' => Cat (chr_ci c) (lit_ci s')
  end.

Fixpoint alts (l : list re) : re :=
  match l with
  | nil => Void
  | r :: nil => r
  | r :: l' => Alt r (alts l')
  end.

(** A regular expression literal: its body and whether it opens with [^]
    and closes with [$]. *)
Record jsre : Type := JsRe { bol : bool; body : re; eol : bool }.

(** [re.test(s)] *)
Definition test (r : jsre) (s : string) : bool :=
  matches
    (Cat (if bol r then Eps else Star any)
         (Cat (body r) (if eol r then Eps else Star any))) s.

(** [s.replace(/R$/, '')] for a body [R] that matches no empty word at the
    end of a non-matching string: the match starts at the least index from
    which the rest of [s] is a word of [R], and runs to the end. *)
Fixpoint remove_at_end (r : re) (s : string) : string :=
  if matches r s then ""
  else match s with
       | "" => ""
       | String c s' => String c (remove_at_end r s')
       end.

End Regex.

(* ===================================================================== *)
(** ** URLs *)
(* ===================================================================== *)

Module Url.

(** The components of a parsed URL that the scripts read or write. *)
Record URL : Type := MkURL {
  origin : string;
  hostname : string;
  pathname : string;
  search : string;
  hash : string
}.

Definition set_hash (u : URL) (h : string) : URL :=
  {| origin := origin u; hostname := hostname u; pathname := pathname u;
     search := search u; hash := h |}.

(** [new URL(href, base)]: [None] stands for the [TypeError] it throws. *)
Definition ctor : Type := string -> option string -> option URL.

Definition BASE_URL : string := "https://www.thcf.org".

(** The extension denylist
    [/\.(pdf|xlsx?|docx?|zip|png|jpg|jpeg|gif|svg|webp|mp4|mp3)$/i]. *)
Definition download_re : Regex.jsre :=
  let l := Regex.lit_ci in
  Regex.JsRe false
    (Regex.Cat (Regex.chr ".")
       (Regex.alts
          [ l "pdf"; Regex.Cat (l "xls") (Regex.opt (l "x"));
            Regex.Cat (l "doc") (Regex.opt (l "x")); l "zip"; l "png";
            l "jpg"; l "jpeg"; l "gif"; l "svg"; l "webp"; l "mp4"; l "mp3" ]))
    true.

(** The body of [normalizeUrl] once [new URL(href, BASE_URL)] succeeded. *)
Definition normalizeParsed (url0 : URL) : option string :=
  if (negb (String.eqb (hostname url0) "www.thcf.org")
      && negb (String.eqb (hostname url0) "thcf.org"))%bool then None
  else
    let url := set_hash url0 "" in
    let pathname := Str.or_else (Str.strip_trailing_slash (pathname url)) "/" in
    if Regex.test download_re pathname then None
    else Some (origin url +:+ pathname).

Definition normalizeUrl (new_URL : ctor) (href : string) : option string :=
  match new_URL href (Some BASE_URL) with
  | Some url => normalizeParsed url
  | None => None
  end.

(** [slugFromUrl] of the scraper; [None] is the exception of [new URL(url)]. *)
Definition slug_of_pathname (p : string) : string :=
  let pathname := Str.or_else (Str.strip_trailing_slash p) "index" in
  Str.or_else (Str.slashes_to_dashes (Str.strip_leading_slash pathname)) "index".

Definition slugFromUrl (new_URL : ctor) (url : string) : option string :=
  match new_URL url None with
  | Some u => Some (slug_of_pathname (pathname u))
  | None => None
  end.

(** A constructor for examples.  It reads [/path?query#fragment] against
    the base and the same under [https://www.thcf.org], as the platform
    does for paths without dot segments or characters to escape. *)
Definition site_prefix : string := "https://www.thcf.org".

(** The part of [s] before the first [c], and the rest from [c] on. *)
Fixpoint break_at (c : ascii) (s : string) : string * string :=
  match s with
  | "" => ("", "")
  | String d s' =>
      if Ascii.eqb c d then ("", s)
      else let (a, b) := break_at c s' in (String d a, b)
  end.

(** A lone [?] or [#] leaves [search] or [hash] empty. *)
Definition component (s : string) : string :=
  match s with
  | String _ "" => ""
  | _ => s
  end.

Definition read_path (s : string) : URL :=
  let (rest, h) := break_at "#" s in
  let (p, q) := break_at "?" rest in
  MkURL site_prefix "www.thcf.org" p (component q) (component h).

Definition path_ctor (href : string) (base : option string) : option URL :=
  if String.prefix "/" href then
    match base with
    | Some _ => Some (read_path href)
    | None => None
    end
  else if String.prefix (site_prefix +:+ "/") href then
    Some (read_path (Str.drop (String.length site_prefix) href))
  else None.

End Url.

(* ===================================================================== *)
(** ** The page classifier *)
(* ===================================================================== *)

Module Classify.

Import Regex.

Record rule : Type := Rule { pattern : jsre; type : string }.

(** [[^/]+] *)
Definition segment : re := plus (not_chr "/").

Definition PATTERNS : list rule :=
  [ Rule (JsRe true (Cat (lit "/news/") segment) true) "news";
    Rule (JsRe true (lit "/about/news") false) "news-listing";
    Rule (JsRe true (Cat (lit "/scholarships/") segment) true) "scholarship";
    Rule (JsRe true (lit "/students/scholarships/scholarship-directory") false)
         "scholarship-listing";
    Rule (JsRe true (lit "/students/scholarships") false) "page";
    Rule (JsRe true (lit "/students") false) "page";
    Rule (JsRe true (Cat (lit "/grants/") segment) true) "grant";
    Rule (JsRe true (lit "/grant-seekers/past-recipients") false) "grant-listing";
    Rule (JsRe true (lit "/about/staff") true) "staff-listing";
    Rule (JsRe true (lit "/about/board") true) "board-listing" ].

(** The [try]/[catch] that computes [pathname]. *)
Definition pathname_of (new_URL : Url.ctor) (url : string) : string :=
  match new_URL url None with
  | Some u => Str.or_else (Str.strip_trailing_slash (Url.pathname u)) "/"
  | None => Str.or_else (Str.strip_trailing_slash url) "/"
  end.

(** The [for] loop over the rules: the first rule that matches returns. *)
Fixpoint first_match (rules : list rule) (pathname : string) : string :=
  match rules with
  | nil => "page"
  | r :: rest =>
      if test (pattern r) pathname then type r else first_match rest pathname
  end.

Definition classifyPage (new_URL : Url.ctor) (url : string) : string :=
  first_match PATTERNS (pathname_of new_URL url).

(** [getOutputDir], for the types that [classifyPage] returns and every
    other string that names no property of [Object.prototype]: for
    [constructor], [toString] and the like the table of the source hands
    back the inherited function, which is no directory name. *)
Definition getOutputDir (type : string) : string :=
  if String.eqb type "news" then "news"
  else if String.eqb type "scholarship" then "scholarships"
  else if String.eqb type "grant" then "grants"
  else "pages".

End Classify.

(* ===================================================================== *)
(** ** The crawl scheduler *)
(* ===================================================================== *)

Module Crawl.

(** What [scrapePage] hands back to the loop when a page loads. *)
Record page : Type := Page {
  p_title : string;
  p_links : list string;
  p_images : list string
}.

Record nav_link : Type := NavLink { l_label : string; l_href : string }.

Record nav_item : Type := NavItem {
  n_label : string;
  n_href : string;
  n_children : list nav_link
}.

(** One click on a pagination control of a listing section. *)
Inductive click : Type :=
| NoButton
| Raised
| Swapped (links : list string).

(** The module-level variables of the scraper, [seenInQueue] and [count] of
    [run], and four histories that the program does not keep: the URLs in
    the order of their [queue.push], of their [visited.add] in the loop, of
    their [scrapePage] call, and the keys of the records written. *)
Record state : Type := State {
  visited : gset string;
  queue : list string;
  seenInQueue : gset string;
  count : Z;
  allUrls : list (string * string * string);
  allImages : gset string;
  pushed : list string;
  marked : list string;
  fetched : list string;
  written : list (string * string)
}.

Definition seedUrls : list string :=
  [ "/"; "/donors"; "/donors/make-a-gift"; "/donors/planned-giving";
    "/fundholder-resources"; "/professional-advisors"; "/grant-seekers";
    "/grant-seekers/community-grants-program";
    "/grant-seekers/jelley-family-foundation-for-childrens-education";
    "/grant-seekers/past-recipients"; "/students"; "/students/scholarships";
    "/students/scholarships/scholarship-directory";
    "/students/youth-advisory-council"; "/gala"; "/about"; "/about/news";
    "/about/staff"; "/about/board" ].

Definition paginatedSections : list string :=
  [ Url.BASE_URL +:+ "/about/news";
    Url.BASE_URL +:+ "/students/scholarships/scholarship-directory" ].

(** The page budget [MAX_PAGES]: what [parseInt] gives for the argument
    after [--max-pages], an integer, or [NaN] when that argument is missing
    or does not start with a numeral; 600 without the flag. *)
Inductive budget : Type :=
| Pages (n : Z)
| NaN.

(** [count < MAX_PAGES]: a comparison with [NaN] is false. *)
Definition below (count : Z) (b : budget) : bool :=
  match b with
  | Pages n => (count <? n)%Z
  | NaN => false
  end.

(** The greatest count that a budget lets the loop come to. *)
Definition cap (b : budget) : Z :=
  match b with
  | Pages n => Z.max 0 n
  | NaN => 0
  end.

(** [queue.push(u); seenInQueue.add(u)] *)
Definition push (u : string) (st : state) : state :=
  {| visited := visited st; queue := queue st ++ [u];
     seenInQueue := {[u]} ∪ seenInQueue st; count := count st;
     allUrls := allUrls st; allImages := allImages st;
     pushed := pushed st ++ [u]; marked := marked st;
     fetched := fetched st; written := written st |}.

Section Run.

Variable new_URL : Url.ctor.
Variable RESUME : bool.
Variable MAX_PAGES : budget.
(** The site map of an earlier run, when the file exists. *)
Variable sitemap : option (list string).
(** The navigation read from the home page; when loading that page raises,
    the script ends before the loop. *)
Variable navStructure : list nav_item.
(** Loading a listing section and reading the links of its first page;
    [None] when that raises. *)
Variable open_section : string -> option (list string).
(** Looking for the control of page [n] of a section and clicking it. *)
Variable click_page : string -> nat -> click.
(** [scrapePage] of the page counted [n]; [None] is its [null]. *)
Variable scrapePage : Z -> string -> option page.

Definition normalizeUrl : string -> option string := Url.normalizeUrl new_URL.

(** [setup]: the resume state. *)
Definition setup : state :=
  {| visited :=
       if RESUME then
         match sitemap with
         | Some existing => list_to_set existing
         | None => ∅
         end
       else ∅;
     queue := []; seenInQueue := ∅; count := 0; allUrls := [];
     allImages := ∅; pushed := []; marked := []; fetched := [];
     written := [] |}.

(** [if (n && !visited.has(n) && !seenInQueue.has(n)) { push }] *)
Definition enqueue_unvisited (href : string) (st : state) : state :=
  match normalizeUrl href with
  | Some full =>
      if (negb (Str.is_empty full)
          && negb (bool_decide (full ∈ visited st))
          && negb (bool_decide (full ∈ seenInQueue st)))%bool
      then push full st else st
  | None => st
  end.

(** [if (n && !seenInQueue.has(n)) { push }] of the pagination discovery. *)
Definition enqueue_unseen (href : string) (st : state) : state :=
  match normalizeUrl href with
  | Some n =>
      if (negb (Str.is_empty n)
          && negb (bool_decide (n ∈ seenInQueue st)))%bool
      then push n st else st
  | None => st
  end.

Definition enqueue_all (f : string -> state -> state) (hrefs : list string)
    (st : state) : state :=
  fold_left (fun acc href => f href acc) hrefs st.

Definition seed (st : state) : state := enqueue_all enqueue_unvisited seedUrls st.

Definition add_nav_item (st : state) (item : nav_item) : state :=
  enqueue_all enqueue_unvisited (map l_href (n_children item))
    (enqueue_unvisited (n_href item) st).

Definition add_nav (st : state) : state := fold_left add_nav_item navStructure st.

(** The [while (pageNum <= 20)] loop, over the page numbers still to try. *)
Fixpoint click_through (section : string) (pageNums : list nat) (st : state)
    : state :=
  match pageNums with
  | nil => st
  | pageNum :: rest =>
      match click_page section pageNum with
      | NoButton => st
      | Raised => st
      | Swapped pageLinks =>
          click_through section rest (enqueue_all enqueue_unseen pageLinks st)
      end
  end.

Definition paginate (st : state) (section : string) : state :=
  match open_section section with
  | None => st
  | Some pageLinks =>
      click_through section (seq 2 19)
        (enqueue_all enqueue_unseen pageLinks st)
  end.

Definition discover (st : state) : state := fold_left paginate paginatedSections st.

(** The state when the crawl loop starts. *)
Definition frontier : state := discover (add_nav (seed setup)).

(** One turn of [while (queue.length > 0 && count < MAX_PAGES)]: the loop
    is left, goes on, or the script ends on the exception of [slugFromUrl].
    Writing the record is taken to succeed, and the delay between two
    pages is not modelled. *)
Inductive turn : Type :=
| Exit
| Next (st : state)
| Throw (st : state).

Definition harvest (url : string) (result : page) (slug : string) (st : state)
    : state :=
  let st1 := enqueue_all enqueue_unvisited (p_links result) st in
  let type := Classify.classifyPage new_URL url in
  {| visited := visited st1; queue := queue st1;
     seenInQueue := seenInQueue st1; count := count st1;
     allUrls := allUrls st1 ++ [(url, type, p_title result)];
     allImages := allImages st1; pushed := pushed st1; marked := marked st1;
     fetched := fetched st1;
     written := written st1 ++ [(Classify.getOutputDir type, slug)] |}.

(** [visited.add(url); count++] and the call of [scrapePage], before the
    result is looked at. *)
Definition mark (url : string) (rest : list string) (st : state) : state :=
  let n := (count st + 1)%Z in
  {| visited := {[url]} ∪ visited st; queue := rest;
     seenInQueue := seenInQueue st; count := n; allUrls := allUrls st;
     allImages :=
       match scrapePage n url with
       | Some result => list_to_set (p_images result)
       | None => ∅
       end ∪ allImages st;
     pushed := pushed st; marked := marked st ++ [url];
     fetched := fetched st ++ [url]; written := written st |}.

(** [if (visited.has(url)) continue;] *)
Definition skip (rest : list string) (st : state) : state :=
  {| visited := visited st; queue := rest; seenInQueue := seenInQueue st;
     count := count st; allUrls := allUrls st; allImages := allImages st;
     pushed := pushed st; marked := marked st; fetched := fetched st;
     written := written st |}.

Definition step (st : state) : turn :=
  match queue st with
  | [] => Exit
  | url :: rest =>
      if below (count st) MAX_PAGES then
        if bool_decide (url ∈ visited st) then Next (skip rest st)
        else
          let st1 := mark url rest st in
          match scrapePage (count st + 1)%Z url with
          | Some result =>
              match Url.slugFromUrl new_URL url with
              | Some slug => Next (harvest url result slug st1)
              | None => Throw st1
              end
          | None => Next st1
          end
      else Exit
  end.

Inductive ending : Type := Finished | Aborted.

Fixpoint loop (fuel : nat) (st : state) : option (ending * state) :=
  match fuel with
  | O => None
  | S fuel' =>
      match step st with
      | Exit => Some (Finished, st)
      | Next st' => loop fuel' st'
      | Throw st' => Some (Aborted, st')
      end
  end.

Definition run (fuel : nat) : option (ending * state) := loop fuel frontier.

(** [reaches st st']: the loop, started in [st], comes to [st']. *)
Inductive reaches : state -> state -> Prop :=
| reaches_here st : reaches st st
| reaches_next st st1 st' :
    step st = Next st1 -> reaches st1 st' -> reaches st st'
| reaches_throw st st1 : step st = Throw st1 -> reaches st st1.

(** The URLs that [setup] loads from the site map of an earlier run. *)
Definition resumed : gset string := visited setup.

(** What holds of the frontier at every moment of a run. *)
Record inv (st : state) : Prop := Inv {
  inv_pushed : NoDup (pushed st);
  inv_seen : forall u, u ∈ seenInQueue st <-> u ∈ pushed st;
  inv_queue : exists shifted,
      pushed st = (shifted ++ queue st)%list
      /\ forall u, u ∈ shifted -> u ∈ visited st;
  inv_marked : NoDup (marked st);
  inv_visited : forall u, u ∈ visited st <-> u ∈ resumed \/ u ∈ marked st;
  inv_fresh : forall u, u ∈ marked st -> u ∉ resumed;
  inv_fetched : fetched st = marked st;
  inv_count : count st = Z.of_nat (length (marked st));
  inv_budget : (count st <= cap MAX_PAGES)%Z
}.

End Run.

End Crawl.

(* ===================================================================== *)
(** ** A small site to run the scheduler on *)
(* ===================================================================== *)

Module Example.

Definition home : string := "https://www.thcf.org/".
Definition donors : string := "https://www.thcf.org/donors".
Definition news_index : string := "https://www.thcf.org/about/news".

Definition home_page : Crawl.page :=
  Crawl.Page "Home" ["/news/gala-recap"; "/donors"; "/about/"] ["/img/logo.png"].

Definition scrapePage (n : Z) (url : string) : option Crawl.page :=
  if String.eqb url home then Some home_page
  else if String.eqb url "https://www.thcf.org/donors/make-a-gift" then
    Some (Crawl.Page "Make a gift" ["/"; "/donors/ways-to-give"] [])
  else None.

Definition navStructure : list Crawl.nav_item :=
  [ Crawl.NavItem "About" "/about" [Crawl.NavLink "Staff" "/about/staff"] ].

Definition open_section (section : string) : option (list string) :=
  if String.eqb section news_index
  then Some ["/about/news"; "/news/gala-recap"]
  else None.

Definition click_page (section : string) (pageNum : nat) : Crawl.click :=
  if Nat.eqb pageNum 2 then Crawl.Swapped ["/news/scholarship-night"]
  else Crawl.NoButton.

(** The site map that an earlier run left. *)
Definition existing : list string := [donors; news_index].

End Example.

(* ===================================================================== *)
(** ** Documents: trees, selectors, serialisation *)
(* ===================================================================== *)

Module Dom.

Inductive node : Type :=
| Text (s : string)
| Elem (tag : string) (attrs : list (string * string)) (kids : list node).

(** The children of the document root, in order. *)
Definition forest : Type := list node.

Definition is_elem (n : node) : bool :=
  match n with Elem _ _ _ => true | Text _ => false end.

Definition tag_of (n : node) : string :=
  match n with Elem t _ _ => t | Text _ => "" end.

Definition attrs_of (n : node) : list (string * string) :=
  match n with Elem _ a _ => a | Text _ => [] end.

Definition kids_of (n : node) : list node :=
  match n with Elem _ _ ks => ks | Text _ => [] end.

Fixpoint attr (name : string) (a : list (string * string)) : option string :=
  match a with
  | [] => None
  | (k, v) :: a' => if String.eqb k name then Some v else attr name a'
  end.

(** [textContent], [.text()] *)
Fixpoint text (n : node) : string :=
  match n with
  | Text s => s
  | Elem _ _ ks => Str.concat_all (map text ks)
  end.

(** *** Serialisation *)

Fixpoint escape_text (s : string) : string :=
  match s with
  | "" => ""
  | String c s' =>
      (if Ascii.eqb c "&" then "&amp;"
       else if Ascii.eqb c "<" then "&lt;"
       else if Ascii.eqb c ">" then "&gt;"
       else if Nat.eqb (nat_of_ascii c) 160 then "&nbsp;"
       else String c "") +:+ escape_text s'
  end.

Fixpoint escape_attr (s : string) : string :=
  match s with
  | "" => ""
  | String c s' =>
      (if Ascii.eqb c "&" then "&amp;"
       else if Ascii.eqb c Str.dquote then "&quot;"
       else if Nat.eqb (nat_of_ascii c) 160 then "&nbsp;"
       else String c "") +:+ escape_attr s'
  end.

Definition mem (x : string) (l : list string) : bool := existsb (String.eqb x) l.

Definition void_tags : list string :=
  [ "area"; "base"; "br"; "col"; "embed"; "hr"; "img"; "input"; "link";
    "meta"; "param"; "source"; "track"; "wbr" ].

Definition raw_text_tags : list string :=
  [ "script"; "style"; "xmp"; "iframe"; "noembed"; "noframes"; "plaintext" ].

Fixpoint attrs_html (a : list (string * string)) : string :=
  match a with
  | [] => ""
  | (k, v) :: a' =>
      " " +:+ k +:+ "=" +:+ String Str.dquote (escape_attr v)
      +:+ String Str.dquote (attrs_html a')
  end.

(** The markup of a node; [raw] tells that its parent holds raw text. *)
Fixpoint outer_html_in (raw : bool) (n : node) : string :=
  match n with
  | Text s => if raw then s else escape_text s
  | Elem t a ks =>
      "<" +:+ t +:+ attrs_html a +:+ ">" +:+
      (if mem t void_tags then ""
       else Str.concat_all (map (outer_html_in (mem t raw_text_tags)) ks)
            +:+ "</" +:+ t +:+ ">")
  end.

(** [$.html(el)] *)
Definition outer_html (n : node) : string := outer_html_in false n.

(** [$(el).html()], [el.innerHTML] *)
Definition inner_html (n : node) : string :=
  Str.concat_all (map (outer_html_in (mem (tag_of n) raw_text_tags)) (kids_of n)).

(** [$.html()] of a whole document *)
Definition html (d : forest) : string := Str.concat_all (map outer_html d).

(** *** Selectors *)

Inductive simple : Type :=
| STag (t : string)
| SClass (c : string)
| SAttr (a : string)
| SAttrIs (a v : string)
| SAttrHas (a v : string)
| SAttrPre (a v : string)
| SFirstChild.

Definition compound : Type := list simple.

Inductive complex : Type :=
| One (c : compound)
| Desc (a : complex) (c : compound)
| Kid (a : complex) (c : compound).

(** A selector list [a, b, c]. *)
Definition selector : Type := list complex.

(** The white-space separated tokens of a [class] attribute. *)
Fixpoint tokens_go (cur : string) (s : string) : list string :=
  match s with
  | "" => if Str.is_empty cur then [] else [cur]
  | String c s' =>
      if Str.is_ws c then
        ((if Str.is_empty cur then [] else [cur]) ++ tokens_go "" s')%list
      else tokens_go (cur +:+ String c "") s'
  end.

Definition class_list (a : list (string * string)) : list string :=
  match attr "class" a with
  | Some v => tokens_go "" v
  | None => []
  end.

(** An element together with what a selector may ask about its place:
    whether it is the first element child of its parent. *)
Record here : Type := Here { h_node : node; h_first : bool }.

Definition ctx : Type := list here.

Definition match_simple (s : simple) (h : here) : bool :=
  let a := attrs_of (h_node h) in
  match s with
  | STag t => String.eqb (tag_of (h_node h)) t
  | SClass c => mem c (class_list a)
  | SAttr k => match attr k a with Some _ => true | None => false end
  | SAttrIs k v => match attr k a with Some w => String.eqb w v | None => false end
  | SAttrHas k v => match attr k a with Some w => Str.includes v w | None => false end
  | SAttrPre k v => match attr k a with Some w => String.prefix v w | None => false end
  | SFirstChild => h_first h
  end.

Definition match_compound (c : compound) (h : here) : bool :=
  is_elem (h_node h) && forallb (fun s => match_simple s h) c.

(** [anc] lists the ancestors of the element, the parent first. *)
Fixpoint match_complex (x : complex) (h : here) (anc : ctx) : bool :=
  match x with
  | One c => match_compound c h
  | Kid a c =>
      match_compound c h &&
      match anc with
      | p :: anc' => match_complex a p anc'
      | [] => false
      end
  | Desc a c =>
      match_compound c h &&
      (fix up (anc : ctx) : bool :=
         match anc with
         | p :: anc' => match_complex a p anc' || up anc'
         | [] => false
         end) anc
  end.

Definition matches (sel : selector) (h : here) (anc : ctx) : bool :=
  existsb (fun x => match_complex x h anc) sel.

(** *** Elements in document order *)

(** An element found in a document: the indices that lead to it from the
    root, the element, and its ancestors. *)
Record located : Type := Located {
  path : list nat;
  self : here;
  ancestors : ctx
}.

Definition elem (l : located) : node := h_node (self l).

Fixpoint elements_at (anc : ctx) (rpath : list nat) (i : nat) (first : bool)
    (n : node) {struct n} : list located :=
  match n with
  | Text _ => []
  | Elem _ _ ks =>
      let h := Here n first in
      Located (rev (i :: rpath)) h anc ::
      (fix go (ks : list node) (j : nat) (fst : bool) : list located :=
         match ks with
         | [] => []
         | k :: ks' =>
             (elements_at (h :: anc) (i :: rpath) j fst k
              ++ go ks' (S j) (fst && negb (is_elem k)))%list
         end) ks 0 true
  end.

Fixpoint elements_of (anc : ctx) (rpath : list nat) (ks : list node) (j : nat)
    (fst : bool) : list located :=
  match ks with
  | [] => []
  | k :: ks' =>
      (elements_at anc rpath j fst k
       ++ elements_of anc rpath ks' (S j) (fst && negb (is_elem k)))%list
  end.

(** Every element of a document, in document order. *)
Definition elements (d : forest) : list located := elements_of [] [] d 0 true.

(** The element nodes at and below a node, in document order. *)
Fixpoint subelems (n : node) : list node :=
  match n with
  | Text _ => []
  | Elem _ _ ks => n :: flat_map subelems ks
  end.

(** A test on elements that looks at the tag and the attributes only. *)
Definition by_tag_attrs (q : node -> bool) : Prop :=
  forall t a ks ks', q (Elem t a ks) = q (Elem t a ks').

(** [$(sel)], [document.querySelectorAll(sel)] *)
Definition select (sel : selector) (d : forest) : list located :=
  filter (fun l => matches sel (self l) (ancestors l)) (elements d).

(** [document.querySelector(sel)], [$(sel).first()] *)
Definition querySelector (sel : selector) (d : forest) : option located :=
  head (select sel d).

(** [$(el).find(sel)]: the matching descendants of an element. *)
Definition find (sel : selector) (l : located) : list located :=
  filter (fun x => matches sel (self x) (ancestors x))
    (elements_of (self l :: ancestors l) (rev (path l)) (kids_of (elem l)) 0 true).

(** The document without the elements that [P] picks. *)
Fixpoint prune_at (P : located -> bool) (anc : ctx) (rpath : list nat) (i : nat)
    (first : bool) (n : node) {struct n} : list node :=
  match n with
  | Text _ => [n]
  | Elem t a ks =>
      let h := Here n first in
      if P (Located (rev (i :: rpath)) h anc) then []
      else
        [ Elem t a
            ((fix go (ks : list node) (j : nat) (fst : bool) : list node :=
                match ks with
                | [] => []
                | k :: ks' =>
                    (prune_at P (h :: anc) (i :: rpath) j fst k
                     ++ go ks' (S j) (fst && negb (is_elem k)))%list
                end) ks 0 true) ]
  end.

Fixpoint prune_of (P : located -> bool) (anc : ctx) (rpath : list nat)
    (ks : list node) (j : nat) (fst : bool) : list node :=
  match ks with
  | [] => []
  | k :: ks' =>
      (prune_at P anc rpath j fst k
       ++ prune_of P anc rpath ks' (S j) (fst && negb (is_elem k)))%list
  end.

Definition prune (P : located -> bool) (d : forest) : forest :=
  prune_of P [] [] d 0 true.

(** [$(sel).remove()] *)
Definition remove (sel : selector) (d : forest) : forest :=
  prune (fun l => matches sel (self l) (ancestors l)) d.

Definition same_path (p q : list nat) : bool :=
  bool_decide (p = q).

(** [selection.remove()] for a selection held as a list. *)
Definition remove_all (ls : list located) (d : forest) : forest :=
  prune (fun l => existsb (fun x => same_path (path x) (path l)) ls) d.

(** *** Moving from an element *)

(** The ancestors of an element as elements of the document, the parent
    first. *)
Fixpoint ancestors_located (rpath : list nat) (anc : ctx) : list located :=
  match anc, rpath with
  | h :: anc', _ :: rpath' =>
      Located (rev rpath') h anc' :: ancestors_located rpath' anc'
  | _, _ => []
  end.

(** [$(el).parent()] *)
Definition parent (l : located) : option located :=
  head (ancestors_located (rev (path l)) (ancestors l)).

(** [$(el).closest(sel)]: the element itself or its nearest ancestor that
    matches. *)
Definition closest (sel : selector) (l : located) : option located :=
  head (filter (fun x => matches sel (self x) (ancestors x))
          (l :: ancestors_located (rev (path l)) (ancestors l))).

(** The element children among [ks], which start at index [j]. *)
Fixpoint kid_elems (anc : ctx) (rpath : list nat) (ks : list node) (j : nat)
    (fst : bool) : list located :=
  match ks with
  | [] => []
  | k :: ks' =>
      (if is_elem k then [Located (rev (j :: rpath)) (Here k fst) anc] else [])
      ++ kid_elems anc rpath ks' (S j) (fst && negb (is_elem k))
  end%list.

(** [$(el).children()] *)
Definition children (l : located) : list located :=
  kid_elems (self l :: ancestors l) (rev (path l)) (kids_of (elem l)) 0 true.

(** The nodes that hold an element and its siblings. *)
Definition siblings (d : forest) (l : located) : list node :=
  match ancestors l with
  | p :: _ => kids_of (h_node p)
  | [] => d
  end.

(** [$(el).nextAll(sel)]: the following sibling elements that match. *)
Definition nextAll (d : forest) (sel : selector) (l : located) : list located :=
  match rev (path l) with
  | i :: rpath =>
      filter (fun x => matches sel (self x) (ancestors x))
        (kid_elems (ancestors l) rpath (skipn (S i) (siblings d l)) (S i) false)
  | [] => []
  end.

(** [el.nextElementSibling] *)
Definition nextElementSibling (d : forest) (l : located) : option located :=
  match rev (path l) with
  | i :: rpath =>
      head (kid_elems (ancestors l) rpath (skipn (S i) (siblings d l)) (S i) false)
  | [] => None
  end.

End Dom.

(* ===================================================================== *)
(** ** Reading markup: [cheerio.load] *)
(* ===================================================================== *)

(** [cheerio.load] belongs to a library.  This reader stands for it on the
    markup the scraper stores: elements closed by their own end tag (void
    elements apart), quoted or bare attribute values, the five character
    references that the serialiser writes.  A fragment is placed in the
    [body] of a fresh document, as the library does.

    It is not the parser of the library on other markup: white space
    before the first element, comments, elements that belong in [head],
    white space around the [=] of an attribute, the case of SVG attribute
    names and numeric character references are read differently there.
    Statements that are to hold of every stored body take the document
    that the reader returns as it is, and are stated through the queries
    made on it; the examples use markup of the kind above. *)
Module Html.

Import Dom.

Inductive token : Type :=
| TText (s : string)
| TOpen (tag : string) (attrs : list (string * string))
| TClose (tag : string).

Inductive lex : Type :=
| LText (buf : string)
| LTagOpen
| LName (buf : string)
| LCloseName (buf : string)
| LAttrs (tag : string) (attrs : list (string * string))
| LAttrName (tag : string) (attrs : list (string * string)) (name : string)
| LAttrValStart (tag : string) (attrs : list (string * string)) (name : string)
| LAttrValQ (q : ascii) (tag : string) (attrs : list (string * string))
    (name buf : string)
| LAttrValU (tag : string) (attrs : list (string * string)) (name buf : string)
| LBang
| LRaw (tag : string) (buf : string).

Definition snoc (s : string) (c : ascii) : string := s +:+ String c "".

(** The character references of [escape_text] and [escape_attr], undone. *)
Fixpoint decode_go (skip : nat) (s : string) : string :=
  match s with
  | "" => ""
  | String c s' =>
      match skip with
      | S k => decode_go k s'
      | O =>
          if String.prefix "&amp;" s then String "&" (decode_go 4 s')
          else if String.prefix "&lt;" s then String "<" (decode_go 3 s')
          else if String.prefix "&gt;" s then String ">" (decode_go 3 s')
          else if String.prefix "&quot;" s then String Str.dquote (decode_go 5 s')
          else if String.prefix "&nbsp;" s
               then String (ascii_of_nat 160) (decode_go 5 s')
          else String c (decode_go 0 s')
      end
  end.

Definition decode (s : string) : string := decode_go 0 s.

Definition flush_text (buf : string) : list token :=
  if Str.is_empty buf then [] else [TText (decode buf)].

Definition after_open (tag : string) : lex :=
  if mem tag raw_text_tags then LRaw tag "" else LText "".

Fixpoint tokenize (st : lex) (s : string) : list token :=
  match s with
  | "" =>
      match st with
      | LText buf => flush_text buf
      | LRaw _ buf => if Str.is_empty buf then [] else [TText buf]
      | _ => []
      end
  | String c s' =>
      match st with
      | LText buf =>
          if Ascii.eqb c "<" then (flush_text buf ++ tokenize LTagOpen s')%list
          else tokenize (LText (snoc buf c)) s'
      | LTagOpen =>
          if Ascii.eqb c "/" then tokenize (LCloseName "") s'
          else if Ascii.eqb c "!" then tokenize LBang s'
          else tokenize (LName (String (Str.lower c) "")) s'
      | LName buf =>
          if Ascii.eqb c ">" then TOpen buf [] :: tokenize (after_open buf) s'
          else if (Str.is_ws c || Ascii.eqb c "/")%bool
               then tokenize (LAttrs buf []) s'
          else tokenize (LName (snoc buf (Str.lower c))) s'
      | LCloseName buf =>
          if Ascii.eqb c ">" then TClose buf :: tokenize (LText "") s'
          else if Str.is_ws c then tokenize (LCloseName buf) s'
          else tokenize (LCloseName (snoc buf (Str.lower c))) s'
      | LAttrs tag attrs =>
          if Ascii.eqb c ">"
          then TOpen tag attrs :: tokenize (after_open tag) s'
          else if (Str.is_ws c || Ascii.eqb c "/")%bool
               then tokenize (LAttrs tag attrs) s'
          else tokenize (LAttrName tag attrs (String (Str.lower c) "")) s'
      | LAttrName tag attrs name =>
          if Ascii.eqb c "=" then tokenize (LAttrValStart tag attrs name) s'
          else if Ascii.eqb c ">"
               then TOpen tag (attrs ++ [(name, "")])
                    :: tokenize (after_open tag) s'
          else if (Str.is_ws c || Ascii.eqb c "/")%bool
               then tokenize (LAttrs tag (attrs ++ [(name, "")])) s'
          else tokenize (LAttrName tag attrs (snoc name (Str.lower c))) s'
      | LAttrValStart tag attrs name =>
          if (Ascii.eqb c Str.dquote || Ascii.eqb c "'")%bool
          then tokenize (LAttrValQ c tag attrs name "") s'
          else if Ascii.eqb c ">"
               then TOpen tag (attrs ++ [(name, "")])
                    :: tokenize (after_open tag) s'
          else tokenize (LAttrValU tag attrs name (String c "")) s'
      | LAttrValQ q tag attrs name buf =>
          if Ascii.eqb c q
          then tokenize (LAttrs tag (attrs ++ [(name, decode buf)])) s'
          else tokenize (LAttrValQ q tag attrs name (snoc buf c)) s'
      | LAttrValU tag attrs name buf =>
          if Ascii.eqb c ">"
          then TOpen tag (attrs ++ [(name, decode buf)])
               :: tokenize (after_open tag) s'
          else if Str.is_ws c
               then tokenize (LAttrs tag (attrs ++ [(name, decode buf)])) s'
          else tokenize (LAttrValU tag attrs name (snoc buf c)) s'
      | LBang =>
          if Ascii.eqb c ">" then tokenize (LText "") s'
          else tokenize LBang s'
      | LRaw tag buf =>
          if Str.startsWith_ci ("</" +:+ tag) s
          then ((if Str.is_empty buf then [] else [TText buf])
                ++ tokenize LTagOpen s')%list
          else tokenize (LRaw tag (snoc buf c)) s'
      end
  end.

(** An element still open: its tag, its attributes and the children read
    so far, the last one first. *)
Definition frame : Type := (string * list (string * string) * list node)%type.

Definition add_child (n : node) (stack : list frame) (top : list node)
    : list frame * list node :=
  match stack with
  | [] => ([], n :: top)
  | (t, a, ks) :: rest => ((t, a, n :: ks) :: rest, top)
  end.

Definition is_open (tag : string) (stack : list frame) : bool :=
  existsb (fun f => String.eqb (fst (fst f)) tag) stack.

(** Closes the open elements down to the nearest one named [tag]; [n] is
    the element just closed, [done] tells that it was the one looked for. *)
Fixpoint close_pending (tag : string) (done : bool) (stack : list frame)
    (n : node) (top : list node) : list frame * list node :=
  if done then add_child n stack top
  else
    match stack with
    | [] => ([], n :: top)
    | (t, a, ks) :: rest =>
        close_pending tag (String.eqb t tag) rest (Elem t a (rev (n :: ks))) top
    end.

Definition close_to (tag : string) (stack : list frame) (top : list node)
    : list frame * list node :=
  match stack with
  | [] => ([], top)
  | (t, a, ks) :: rest =>
      close_pending tag (String.eqb t tag) rest (Elem t a (rev ks)) top
  end.

Fixpoint close_rest (stack : list frame) (n : node) (top : list node)
    : list node :=
  match stack with
  | [] => rev (n :: top)
  | (t, a, ks) :: rest => close_rest rest (Elem t a (rev (n :: ks))) top
  end.

Definition close_all (stack : list frame) (top : list node) : list node :=
  match stack with
  | [] => rev top
  | (t, a, ks) :: rest => close_rest rest (Elem t a (rev ks)) top
  end.

Fixpoint build (toks : list token) (stack : list frame) (top : list node)
    : list node :=
  match toks with
  | [] => close_all stack top
  | TText s :: toks' =>
      let (stack', top') := add_child (Text s) stack top in
      build toks' stack' top'
  | TOpen t a :: toks' =>
      if mem t void_tags then
        let (stack', top') := add_child (Elem t a []) stack top in
        build toks' stack' top'
      else build toks' ((t, a, []) :: stack) top
  | TClose t :: toks' =>
      if is_open t stack then
        let (stack', top') := close_to t stack top in
        build toks' stack' top'
      else build toks' stack top
  end.

(** The nodes of a piece of markup. *)
Definition parse (markup : string) : list node :=
  build (tokenize (LText "") markup) [] [].

(** [cheerio.load(markup)]: a document, whose root holds [html]. *)
Definition load (markup : string) : forest :=
  match parse markup with
  | [Elem "html" a ks] => [Elem "html" a ks]
  | ns => [Elem "html" [] [Elem "head" [] []; Elem "body" [] ns]]
  end.

End Html.

(* ===================================================================== *)
(** ** Content preparation: cleaners and the scholarship field parser *)
(* ===================================================================== *)

Module Prepare.

Import Dom.

Definition sel_tag_class (t c : string) : selector := [One [STag t; SClass c]].

(** The test of [tag.class] on a node, wherever it stands. *)
Definition has_tag_class (t c : string) (n : node) : bool :=
  matches (sel_tag_class t c) (Here n false) [].

Definition section_article_info : selector := sel_tag_class "section" "article-info".
Definition section_related : selector := sel_tag_class "section" "related".
Definition section_text_banner : selector := sel_tag_class "section" "text-banner".
Definition section_banner : selector := sel_tag_class "section" "banner".
Definition section_side_nav : selector := sel_tag_class "section" "side-nav".
Definition section_main_content : selector := sel_tag_class "section" "main-content".
Definition section_sub_content : selector := sel_tag_class "section" "sub-content".
Definition div_share : selector := sel_tag_class "div" "share".
Definition a2a_kit : selector := [One [SClass "a2a_kit"]].
Definition script_addtoany : selector := [One [STag "script"; SAttrHas "src" "addtoany"]].
Definition script : selector := [One [STag "script"]].
Definition class_ctct : selector := [One [SAttrHas "class" "ctct"]].
(** [p:first-child > img.thumbnail] *)
Definition leading_thumbnail : selector :=
  [Kid (One [STag "p"; SFirstChild]) [STag "img"; SClass "thumbnail"]].
(** [section.sub-content .side-block .sub-nav] *)
Definition sub_nav : selector :=
  [Desc (Desc (One [STag "section"; SClass "sub-content"]) [SClass "side-block"])
        [SClass "sub-nav"]].
Definition tag (t : string) : selector := [One [STag t]].
Definition tags (ts : list string) : selector := map (fun t => One [STag t]) ts.

(** [$(sel).html()]: [None] is the [null] of an empty selection. *)
Definition html_of (sel : selector) (d : forest) : option string :=
  match querySelector sel d with
  | Some l => Some (inner_html (elem l))
  | None => None
  end.

(** A string or [null] in a condition. *)
Definition truthy (o : option string) : bool :=
  match o with
  | Some s => negb (Str.is_empty s)
  | None => false
  end.

Definition removes (sels : list selector) (d : forest) : forest :=
  fold_left (fun acc sel => remove sel acc) sels d.

(** What each cleaner removes, in the order of its calls of [remove]. *)
Definition news_removed : list selector :=
  [ section_article_info; section_related; section_text_banner;
    div_share; a2a_kit; script_addtoany; script; class_ctct ].

Definition scholarship_removed : list selector :=
  [ section_banner; section_side_nav; div_share; a2a_kit; script;
    class_ctct ].

Definition page_removed : list selector :=
  [ section_banner; section_side_nav; section_article_info;
    section_related; sub_nav; div_share; a2a_kit; script; class_ctct ].

Definition cleanNewsBody (rawBody : string) : string :=
  if Str.is_empty rawBody then ""
  else
    let d := removes news_removed (Html.load rawBody) in
    let mainContent := html_of section_main_content d in
    let subContent := html_of section_sub_content d in
    let body :=
      match mainContent with
      | Some m =>
          if Str.is_empty m then ""
          else
            let dm := Html.load m in
            let thumbs := select leading_thumbnail dm in
            let ps := omap (closest (tag "p")) thumbs in
            Str.or_else (html (remove_all ps dm)) ""
      | None => ""
      end in
    let body := if truthy subContent then body +:+ default "" subContent else body in
    Str.trim body.

Definition cleanScholarshipBody (rawBody : string) : string :=
  if Str.is_empty rawBody then ""
  else
    let d := removes scholarship_removed (Html.load rawBody) in
    let mainContent := html_of section_main_content d in
    if negb (truthy mainContent) then ""
    else Str.trim (default "" mainContent).

Definition cleanPageBody (rawBody : string) : string :=
  if Str.is_empty rawBody then ""
  else
    let d := removes page_removed (Html.load rawBody) in
    let mainContent := html_of section_main_content d in
    let subContent := html_of section_sub_content d in
    let body := if truthy mainContent then default "" mainContent else "" in
    let body := if truthy subContent then body +:+ default "" subContent else body in
    let body := if Str.is_empty body then Str.or_else (html d) "" else body in
    Str.trim body.

(** *** Field labels *)

Import Regex.

Definition labels (l : list string) : re := alts (map lit_ci l).

(** [/^(Eligibility|Amount|Renewable|Deadline|Requirements|Apply):/i] *)
Definition any_label_head : jsre :=
  JsRe true
    (Cat (labels ["Eligibility"; "Amount"; "Renewable"; "Deadline";
                  "Requirements"; "Apply"]) (chr ":")) false.

(** [/^(Eligibility|Amount|Renewable|Deadline|Requirements|Apply):?$/i] *)
Definition any_label_alone : jsre :=
  JsRe true
    (Cat (labels ["Eligibility"; "Amount"; "Renewable"; "Deadline";
                  "Requirements"; "Apply"]) (opt (chr ":"))) true.

(** [/^(l1|...|ln):/i] *)
Definition label_head (l : list string) : jsre :=
  JsRe true (Cat (labels l) (chr ":")) false.

(** The body of [/\s*(l1|...|ln):?\s*$/i] *)
Definition trailing_label (l : list string) : re :=
  Cat (Star ws) (Cat (labels l) (Cat (opt (chr ":")) (Star ws))).

(** The body of [/<strong>\s*Eligibility:\s*<\/strong>[\s\S]*/i] *)
Definition strong_eligibility : re :=
  Cat (lit_ci "<strong>")
    (Cat (Star ws)
       (Cat (lit_ci "Eligibility:")
          (Cat (Star ws) (Cat (lit_ci "</strong>") (Star any))))).

(** The body of [/<br\s*\/?>\s*/i] *)
Definition trailing_br : re :=
  Cat (lit_ci "<br")
    (Cat (Star ws) (Cat (opt (chr "/")) (Cat (chr ">") (Star ws)))).

(** [s.match(/^([\s\S]+?)(R)$/)] for a body [R] that ends with [[\s\S]*]:
    the first group is the shortest non-empty prefix after which the rest
    is a word of [R]. *)
Fixpoint split_before (r : re) (s : string) : option (string * string) :=
  match s with
  | "" => None
  | String c s' =>
      if matches r s' then Some (String c "", s')
      else
        match split_before r s' with
        | Some (a, b) => Some (String c a, b)
        | None => None
        end
  end.

(** [s.replace(/^label\s*/i, '')] *)
Definition remove_label_head (label s : string) : string :=
  if Str.startsWith_ci label s
  then Str.trimStart (Str.drop (String.length label) s)
  else s.

(** [s.replace(/:$/, '')] *)
Fixpoint strip_trailing_colon (s : string) : string :=
  match s with
  | "" => ""
  | String c s' =>
      if (Str.is_empty s' && Ascii.eqb c ":")%bool then ""
      else String c (strip_trailing_colon s')
  end.

(** [s.toLowerCase()] on code units below 256. *)
Definition toLowerCase_char (c : ascii) : ascii :=
  let n := nat_of_ascii c in
  if (Nat.leb 65 n && Nat.leb n 90)%bool then ascii_of_nat (n + 32)
  else if (Nat.leb 192 n && Nat.leb n 222 && negb (Nat.eqb n 215))%bool
       then ascii_of_nat (n + 32)
  else c.

Fixpoint toLowerCase (s : string) : string :=
  match s with
  | "" => ""
  | String c s' => String (toLowerCase_char c) (toLowerCase s')
  end.

(** *** The parser *)

Record renewable_t : Type := Renewable { isRenewable : bool; details : string }.

Record fields : Type := Fields {
  eligibility : list string;
  amount : string;
  renewable : renewable_t;
  deadline : string;
  requirements : list string;
  description : string
}.

(** What [parseScholarshipFields] returns: the object [{}] or the record. *)
Inductive parsed : Type :=
| EmptyObject
| Parsed (f : fields).

Definition text_trim (l : located) : string := Str.trim (text (elem l)).

Definition hasFieldLabel (el : located) : bool :=
  Regex.test any_label_head (text_trim el)
  || existsb (fun s => Regex.test any_label_alone (text_trim s))
       (find (tag "strong") el).

(** The turn of the description loop for one child of [body]. *)
Definition describe (acc : bool * list string) (el : located)
    : bool * list string :=
  let '(reachedFields, descParts) := acc in
  let '(reachedFields, descParts) :=
    if (hasFieldLabel el && negb reachedFields)%bool then
      let elHtml := outer_html (elem el) in
      match split_before strong_eligibility elHtml with
      | Some (before, _) =>
          let descBefore := Str.trim (remove_at_end trailing_br before) in
          if negb (Str.is_empty descBefore) then
            if (Str.startsWith "<p>" descBefore
                || Str.startsWith "<p " descBefore)%bool
            then (true, (descParts ++ [descBefore +:+ "</p>"])%list)
            else (true, (descParts ++ [descBefore])%list)
          else (true, descParts)
      | None => (true, descParts)
      end
    else (reachedFields, descParts) in
  if negb reachedFields then
    if String.eqb (tag_of (elem el)) "script" then (reachedFields, descParts)
    else (reachedFields, (descParts ++ [outer_html (elem el)])%list)
  else (reachedFields, descParts).

Definition items (o : option located) : list string :=
  match o with
  | Some nextList => map text_trim (find (tag "li") nextList)
  | None => []
  end.

Definition set_eligibility (v : list string) (r : fields) : fields :=
  Fields v (amount r) (renewable r) (deadline r) (requirements r) (description r).
Definition set_amount (v : string) (r : fields) : fields :=
  Fields (eligibility r) v (renewable r) (deadline r) (requirements r) (description r).
Definition set_renewable (v : renewable_t) (r : fields) : fields :=
  Fields (eligibility r) (amount r) v (deadline r) (requirements r) (description r).
Definition set_deadline (v : string) (r : fields) : fields :=
  Fields (eligibility r) (amount r) (renewable r) v (requirements r) (description r).
Definition set_requirements (v : list string) (r : fields) : fields :=
  Fields (eligibility r) (amount r) (renewable r) (deadline r) v (description r).

(** The text of the next [p] sibling, when there is one. *)
Definition next_p_text (d : forest) (parent : located) : option string :=
  match head (nextAll d (tag "p") parent) with
  | Some nextP => Some (text_trim nextP)
  | None => None
  end.

(** The labels of [/\s*(Requirements|Apply|Amount|Renewable|Eligibility):?\s*$/i]. *)
Definition deadline_leaks : list string :=
  ["Requirements"; "Apply"; "Amount"; "Renewable"; "Eligibility"].

(** Lines 417 to 426: the text kept from the paragraph of a Deadline label. *)
Definition deadline_after_label (fullText : string) : string :=
  let afterLabel :=
    match Str.lastIndexOf "Deadline:" fullText with
    | Some deadlineIdx =>
        Str.trim (Str.drop (deadlineIdx + String.length "Deadline:") fullText)
    | None => Str.trim (remove_label_head "Deadline:" fullText)
    end in
  Str.trim (remove_at_end (trailing_label deadline_leaks) afterLabel).

(** A word of [\s*(l1|...|ln):?\s*]: white space, a label in any case,
    a colon or none, white space. *)
Definition label_tail (ls : list string) (s : string) : Prop :=
  exists w1 x c w2,
    s = w1 +:+ x +:+ c +:+ w2
    /\ Str.all_ws w1 = true
    /\ (exists l, In l ls /\ Str.lower_s x = Str.lower_s l)
    /\ (c = "" \/ c = ":")
    /\ Str.all_ws w2 = true.

(** A character that may follow a label: white space or a colon. *)
Definition after_label_char (c : ascii) : bool :=
  (Str.is_ws c || Ascii.eqb c ":")%bool.

(** The [deadline] branch once the paragraph of the label is known. *)
Definition deadline_branch (fullText : string) (nextText : option string)
    (result : fields) : fields :=
  let afterLabel := deadline_after_label fullText in
  if (negb (Str.is_empty afterLabel)
      && negb (Regex.test (label_head ["Requirements"; "Apply"]) afterLabel))%bool
  then set_deadline afterLabel result
  else
    match nextText with
    | Some nextText =>
        if negb (Regex.test
                   (label_head ["Requirements"; "Apply"; "Amount"; "Renewable";
                                "Eligibility"]) nextText)
        then set_deadline nextText result
        else result
    | None => result
    end.

(** The turn of the field loop for one [strong] element. *)
Definition field_of (d : forest) (result : fields) (strong : located) : fields :=
  let label := toLowerCase (strip_trailing_colon (text_trim strong)) in
  if String.eqb label "eligibility" then
    let nextList :=
      match closest (tags ["p"; "li"; "div"]) strong with
      | Some parent => head (nextAll d (tags ["ul"; "ol"]) parent)
      | None =>
          match closest (tag "p") strong with
          | Some p => head (nextAll d (tags ["ul"; "ol"]) p)
          | None => None
          end
      end in
    let nextList :=
      match nextList with
      | Some _ => nextList
      | None =>
          match parent strong with
          | Some p => head (nextAll d (tags ["ul"; "ol"]) p)
          | None => None
          end
      end in
    match nextList with
    | Some _ => set_eligibility (items nextList) result
    | None => result
    end
  else if String.eqb label "amount" then
    match closest (tag "p") strong with
    | Some parent =>
        let fullText := text_trim parent in
        let afterLabel := Str.trim (remove_label_head "Amount:" fullText) in
        if (negb (Str.is_empty afterLabel)
            && negb (Str.startsWith "Renewable" afterLabel)
            && negb (Str.startsWith "Deadline" afterLabel))%bool
        then set_amount afterLabel result
        else
          match next_p_text d parent with
          | Some nextText =>
              if negb (Regex.test
                         (label_head ["Renewable"; "Deadline"; "Requirements";
                                      "Apply"; "Eligibility"]) nextText)
              then set_amount nextText result
              else result
          | None => result
          end
    | None => result
    end
  else if String.eqb label "renewable" then
    match closest (tag "p") strong with
    | Some parent =>
        let fullText := text_trim parent in
        let afterLabel := Str.trim (remove_label_head "Renewable:" fullText) in
        let renewText :=
          if Str.is_empty afterLabel then
            match next_p_text d parent with
            | Some nextText =>
                if negb (Regex.test
                           (label_head ["Deadline"; "Requirements"; "Apply";
                                        "Amount"; "Eligibility"]) nextText)
                then nextText else afterLabel
            | None => afterLabel
            end
          else afterLabel in
        let renewText :=
          Str.trim
            (remove_at_end
               (trailing_label ["Deadline"; "Requirements"; "Apply"; "Amount";
                                "Eligibility"]) renewText) in
        if negb (Str.is_empty renewText) then
          set_renewable
            (Renewable (Regex.test (JsRe true (lit_ci "yes") false) renewText)
                       renewText) result
        else result
    | None => result
    end
  else if String.eqb label "deadline" then
    match closest (tag "p") strong with
    | Some parent =>
        deadline_branch (text_trim parent) (next_p_text d parent) result
    | None => result
    end
  else if String.eqb label "requirements" then
    let nextList :=
      match closest (tag "p") strong with
      | Some parent => head (nextAll d (tags ["ul"; "ol"]) parent)
      | None =>
          match parent strong with
          | Some p => head (nextAll d (tags ["ul"; "ol"]) p)
          | None => None
          end
      end in
    match nextList with
    | Some _ => set_requirements (items nextList) result
    | None => result
    end
  else result.

Definition parseScholarshipFields (rawBody : string) : parsed :=
  if Str.is_empty rawBody then EmptyObject
  else
    match querySelector section_main_content (Html.load rawBody) with
    | None => EmptyObject
    | Some mainSection =>
        let html := Str.or_else (inner_html (elem mainSection)) "" in
        let content := Html.load html in
        let result := Fields [] "" (Renewable false "") "" [] "" in
        let allChildren := flat_map children (select (tag "body") content) in
        let '(_, descParts) := fold_left describe allChildren (false, []) in
        let result :=
          Fields (eligibility result) (amount result) (renewable result)
            (deadline result) (requirements result)
            (Str.trim (Str.concat_all descParts)) in
        Parsed (fold_left (field_of content) (select (tag "strong") content) result)
    end.

End Prepare.

(* ===================================================================== *)
(** ** Removals that do not look at the place of an element *)
(* ===================================================================== *)

Module Strip.

Import Dom.

(** A selector without [:first-child] looks at the tag and the attributes
    of an element and of its ancestors, not at their children or place. *)
Definition simple_free (s : simple) : bool :=
  match s with
  | SFirstChild => false
  | _ => true
  end.

Fixpoint free (x : complex) : bool :=
  match x with
  | One c => forallb simple_free c
  | Desc a c => free a && forallb simple_free c
  | Kid a c => free a && forallb simple_free c
  end.

Definition placeless (sel : selector) : bool := forallb free sel.

(** An element without its children and its place. *)
Definition plain (h : here) : here :=
  Here (match h_node h with
        | Elem t a _ => Elem t a []
        | Text s => Text s
        end) false.

(** [$(sel).remove()] for such a selector, as a walk that carries the
    ancestors without their children. *)
Fixpoint strip_at (sel : selector) (anc : ctx) (n : node) : list node :=
  match n with
  | Text _ => [n]
  | Elem t a ks =>
      let h := Here (Elem t a []) false in
      if matches sel h anc then []
      else [Elem t a (flat_map (strip_at sel (h :: anc)) ks)]
  end.

(** No element at or below [n] matches [sel]. *)
Fixpoint clean_at (sel : selector) (anc : ctx) (n : node) : bool :=
  match n with
  | Text _ => true
  | Elem t a ks =>
      let h := Here (Elem t a []) false in
      negb (matches sel h anc) && forallb (clean_at sel (h :: anc)) ks
  end.

End Strip.

(* ===================================================================== *)
(** ** The field extractors *)
(* ===================================================================== *)

Module Extract.

Import Dom.

(** The end of a piece of script: a value, or an exception. *)
Inductive outcome (A : Type) : Type :=
| Returned (a : A)
| Thrown (what : string).

Arguments Returned {A} a.
Arguments Thrown {A} what.

Definition bind {A B : Type} (m : outcome A) (f : A -> outcome B) : outcome B :=
  match m with
  | Returned a => f a
  | Thrown w => Thrown w
  end.

Notation "x <- m ;; k" := (bind m (fun x => k))
  (at level 100, m at level 99, right associativity).

(** [o.p]: reading a property of [null] raises a [TypeError]. *)
Definition get {A : Type} (o : option located) (p : located -> A) : outcome A :=
  match o with
  | Some e => Returned (p e)
  | None => Thrown "TypeError"
  end.

(** [o?.p] *)
Definition get_opt {A : Type} (o : option located) (p : located -> A) : option A :=
  match o with
  | Some e => Some (p e)
  | None => None
  end.

(** [v || d] for a string that may be [undefined] or [null]. *)
Definition or_str (v : option string) (d : string) : string :=
  match v with
  | Some s => Str.or_else s d
  | None => d
  end.

(** [v || w] where both may be [undefined]. *)
Definition or_opt (v w : option string) : option string :=
  match v with
  | Some s => if Str.is_empty s then w else v
  | None => w
  end.

(** [xs.map(f)] for a callback that may raise. *)
Fixpoint each {A B : Type} (f : A -> outcome B) (xs : list A) : outcome (list B) :=
  match xs with
  | [] => Returned []
  | x :: xs' =>
      y <- f x ;;
      ys <- each f xs' ;;
      Returned (y :: ys)
  end.

Definition sel (l : list compound) : selector := map One l.

Definition cls (c : string) : compound := [SClass c].
Definition tg (t : string) : compound := [STag t].

(** [main .content] *)
Definition main_content : complex := Desc (One (tg "main")) (cls "content").
(** [article img], [main img], and the like *)
Definition inside (t u : string) : complex := Desc (One (tg t)) (tg u).
Definition inside_class (c u : string) : complex := Desc (One (cls c)) (tg u).

Definition h1 : selector := sel [tg "h1"].
Definition news_content : selector :=
  [One (tg "article"); One (cls "entry-content"); One (cls "post-content");
   main_content; One (tg "main")].
Definition date_sel : selector :=
  sel [tg "time"; cls "date"; cls "post-date"; [SAttr "datetime"]].
Definition author_sel : selector :=
  sel [cls "author"; cls "byline"; [SAttrIs "rel" "author"]].
Definition category_sel : selector := sel [cls "category"; cls "tag"; cls "post-category"].
Definition featured_sel : selector :=
  [inside "article" "img"; inside_class "post-content" "img";
   inside_class "hero" "img"; inside "main" "img"].
Definition content_images : selector := [inside "article" "img"; inside "main" "img"].
Definition item_content : selector := [One (tg "article"); main_content; One (tg "main")].
Definition label_sel : selector :=
  sel [tg "dt"; tg "th"; tg "strong"; tg "b"; tg "label"; cls "field-label"].
Definition staff_cards : selector :=
  sel [cls "staff-card"; cls "team-member"; cls "card";
       [SAttrHas "class" "staff"]; [SAttrHas "class" "team"]].
Definition board_cards : selector :=
  sel [cls "board-card"; cls "team-member"; cls "card";
       [SAttrHas "class" "board"]; [SAttrHas "class" "director"]].
Definition name_sel : selector := sel [tg "h2"; tg "h3"; tg "h4"; cls "name"].
Definition title_sel : selector := sel [cls "title"; cls "position"; cls "role"; tg "p"].
Definition img_sel : selector := sel [tg "img"].
Definition mailto_sel : selector := sel [[STag "a"; SAttrPre "href" "mailto:"]].
Definition tel_sel : selector := sel [[STag "a"; SAttrPre "href" "tel:"]].
Definition main_sel : selector := sel [tg "main"].
Definition page_content : selector :=
  [One (tg "article"); main_content; One (cls "page-content"); One (tg "main")].
Definition aside_sel : selector := sel [tg "aside"; cls "sidebar"].

Record image : Type := Image { src : string; alt : string }.

Record news : Type := News {
  news_title : string; date : string; author : string; category : string;
  featuredImage : string; news_body : string; news_bodyText : string;
  news_images : list image
}.

Record item : Type := Item {
  item_title : string; item_fields : gmap string string; item_body : string;
  item_bodyText : string; item_images : list image
}.

Record staff : Type := Staff {
  name : string; jobTitle : string; photo : string; email : string;
  phone : string
}.

Record director : Type := Director {
  d_name : string; role : string; d_photo : string
}.

Record generic : Type := Generic {
  title : string; body : string; bodyText : string; images : list image;
  sidebar : string
}.

Inductive extracted : Type :=
| OfNews (r : news)
| OfScholarship (r : item)
| OfGrant (r : item)
| OfStaff (members : list staff) (body : string)
| OfBoard (members : list director) (body : string)
| OfPage (r : generic).

Section Page.

(** The page at hand: its document, and how the browser resolves the URL
    in a [src] attribute. *)
Variable document : forest.
Variable resolve : string -> string.

Definition textContent (e : located) : string := text (elem e).
Definition innerHTML (e : located) : string := inner_html (elem e).
Definition getAttribute (k : string) (e : located) : option string :=
  attr k (attrs_of (elem e)).

(** [img.src]: the address of the attribute, resolved against the page
    (an empty attribute resolves to the address of the page itself), or
    the empty string when the attribute is missing. *)
Definition src_of (e : located) : string :=
  match getAttribute "src" e with
  | Some v => resolve v
  | None => ""
  end.

(** [img.alt] *)
Definition alt_of (e : located) : string := default "" (getAttribute "alt" e).

(** [el?.textContent?.trim()] *)
Definition trimmed (o : option located) : option string :=
  get_opt o (fun e => Str.trim (textContent e)).

(** [[...document.querySelectorAll(s)].map(img => ({src, alt}))] *)
Definition images_of (s : selector) : outcome (list image) :=
  each (fun img =>
          src <- get (Some img) src_of ;;
          alt <- get (Some img) alt_of ;;
          Returned (Image src (Str.or_else alt "")))
       (select s document).

Definition extractNews : outcome extracted :=
  let title := or_str (trimmed (querySelector h1 document)) "" in
  let body := or_str (get_opt (querySelector news_content document) innerHTML) "" in
  let bodyText := or_str (trimmed (querySelector news_content document)) "" in
  let dateEl := querySelector date_sel document in
  let date :=
    or_str (or_opt (mjoin (get_opt dateEl (getAttribute "datetime")))
                   (trimmed dateEl)) "" in
  let authorEl := querySelector author_sel document in
  let author := or_str (trimmed authorEl) "" in
  let categoryEl := querySelector category_sel document in
  let category := or_str (trimmed categoryEl) "" in
  let featuredImg := querySelector featured_sel document in
  let featuredImage := or_str (get_opt featuredImg src_of) "" in
  images <- images_of content_images ;;
  Returned (OfNews (News title date author category featuredImage body bodyText images)).

(** The callback of [forEach] that fills [fields].  Assigning a string to
    [fields["__proto__"]] goes to the setter of [Object.prototype], which
    ignores a value that is no object: no key is created. *)
Definition add_field (fields : gmap string string) (el : located)
    : outcome (gmap string string) :=
  t <- get (Some el) textContent ;;
  let label := Prepare.strip_trailing_colon (Prepare.toLowerCase (Str.trim t)) in
  let value :=
    or_str
      (or_opt (trimmed (nextElementSibling document el))
              (trimmed (mjoin (get_opt (parent el) (nextElementSibling document)))))
      "" in
  if (negb (Str.is_empty value) && negb (Str.is_empty label))%bool
  then
    if String.eqb label "__proto__" then Returned fields
    else Returned (<[label := value]> fields)
  else Returned fields.

Fixpoint add_fields (fields : gmap string string) (els : list located)
    : outcome (gmap string string) :=
  match els with
  | [] => Returned fields
  | el :: els' =>
      fields' <- add_field fields el ;;
      add_fields fields' els'
  end.

Definition extractItem : outcome item :=
  let title := or_str (trimmed (querySelector h1 document)) "" in
  let content := querySelector item_content document in
  let body := or_str (get_opt content innerHTML) "" in
  let bodyText := or_str (trimmed content) "" in
  fields <- add_fields ∅ (select label_sel document) ;;
  images <- images_of content_images ;;
  Returned (Item title fields body bodyText images).

Definition extractScholarship : outcome extracted :=
  r <- extractItem ;; Returned (OfScholarship r).

Definition extractGrant : outcome extracted :=
  r <- extractItem ;; Returned (OfGrant r).

(** [card.querySelector(s)] *)
Definition within (card : located) (s : selector) : option located :=
  head (find s card).

(** The callback of [cards.forEach]: the member to push, if it has a name. *)
Definition staff_of (card : located) : outcome (option staff) :=
  let name := or_str (trimmed (within card name_sel)) "" in
  let titleEl := within card title_sel in
  let jobTitle := or_str (trimmed titleEl) "" in
  let photo := or_str (get_opt (within card img_sel) src_of) "" in
  let email := or_str (trimmed (within card mailto_sel)) "" in
  let phone := or_str (trimmed (within card tel_sel)) "" in
  Returned (if Str.is_empty name then None
            else Some (Staff name jobTitle photo email phone)).

Definition extractStaffListing : outcome extracted :=
  let cards := select staff_cards document in
  found <- (if Nat.ltb 0 (length cards) then each staff_of cards else Returned []) ;;
  let members := omap id found in
  let body := or_str (get_opt (querySelector main_sel document) innerHTML) "" in
  Returned (OfStaff members body).

Definition director_of (card : located) : outcome (option director) :=
  let name := or_str (trimmed (within card name_sel)) "" in
  let titleEl := within card title_sel in
  let role := or_str (trimmed titleEl) "" in
  let photo := or_str (get_opt (within card img_sel) src_of) "" in
  Returned (if Str.is_empty name then None else Some (Director name role photo)).

Definition extractBoardListing : outcome extracted :=
  let cards := select board_cards document in
  found <- (if Nat.ltb 0 (length cards) then each director_of cards else Returned []) ;;
  let members := omap id found in
  let body := or_str (get_opt (querySelector main_sel document) innerHTML) "" in
  Returned (OfBoard members body).

Definition extractGenericPage : outcome extracted :=
  let title := or_str (trimmed (querySelector h1 document)) "" in
  let content := querySelector page_content document in
  let body := or_str (get_opt content innerHTML) "" in
  let bodyText := or_str (trimmed content) "" in
  images <- images_of content_images ;;
  let sidebar := or_str (get_opt (querySelector aside_sel document) innerHTML) "" in
  Returned (OfPage (Generic title body bodyText images sidebar)).

(** [getExtractor(type)(page)] *)
Definition getExtractor (type : string) : outcome extracted :=
  if String.eqb type "news" then extractNews
  else if String.eqb type "scholarship" then extractScholarship
  else if String.eqb type "grant" then extractGrant
  else if String.eqb type "staff-listing" then extractStaffListing
  else if String.eqb type "board-listing" then extractBoardListing
  else extractGenericPage.

(** What an extractor returns where the page has nothing for a field. *)
Definition defaults (r : extracted) : Prop :=
  match r with
  | OfNews n =>
      (querySelector h1 document = None -> news_title n = "")
      /\ (querySelector news_content document = None ->
          news_body n = "" /\ news_bodyText n = "")
      /\ (querySelector date_sel document = None -> date n = "")
      /\ (querySelector author_sel document = None -> author n = "")
      /\ (querySelector category_sel document = None -> category n = "")
      /\ (querySelector featured_sel document = None -> featuredImage n = "")
      /\ (select content_images document = [] -> news_images n = [])
  | OfScholarship i | OfGrant i =>
      (querySelector h1 document = None -> item_title i = "")
      /\ (querySelector item_content document = None ->
          item_body i = "" /\ item_bodyText i = "")
      /\ (select label_sel document = [] -> item_fields i = ∅)
      /\ (select content_images document = [] -> item_images i = [])
  | OfStaff members body =>
      (select staff_cards document = [] -> members = [])
      /\ (querySelector main_sel document = None -> body = "")
  | OfBoard members body =>
      (select board_cards document = [] -> members = [])
      /\ (querySelector main_sel document = None -> body = "")
  | OfPage g =>
      (querySelector h1 document = None -> title g = "")
      /\ (querySelector page_content document = None ->
          body g = "" /\ bodyText g = "")
      /\ (select content_images document = [] -> images g = [])
      /\ (querySelector aside_sel document = None -> sidebar g = "")
  end.

End Page.

End Extract.

(* ===================================================================== *)
(** ** Pieces of markup to run the cleaners and the parser on *)
(* ===================================================================== *)

Module Samples.

(** [<section class="main-content">] *)
Definition main_open : string :=
  "<section class=" +:+ String Str.dquote "main-content"
  +:+ String Str.dquote ">".

(** The body of a scholarship page, as the specification gives it. *)
Definition scholarship : string :=
  "<p>Intro text.<br><br><strong>Eligibility:</strong></p><ul><li>GPA 3.0</li><li>Resident</li></ul><p><strong>Amount:</strong> $1,000</p><p><strong>Deadline:</strong> March 1</p>".

(** The same body inside the section that the scraped pages have. *)
Definition scholarship_in_section : string :=
  main_open +:+ scholarship +:+ "</section>".

(** A page with one paragraph of main content. *)
Definition greeting : string := main_open +:+ "<p>Hi</p></section>".
(** A paragraph that names the deadline twice, the second time in the
    label element, and ends with a label that leaked in. *)
Definition deadline_twice : string :=
  main_open
  +:+ "<p>Renewable: No. Deadline: rolling <strong>Deadline:</strong> March 1 Apply:</p></section>".

(** The same with the label in capitals. *)
Definition deadline_in_capitals : string :=
  main_open
  +:+ "<p>DEADLINE: rolling <strong>DEADLINE:</strong> March 1</p></section>".

(** A label alone in its paragraph; the next paragraph ends with a label. *)
Definition deadline_in_next_paragraph : string :=
  main_open
  +:+ "<p><strong>Deadline:</strong></p><p>March 1 Requirements:</p></section>".

End Samples.

(* ===================================================================== *)
(** ** More of the string and object primitives *)
(* ===================================================================== *)

Module Text.

(** [s.substring(0, n)] and [s.slice(0, n)] for a count [n]. *)
Fixpoint take (n : nat) (s : string) : string :=
  match n, s with
  | O, _ => ""
  | S _, "" => ""
  | S n', String c s' => String c (take n' s')
  end.

(** [s.split(sep)] for a separator of one character: [cut c rest] tells
    whether the character [c], standing in front of [rest], is one. *)
Fixpoint split_by (cut : ascii -> string -> bool) (s : string) : list string :=
  match s with
  | "" => [""]
  | String c s' =>
      match split_by cut s' with
      | seg :: segs =>
          if cut c s' then "" :: seg :: segs else String c seg :: segs
      | [] => [String c ""]
      end
  end.

(** [s.split(c)] *)
Definition split (c : ascii) (s : string) : list string :=
  split_by (fun d _ => Ascii.eqb c d) s.

Definition newline : ascii := ascii_of_nat 10.

(** [l.filter(Boolean)] on strings: the empty ones go. *)
Definition nonempty (l : list string) : list string :=
  List.filter (fun s => negb (Str.is_empty s)) l.

(** [l.join(sep)] *)
Fixpoint join (sep : string) (l : list string) : string :=
  match l with
  | [] => ""
  | s :: l' =>
      match l' with
      | [] => s
      | _ :: _ => s +:+ sep +:+ join sep l'
      end
  end.

(** [l[l.length - 1] || ''] *)
Definition last_or_empty (l : list string) : string := List.last l "".

(** [l[0] || ''] *)
Definition first_or_empty (l : list string) : string := List.hd "" l.

(** [s.replace(/\.$/, '')] *)
Fixpoint strip_trailing_dot (s : string) : string :=
  match s with
  | "" => ""
  | String c s' =>
      if (Str.is_empty s' && Ascii.eqb c ".")%bool then ""
      else String c (strip_trailing_dot s')
  end.

(** [[A-Z]] *)
Definition is_upper (c : ascii) : bool :=
  let n := nat_of_ascii c in (Nat.leb 65 n && Nat.leb n 90)%bool.

(** [s.split(/\.(?=[A-Z])/)]: a full stop is a separator when a capital
    letter follows it. *)
Definition split_sentences (s : string) : list string :=
  split_by (fun c rest =>
              Ascii.eqb c "." &&
              match rest with
              | String d _ => is_upper d
              | "" => false
              end)%bool s.

End Text.

Module Obj.

(** The property names that every object inherits from [Object.prototype];
    reading one of them on an object that has no such key of its own gives
    a function or an object, which counts as true in a condition. *)
Definition inherited : list string :=
  [ "constructor"; "hasOwnProperty"; "isPrototypeOf"; "propertyIsEnumerable";
    "toLocaleString"; "toString"; "valueOf"; "__defineGetter__";
    "__defineSetter__"; "__lookupGetter__"; "__lookupSetter__"; "__proto__" ].

(** [if (o[k])] for an object [o] of strings read from a JSON file. *)
Definition truthy_at (o : gmap string string) (k : string) : bool :=
  match o !! k with
  | Some v => negb (Str.is_empty v)
  | None => Dom.mem k inherited
  end.

End Obj.

(* ===================================================================== *)
(** ** Content preparation: paths, titles, records *)
(* ===================================================================== *)

Module Content.

Import Dom Regex.

Section Paths.

Variable new_URL : Url.ctor.

(** [urlToPath]: a URL that does not parse falls through the empty
    [catch], and both last [return]s give [href] back. *)
Definition urlToPath (href : string) : string :=
  if Str.is_empty href then "/"
  else
    match new_URL href None with
    | Some u =>
        if Str.includes "thcf.org" (Url.hostname u)
        then Str.or_else (Url.pathname u) "/"
        else if Str.startsWith "/" href then href else href
    | None => if Str.startsWith "/" href then href else href
    end.

(** What the platform does with a path: without a base it is no URL; and
    the path of a URL with a host is empty or starts with a slash. *)
Definition relative_paths_fail : Prop :=
  forall s, String.prefix "/" s = true -> new_URL s None = None.

Definition paths_are_rooted : Prop :=
  forall s u, new_URL s None = Some u ->
    Str.includes "thcf.org" (Url.hostname u) = true ->
    Url.pathname u = "" \/ String.prefix "/" (Url.pathname u) = true.

(** [slugFromUrl] of the preparation script: the last segment of the path. *)
Definition slugFromUrl (url : string) : string :=
  let p := urlToPath url in
  let segments := Text.nonempty (Text.split "/" p) in
  Text.last_or_empty segments.

(** An entry of the navigation; [children] may be missing. *)
Inductive nav : Type :=
| Nav (label href : string) (children : option (list nav)).

Fixpoint cleanNavItem (item : nav) : nav :=
  match item with
  | Nav label href children =>
      Nav label (urlToPath href)
        match children with
        | Some l =>
            match l with
            | [] => None
            | _ :: _ => Some (map cleanNavItem l)
            end
        | None => None
        end
  end.

End Paths.

(** The labels and the targets of an entry and of all below it, in order. *)
Fixpoint labels (item : nav) : list string :=
  match item with
  | Nav label _ children =>
      label :: match children with
               | Some l => flat_map labels l
               | None => []
               end
  end.

Fixpoint hrefs (item : nav) : list string :=
  match item with
  | Nav _ href children =>
      href :: match children with
              | Some l => flat_map hrefs l
              | None => []
              end
  end.

Definition site_name : string := "Truman Heartland Community Foundation".

(** The body of [/\s*\|?\s*Truman Heartland Community Foundation\s*$/i] *)
Definition site_suffix : re :=
  Cat (Star ws)
    (Cat (opt (chr "|"))
       (Cat (Star ws)
          (Cat (lit_ci site_name) (Star ws)))).

(** The body of [/\u2026$/]: the code unit 8230.  The strings of this
    development are made of code units below 256, none of which is that
    one. *)
Definition ellipsis : re :=
  Sym (fun c => N.eqb (N_of_ascii c) 8230).

(** [cleanMetaTitle]; [None] is a missing [meta] or title. *)
Definition cleanMetaTitle (metaTitle : option string) : string :=
  match metaTitle with
  | None => ""
  | Some metaTitle =>
      if Str.is_empty metaTitle then ""
      else Str.trim
             (remove_at_end ellipsis (remove_at_end site_suffix metaTitle))
  end.

(** [$(sel).first().text().trim()] *)
Definition first_text (sel : selector) (d : forest) : string :=
  match head (select sel d) with
  | Some e => Str.trim (text (elem e))
  | None => Str.trim ""
  end.

Definition extractTitle (body : string) (metaTitle : option string) : string :=
  let h1 :=
    if Str.is_empty body then ""
    else first_text (Prepare.tag "h1") (Html.load body) in
  if (negb (Str.is_empty body) && negb (Str.is_empty h1)
      && negb (String.eqb h1 "Site Navigation"))%bool
  then h1
  else cleanMetaTitle metaTitle.

(** [section.text-banner p.section] *)
Definition banner_section : selector :=
  [Desc (One [STag "section"; SClass "text-banner"]) [STag "p"; SClass "section"]].

Definition extractCategory (body : string) : string :=
  if Str.is_empty body then ""
  else Str.or_else (first_text banner_section (Html.load body)) "".

Definition cleanAuthor (author : string) : string :=
  if Str.is_empty author then ""
  else
    let lines := Text.nonempty (map Str.trim (Text.split Text.newline author)) in
    Text.first_or_empty lines.

(** *** News articles *)

(** [/^(Share this page|More articles like this|Back to all posts|Facebook|LinkedIn|Email$)/]:
    a line that starts with one of the first five, or is the last one. *)
Definition stop_share : jsre :=
  JsRe true
    (Alt (Cat (alts [ lit "Share this page"; lit "More articles like this";
                      lit "Back to all posts"; lit "Facebook"; lit "LinkedIn" ])
              (Star any))
         (lit "Email"))
    true.

(** [/^(Students|Donors|Fundholders|Grant Seekers|Professional Advisors|About Us|Annual Gala)$/] *)
Definition stop_menu : jsre :=
  JsRe true
    (alts [ lit "Students"; lit "Donors"; lit "Fundholders"; lit "Grant Seekers";
            lit "Professional Advisors"; lit "About Us"; lit "Annual Gala" ])
    true.

(** The [for] loop over the lines, from the state [foundContent]; a
    [break] ends the list. *)
Fixpoint content_lines (title date category : string) (foundContent : bool)
    (lines : list string) : list string :=
  match lines with
  | [] => []
  | line :: rest =>
      if (negb foundContent
          && (String.eqb line title || String.eqb line date
              || String.eqb line category))%bool
      then content_lines title date category foundContent rest
      else if (negb foundContent && Nat.ltb (String.length line) 20)%bool
      then content_lines title date category foundContent rest
      else if test stop_share line then []
      else if test stop_menu line then []
      else line :: content_lines title date category true rest
  end.

(** The text that the excerpt is cut from. *)
Definition full_text (bodyText title date category : string) : string :=
  let lines :=
    Text.nonempty (map Str.trim (Text.split Text.newline bodyText)) in
  Text.join " " (content_lines title date category false lines).

Definition excerpt_of (bodyText title date category : string) : string :=
  if Str.is_empty bodyText then ""
  else
    let fullText := full_text bodyText title date category in
    let excerpt := Str.trim (Text.take 200 fullText) in
    if Nat.ltb 200 (String.length fullText) then
      let excerpt :=
        match Str.lastIndexOf " " excerpt with
        | Some lastSpace =>
            if Nat.ltb 150 lastSpace then Text.take lastSpace excerpt
            else excerpt
        | None => excerpt
        end in
      excerpt +:+ "..."
    else excerpt.

(** A record that the scraper wrote: what the scripts read of it. *)
Record scraped : Type := Scraped {
  s_url : string;
  s_meta_title : option string;
  s_meta_ogImage : option string;
  s_body : string;
  s_bodyText : string;
  s_date : string;
  s_author : string;
  s_category : string;
  s_featuredImage : string;
  s_fields : gmap string string
}.

Record article : Type := Article {
  a_slug : string; a_title : string; a_date : string; a_author : string;
  a_category : string; a_featuredImage : string; a_body : string;
  a_excerpt : string
}.

(** The callback of [files.map] in [processNews]. *)
Definition article_of (new_URL : Url.ctor) (file : scraped) : article :=
  let slug := slugFromUrl new_URL (s_url file) in
  let title := extractTitle (s_body file) (s_meta_title file) in
  let category :=
    Str.or_else (Str.or_else (extractCategory (s_body file)) (s_category file)) "" in
  let body := Prepare.cleanNewsBody (s_body file) in
  let author := cleanAuthor (s_author file) in
  let date := Str.or_else (s_date file) "" in
  let featuredImage :=
    Str.or_else (s_featuredImage file) (Extract.or_str (s_meta_ogImage file) "") in
  Article slug title date author category featuredImage body
    (excerpt_of (s_bodyText file) title date category).

(** *** Scholarships *)

Record scholarship : Type := Scholarship {
  slug : string; name : string; eligibility : list string; amount : string;
  renewable : Prepare.renewable_t; deadline : string;
  requirements : list string; description : string
}.

(** [fields.k] in a condition, and its value. *)
Definition field (fields : gmap string string) (k : string) : string :=
  default "" (fields !! k).

(** The callback of [files.map] in [processScholarships].  When the parser
    gave [{}], [parsed.renewable] is [undefined] and reading [details] of
    it raises. *)
Definition scholarship_of (new_URL : Url.ctor) (file : scraped)
    : Extract.outcome scholarship :=
  let slug := slugFromUrl new_URL (s_url file) in
  let name := extractTitle (s_body file) (s_meta_title file) in
  let parsed := Prepare.parseScholarshipFields (s_body file) in
  let cleanedBody := Prepare.cleanScholarshipBody (s_body file) in
  let fields := s_fields file in
  match parsed with
  | Prepare.EmptyObject => Extract.Thrown "TypeError"
  | Prepare.Parsed p =>
      let eligibility :=
        if (Nat.eqb (length (Prepare.eligibility p)) 0
            && negb (Str.is_empty (field fields "eligibility")))%bool
        then Text.nonempty
               (map Str.trim (Text.split ";" (field fields "eligibility")))
        else Prepare.eligibility p in
      let amount :=
        if (Str.is_empty (Prepare.amount p)
            && negb (Str.is_empty (field fields "amount"))
            && negb (test (Prepare.label_head ["Renewable"; "Deadline"])
                          (field fields "amount")))%bool
        then Str.trim
               (remove_at_end
                  (Prepare.trailing_label
                     ["Renewable"; "Deadline"; "Requirements"; "Apply"])
                  (field fields "amount"))
        else Prepare.amount p in
      let renewable :=
        if (Str.is_empty (Prepare.details (Prepare.renewable p))
            && negb (Str.is_empty (field fields "renewable"))
            && negb (test (Prepare.label_head ["Deadline"])
                          (field fields "renewable")))%bool
        then
          let cleanedRenewable :=
            Str.trim
              (remove_at_end
                 (Prepare.trailing_label ["Deadline"; "Requirements"; "Apply"])
                 (field fields "renewable")) in
          Prepare.Renewable
            (test (JsRe true (lit_ci "yes") false) cleanedRenewable)
            cleanedRenewable
        else Prepare.renewable p in
      let deadline :=
        if (Str.is_empty (Prepare.deadline p)
            && negb (Str.is_empty (field fields "deadline")))%bool
        then field fields "deadline"
        else Prepare.deadline p in
      let requirements :=
        if (Nat.eqb (length (Prepare.requirements p)) 0
            && negb (Str.is_empty (field fields "requirements")))%bool
        then Text.nonempty
               (map (fun s => Text.strip_trailing_dot (Str.trim s))
                    (Text.split_sentences (field fields "requirements")))
        else Prepare.requirements p in
      let description := Str.or_else (Prepare.description p) cleanedBody in
      Extract.Returned
        (Scholarship slug name eligibility (Str.or_else amount "") renewable
           (Str.or_else deadline "") requirements description)
  end.

(** [files.map(callback)] of [processScholarships], before the sort. *)
Definition scholarships_of (new_URL : Url.ctor) (files : list scraped)
    : Extract.outcome (list scholarship) :=
  Extract.each (scholarship_of new_URL) files.

End Content.

(* ===================================================================== *)
(** ** The image downloader and the uploader *)
(* ===================================================================== *)

Module Images.

(** [s.replace(/\//g, '__')] *)
Fixpoint slashes_to_underscores (s : string) : string :=
  match s with
  | "" => ""
  | String c s' =>
      if Ascii.eqb c "/" then String "_" (String "_" (slashes_to_underscores s'))
      else String c (slashes_to_underscores s')
  end.

Section Download.

Variable new_URL : Url.ctor.
(** [path.extname] of the platform. *)
Variable extname : string -> string.

(** [sanitizeFilename]; a URL that does not parse goes to the [catch]. *)
Definition sanitizeFilename (url : string) : string :=
  match new_URL url None with
  | Some parsed =>
      let name :=
        slashes_to_underscores (Str.strip_leading_slash (Url.pathname parsed)) in
      let name :=
        if Nat.ltb 200 (String.length name)
        then Text.take 190 name +:+ extname name
        else name in
      Str.or_else name "unknown"
  | None => "unknown"
  end.

End Download.

(** An [extname] for examples: from the last full stop of a name without
    slashes on, and nothing when the name has none, only starts with it, or
    is two full stops. *)
Fixpoint from_last_dot (s : string) : option string :=
  match s with
  | "" => None
  | String c s' =>
      match from_last_dot s' with
      | Some e => Some e
      | None => if Ascii.eqb c "." then Some s else None
      end
  end.

Definition extname (name : string) : string :=
  match name with
  | "" => ""
  | String c s' =>
      if String.eqb name ".." then "" else default "" (from_last_dot s')
  end.

(** A [basename] for examples: what follows the last slash of a path that
    does not end with one. *)
Fixpoint basename (path : string) : string :=
  match path with
  | "" => ""
  | String c s' =>
      if Str.contains_char "/" s' then basename s'
      else if Ascii.eqb c "/" then s' else path
  end.

End Images.

Module Upload.

Definition MIME_TYPES : list (string * string) :=
  [ (".jpg", "image/jpeg"); (".jpeg", "image/jpeg"); (".png", "image/png");
    (".gif", "image/gif"); (".svg", "image/svg+xml"); (".webp", "image/webp");
    (".ico", "image/x-icon"); (".avif", "image/avif") ].

(** The counters of [run] and the map of what is uploaded. *)
Record tally : Type := Tally {
  r2Map : gmap string string;
  uploaded : nat;
  skipped : nat;
  failed : nat
}.

Section Run.

(** [path.extname] and [path.basename] of the platform. *)
Variable extname : string -> string.
Variable basename : string -> string.
(** Whether the file of a local path is there. *)
Variable pathExists : string -> bool.
(** Whether the upload command of an entry returns; it raises otherwise.
    Its arguments are the URL of the entry, the key and the content type. *)
Variable put : string -> string -> string -> bool.
(** Whether the save of the map made after every tenth upload returns; it
    raises otherwise.  Its arguments are the number uploaded so far and the
    map. *)
Variable writeJson : nat -> gmap string string -> bool.

(** [getMimeType]; an extension is empty or starts with a full stop, so no
    inherited property of the table is read. *)
Definition getMimeType (filePath : string) : string :=
  let ext := Prepare.toLowerCase (extname filePath) in
  Extract.or_str (Dom.attr ext MIME_TYPES) "application/octet-stream".

(** One turn of the [for] loop over the entries of the image map.  The
    save after every tenth upload stands in the [try] of the upload: when
    it raises, the entry, already in the map and counted as uploaded, is
    counted as failed too. *)
Definition upload_entry (t : tally) (entry : string * string) : tally :=
  let (originalUrl, localPath) := entry in
  if Obj.truthy_at (r2Map t) originalUrl then
    Tally (r2Map t) (uploaded t) (S (skipped t)) (failed t)
  else if negb (pathExists localPath) then
    Tally (r2Map t) (uploaded t) (skipped t) (S (failed t))
  else
    let r2Key := "images/" +:+ basename localPath in
    let contentType := getMimeType localPath in
    if put originalUrl r2Key contentType then
      let r2Map' := <[originalUrl := r2Key]> (r2Map t) in
      let uploaded' := S (uploaded t) in
      if (Nat.eqb (uploaded' mod 10) 0 && negb (writeJson uploaded' r2Map'))%bool
      then Tally r2Map' uploaded' (skipped t) (S (failed t))
      else Tally r2Map' uploaded' (skipped t) (failed t)
    else Tally (r2Map t) (uploaded t) (skipped t) (S (failed t)).

(** The loop of [run], from the map that an earlier run left. *)
Definition run (entries : list (string * string)) (r2Map0 : gmap string string)
    : tally :=
  fold_left upload_entry entries (Tally r2Map0 0 0 0).

End Run.

End Upload.

(* ===================================================================== *)
(** ** Shapes of paths *)
(* ===================================================================== *)

Module Shape.

(** [p] is [prefix] and one more segment: [/news/gala-recap] for [/news/]. *)
Definition item_path (prefix p : string) : Prop :=
  exists seg,
    p = prefix +:+ seg /\ seg <> "" /\ Str.contains_char "/" seg = false.

End Shape.

(* ===================================================================== *)
(** ** What a crawl leaves behind *)
(* ===================================================================== *)

Module CrawlLog.

Import Crawl.

(** The extensions of the denylist of [normalizeUrl]. *)
Definition denied : list string :=
  [ "pdf"; "xls"; "xlsx"; "doc"; "docx"; "zip"; "png"; "jpg"; "jpeg"; "gif";
    "svg"; "webp"; "mp4"; "mp3" ].

(** [p] ends with a full stop and a denied extension, in any case. *)
Definition ends_denied (p : string) : Prop :=
  exists stem ext, p = stem +:+ "." +:+ ext /\ In (Str.lower_s ext) denied.

Definition url_of (e : string * string * string) : string := e.1.1.
Definition type_of (e : string * string * string) : string := e.1.2.

(** What the discovery of links does to a state: it pushes URLs, and
    leaves the rest of the state as it is. *)
Definition only_pushes (st st' : state) : Prop :=
  visited st' = visited st /\ count st' = count st
  /\ marked st' = marked st /\ fetched st' = fetched st
  /\ allUrls st' = allUrls st /\ written st' = written st
  /\ exists more,
       queue st' = (queue st ++ more)%list
       /\ pushed st' = (pushed st ++ more)%list.

Section Log.

Variable new_URL : Url.ctor.

(** The file that the loop writes for an entry of the site map. *)
Definition file_of (e : string * string * string) (w : string * string) : Prop :=
  w.1 = Classify.getOutputDir (type_of e)
  /\ Url.slugFromUrl new_URL (url_of e) = Some w.2.

Record kept (st : state) : Prop := Kept {
  kept_pushed : forall u, u ∈ pushed st ->
      exists href, Url.normalizeUrl new_URL href = Some u;
  kept_order : exists shifted,
      pushed st = (shifted ++ queue st)%list /\ sublist (marked st) shifted;
  kept_sitemap : sublist (map url_of (allUrls st)) (marked st);
  kept_types : forall e, e ∈ allUrls st ->
      type_of e = Classify.classifyPage new_URL (url_of e);
  kept_written : Forall2 file_of (allUrls st) (written st)
}.

End Log.

End CrawlLog.

(* ===================================================================== *)
(** * Facts about strings *)
(* ===================================================================== *)

Lemma or_else_not_empty a b : b <> "" -> Str.or_else a b <> "".
Proof.
  unfold Str.or_else. destruct a; simpl; [auto | discriminate].
Qed.

Lemma strip_trailing_slash_app q : Str.strip_trailing_slash (q +:+ "/") = q.
Proof.
  induction q as [|c q IH]; [reflexivity|].
  change (String c q +:+ "/") with (String c (q +:+ "/")).
  cbn [Str.strip_trailing_slash]. rewrite IH.
  destruct q; reflexivity.
Qed.

Lemma strip_trailing_slash_id s :
  (forall q, s <> q +:+ "/") -> Str.strip_trailing_slash s = s.
Proof.
  induction s as [|c s IH]; intros H; simpl; [reflexivity|].
  destruct s as [|d s].
  - simpl. destruct (Ascii.eqb_spec c "/") as [->|_]; [|reflexivity].
    exfalso. apply (H ""). reflexivity.
  - cbn [Str.strip_trailing_slash Str.is_empty andb]. f_equal. apply IH.
    intros q Hq. apply (H (String c q)). simpl. rewrite Hq. reflexivity.
Qed.

Lemma slashes_to_dashes_no_slash s :
  Str.contains_char "/" (Str.slashes_to_dashes s) = false.
Proof.
  induction s as [|c s IH]; [reflexivity|].
  cbn [Str.slashes_to_dashes]. destruct (Ascii.eqb c "/") eqn:E.
  - cbn [Str.contains_char]. rewrite IH. reflexivity.
  - cbn [Str.contains_char]. rewrite IH, Ascii.eqb_sym, E. reflexivity.
Qed.

(* ===================================================================== *)
(** * The URL normaliser and the storage key *)
(* ===================================================================== *)

(** What the normaliser builds: the path without one trailing slash, [/]
    when nothing is left. *)
Lemma normalizeParsed_shape u out :
  Url.normalizeParsed u = Some out ->
  out = Url.origin u +:+ Str.or_else (Str.strip_trailing_slash (Url.pathname u)) "/".
Proof.
  unfold Url.normalizeParsed. simpl.
  destruct (_ && _)%bool; [discriminate|].
  destruct (Regex.test _ _); [discriminate|].
  intros [= <-]. reflexivity.
Qed.

(** C2, as the specification states it, fails: the link
    [/about/news/?page=2#top] is accepted and its query string is not kept. *)
Lemma C2_query_string_is_dropped :
  Url.path_ctor "/about/news/?page=2#top" (Some Url.BASE_URL)
    = Some (Url.MkURL "https://www.thcf.org" "www.thcf.org" "/about/news/"
              "?page=2" "#top")
  /\ Url.normalizeUrl Url.path_ctor "/about/news/?page=2#top"
     = Some "https://www.thcf.org/about/news"
  /\ "https://www.thcf.org/about/news"
     <> "https://www.thcf.org" +:+ "/about/news" +:+ "?page=2"
  /\ Str.includes "?page=2" "https://www.thcf.org/about/news" = false.
Proof. repeat split; try reflexivity. discriminate. Qed.

(** C2, amended: an accepted link is rewritten to the origin followed by
    the path, without its fragment and without its query string; one
    trailing slash of the path is removed, and an empty rest becomes [/]. *)
Theorem C2_normalizeUrl_canonical (new_URL : Url.ctor) (href out : string) (u : Url.URL) :
  new_URL href (Some Url.BASE_URL) = Some u ->
  Url.normalizeUrl new_URL href = Some out ->
  exists p, out = Url.origin u +:+ p
    /\ (Url.pathname u = "/" \/ Url.pathname u = "" -> p = "/")
    /\ (forall q, Url.pathname u = q +:+ "/" -> q <> "" -> p = q)
    /\ ((forall q, Url.pathname u <> q +:+ "/") -> Url.pathname u <> "" ->
        p = Url.pathname u)
    /\ (forall u', Url.origin u' = Url.origin u ->
                   Url.hostname u' = Url.hostname u ->
                   Url.pathname u' = Url.pathname u ->
                   Url.normalizeParsed u' = Some out).
Proof.
  intros Hu Hn. unfold Url.normalizeUrl in Hn. rewrite Hu in Hn.
  pose proof (normalizeParsed_shape _ _ Hn) as ->.
  eexists; split; [reflexivity|]. repeat split.
  - intros [-> | ->]; reflexivity.
  - intros q -> Hq. rewrite strip_trailing_slash_app.
    destruct q; [congruence | reflexivity].
  - intros Hns Hne. rewrite strip_trailing_slash_id by exact Hns.
    destruct (Url.pathname u); [congruence | reflexivity].
  - intros u' Ho Hh Hp. revert Hn. unfold Url.normalizeParsed. simpl.
    rewrite Ho, Hh, Hp. auto.
Qed.

Lemma C2_normalizeUrl_canonical_witness :
  exists p, "https://www.thcf.org/about/news" = "https://www.thcf.org" +:+ p
    /\ p = "/about/news".
Proof.
  destruct (C2_normalizeUrl_canonical Url.path_ctor "/about/news/?page=2#top"
              "https://www.thcf.org/about/news"
              (Url.MkURL "https://www.thcf.org" "www.thcf.org" "/about/news/"
                 "?page=2" "#top") eq_refl eq_refl)
    as (p & Hp & _ & Hq & _).
  exists p. split; [exact Hp|].
  apply (Hq "/about/news"); [reflexivity | discriminate].
Defined.

(** C10: the storage key of a parsed URL is not empty and holds no [/];
    the root path gives [index]. *)
Theorem C10_slugFromUrl_well_formed (new_URL : Url.ctor) (url : string) (u : Url.URL) :
  new_URL url None = Some u ->
  exists slug, Url.slugFromUrl new_URL url = Some slug
    /\ slug <> ""
    /\ Str.contains_char "/" slug = false
    /\ (Url.pathname u = "/" -> slug = "index")
    /\ (slug = "index" \/
        slug = Str.slashes_to_dashes
                 (Str.strip_leading_slash (Str.strip_trailing_slash (Url.pathname u)))).
Proof.
  intros Hu. unfold Url.slugFromUrl. rewrite Hu.
  eexists; split; [reflexivity|]. unfold Url.slug_of_pathname.
  repeat split.
  - apply or_else_not_empty. discriminate.
  - unfold Str.or_else at 1.
    destruct (Str.is_empty (Str.slashes_to_dashes _)); [reflexivity|].
    apply slashes_to_dashes_no_slash.
  - intros ->. reflexivity.
  - unfold Str.or_else.
    destruct (Str.strip_trailing_slash (Url.pathname u)) eqn:E; simpl; [left; reflexivity|].
    match goal with |- context [Str.is_empty ?x] => destruct x eqn:E2 end; simpl;
      [left; reflexivity | right; reflexivity].
Qed.

Lemma C10_slugFromUrl_well_formed_witness :
  exists slug,
    Url.slugFromUrl Url.path_ctor "https://www.thcf.org/about/news/" = Some slug
    /\ slug = "about--news".
Proof.
  destruct (C10_slugFromUrl_well_formed Url.path_ctor
              "https://www.thcf.org/about/news/"
              (Url.MkURL "https://www.thcf.org" "www.thcf.org" "/about/news/" "" "")
              eq_refl) as (slug & Hs & _).
  exists slug. split; [exact Hs|].
  vm_compute in Hs. injection Hs as <-. reflexivity.
Defined.

(* ===================================================================== *)
(** * The classifier *)
(* ===================================================================== *)

Lemma first_match_skip l1 rest p :
  Forall (fun x => Regex.test (Classify.pattern x) p = false) l1 ->
  Classify.first_match (l1 ++ rest)%list p = Classify.first_match rest p.
Proof.
  induction 1 as [|x l1 Hx _ IH]; [reflexivity|].
  cbn [app Classify.first_match]. rewrite Hx. exact IH.
Qed.

Lemma first_match_wins l1 r l2 p :
  Forall (fun x => Regex.test (Classify.pattern x) p = false) l1 ->
  Regex.test (Classify.pattern r) p = true ->
  Classify.first_match (l1 ++ r :: l2)%list p = Classify.type r.
Proof.
  intros H1 Hr. rewrite first_match_skip by exact H1.
  cbn [Classify.first_match]. rewrite Hr. reflexivity.
Qed.

Lemma first_match_default rules p :
  Forall (fun x => Regex.test (Classify.pattern x) p = false) rules ->
  Classify.first_match rules p = "page".
Proof.
  intros H. rewrite <- (app_nil_r rules). rewrite first_match_skip by exact H.
  reflexivity.
Qed.

Lemma pathname_of_parsed new_URL url u :
  new_URL url None = Some u ->
  Classify.pathname_of new_URL url
  = Str.or_else (Str.strip_trailing_slash (Url.pathname u)) "/".
Proof. intros H. unfold Classify.pathname_of. rewrite H. reflexivity. Qed.

(** C3: the rules are tried in order and the first one that matches gives
    the type; a path that no rule matches is a [page]; a URL whose path is
    [/news/my-article] is [news], one whose path is [/about/news] is
    [news-listing]. *)
Theorem C3_classifyPage_first_match_wins (new_URL : Url.ctor) (url : string) (u : Url.URL) :
  new_URL url None = Some u ->
  (forall l1 r l2,
      Classify.PATTERNS = (l1 ++ r :: l2)%list ->
      Forall (fun x => Regex.test (Classify.pattern x)
                         (Classify.pathname_of new_URL url) = false) l1 ->
      Regex.test (Classify.pattern r) (Classify.pathname_of new_URL url) = true ->
      Classify.classifyPage new_URL url = Classify.type r)
  /\ (Forall (fun x => Regex.test (Classify.pattern x)
                         (Classify.pathname_of new_URL url) = false)
             Classify.PATTERNS ->
      Classify.classifyPage new_URL url = "page")
  /\ (Url.pathname u = "/news/my-article" ->
      Classify.classifyPage new_URL url = "news")
  /\ (Url.pathname u = "/about/news" ->
      Classify.classifyPage new_URL url = "news-listing").
Proof.
  intros Hu. unfold Classify.classifyPage. repeat split.
  - intros l1 r l2 -> H1 Hr. apply first_match_wins; assumption.
  - apply first_match_default.
  - intros Hp. rewrite (pathname_of_parsed _ _ _ Hu), Hp. reflexivity.
  - intros Hp. rewrite (pathname_of_parsed _ _ _ Hu), Hp. reflexivity.
Qed.

Lemma C3_classifyPage_first_match_wins_witness :
  Classify.classifyPage Url.path_ctor "https://www.thcf.org/news/my-article" = "news"
  /\ Classify.classifyPage Url.path_ctor
       "https://www.thcf.org/students/scholarships/scholarship-directory"
     = "scholarship-listing".
Proof.
  split.
  - apply (C3_classifyPage_first_match_wins Url.path_ctor
             "https://www.thcf.org/news/my-article"
             (Url.MkURL "https://www.thcf.org" "www.thcf.org" "/news/my-article" "" "")
             eq_refl).
    reflexivity.
  - apply (proj1 (C3_classifyPage_first_match_wins Url.path_ctor
             "https://www.thcf.org/students/scholarships/scholarship-directory"
             (Url.MkURL "https://www.thcf.org" "www.thcf.org"
                "/students/scholarships/scholarship-directory" "" "")
             eq_refl)
           (firstn 3 Classify.PATTERNS) (nth 3 Classify.PATTERNS (Classify.Rule (Regex.JsRe true Regex.Eps true) ""))
           (skipn 4 Classify.PATTERNS) eq_refl).
    + repeat constructor.
    + reflexivity.
Defined.

(* ===================================================================== *)
(** * The crawl scheduler *)
(* ===================================================================== *)

Lemma append_not_empty a b : b <> "" -> a +:+ b <> "".
Proof. destruct a; simpl; [auto | discriminate]. Qed.

Lemma normalizeUrl_not_empty new_URL href n :
  Url.normalizeUrl new_URL href = Some n -> Str.is_empty n = false.
Proof.
  unfold Url.normalizeUrl. destruct (new_URL _ _); [|discriminate].
  intros H%normalizeParsed_shape.
  assert (n <> "") as Hn.
  { rewrite H. apply append_not_empty, or_else_not_empty. discriminate. }
  destruct n; [congruence | reflexivity].
Qed.

Section CrawlFacts.

Variable new_URL : Url.ctor.
Variable RESUME : bool.
Variable MAX_PAGES : Crawl.budget.
Variable sitemap : option (list string).
Variable navStructure : list Crawl.nav_item.
Variable open_section : string -> option (list string).
Variable click_page : string -> nat -> Crawl.click.
Variable scrapePage : Z -> string -> option Crawl.page.

Local Abbreviation step := (Crawl.step new_URL MAX_PAGES scrapePage).
Local Abbreviation reaches := (Crawl.reaches new_URL MAX_PAGES scrapePage).
Local Abbreviation frontier :=
  (Crawl.frontier new_URL RESUME sitemap navStructure open_section click_page).
Local Abbreviation setup := (Crawl.setup RESUME sitemap).

Local Abbreviation inv := (Crawl.inv RESUME MAX_PAGES sitemap).
Local Abbreviation resumed := (Crawl.resumed RESUME sitemap).
Local Abbreviation mark := (Crawl.mark scrapePage).

Lemma cap_nonneg b : (0 <= Crawl.cap b)%Z.
Proof. destruct b; simpl; lia. Qed.

Lemma below_cap c b : Crawl.below c b = true -> (c + 1 <= Crawl.cap b)%Z.
Proof.
  destruct b as [n|]; simpl; [|discriminate].
  intros H%Z.ltb_lt. lia.
Qed.

Lemma setup_inv : inv setup.
Proof.
  split; simpl; try (constructor; fail); try reflexivity;
    try apply cap_nonneg.
  - intros u. set_solver.
  - exists []. split; [reflexivity|]. intros u Hu. inversion Hu.
  - intros u. unfold Crawl.resumed. set_solver.
  - intros u Hu. inversion Hu.
Qed.

Lemma push_inv u st : inv st -> u ∉ Crawl.seenInQueue st -> inv (Crawl.push u st).
Proof.
  intros [Hp Hs [sh [Hq Hsh]] Hm Hv Hf Hfe Hc Hb] Hu.
  split; simpl; try assumption.
  - apply NoDup_app. split; [assumption|]. split.
    + intros x Hx Hx'. apply list_elem_of_singleton in Hx'. subst x.
      apply Hu, Hs, Hx.
    + apply NoDup_singleton.
  - intros x. rewrite elem_of_union, elem_of_singleton, elem_of_app,
      list_elem_of_singleton, Hs. tauto.
  - exists sh. split; [|assumption]. rewrite Hq, app_assoc. reflexivity.
Qed.

Lemma enqueue_unvisited_inv href st :
  inv st -> inv (Crawl.enqueue_unvisited new_URL href st).
Proof.
  intros H. unfold Crawl.enqueue_unvisited.
  destruct (Crawl.normalizeUrl new_URL href) as [n|]; [|assumption].
  destruct (negb (Str.is_empty n)); simpl; [|assumption].
  destruct (bool_decide (n ∈ Crawl.visited st)); simpl; [assumption|].
  destruct (bool_decide (n ∈ Crawl.seenInQueue st)) eqn:E; simpl; [assumption|].
  apply push_inv; [assumption|]. apply bool_decide_eq_false in E. exact E.
Qed.

Lemma enqueue_unseen_inv href st :
  inv st -> inv (Crawl.enqueue_unseen new_URL href st).
Proof.
  intros H. unfold Crawl.enqueue_unseen.
  destruct (Crawl.normalizeUrl new_URL href) as [n|]; [|assumption].
  destruct (negb (Str.is_empty n)); simpl; [|assumption].
  destruct (bool_decide (n ∈ Crawl.seenInQueue st)) eqn:E; simpl; [assumption|].
  apply push_inv; [assumption|]. apply bool_decide_eq_false in E. exact E.
Qed.

Lemma enqueue_all_inv f hrefs st :
  (forall href s, inv s -> inv (f href s)) ->
  inv st -> inv (Crawl.enqueue_all f hrefs st).
Proof.
  intros Hf. unfold Crawl.enqueue_all. revert st.
  induction hrefs as [|h hrefs IH]; intros st H; simpl; [assumption|].
  apply IH, Hf, H.
Qed.

Lemma click_through_inv section pageNums st :
  inv st -> inv (Crawl.click_through new_URL click_page section pageNums st).
Proof.
  revert st. induction pageNums as [|n l IH]; intros st H; simpl; [assumption|].
  destruct (click_page section n); try assumption.
  apply IH, enqueue_all_inv; [apply enqueue_unseen_inv | assumption].
Qed.

Lemma frontier_inv : inv frontier.
Proof.
  unfold Crawl.frontier, Crawl.discover, Crawl.add_nav, Crawl.seed.
  assert (forall l st, inv st ->
            inv (fold_left (Crawl.paginate new_URL open_section click_page) l st))
    as Hd.
  { induction l as [|s l IH]; intros st H; simpl; [assumption|].
    apply IH. unfold Crawl.paginate. destruct (open_section s); [|assumption].
    apply click_through_inv, enqueue_all_inv;
      [apply enqueue_unseen_inv | assumption]. }
  assert (forall l st, inv st -> inv (fold_left (Crawl.add_nav_item new_URL) l st))
    as Hn.
  { induction l as [|i l IH]; intros st H; simpl; [assumption|].
    apply IH. unfold Crawl.add_nav_item.
    apply enqueue_all_inv; [apply enqueue_unvisited_inv|].
    apply enqueue_unvisited_inv, H. }
  apply Hd, Hn, enqueue_all_inv; [apply enqueue_unvisited_inv | apply setup_inv].
Qed.

Lemma mark_inv url rest st :
  inv st -> Crawl.queue st = url :: rest -> url ∉ Crawl.visited st ->
  Crawl.below (Crawl.count st) MAX_PAGES = true ->
  inv (mark url rest st).
Proof.
  intros [Hp Hs [sh [Hq Hsh]] Hm Hv Hf Hfe Hc Hb] Hqu Hu Hlt%below_cap.
  split; simpl; try assumption.
  - exists (sh ++ [url])%list. split.
    + rewrite Hq, Hqu, <- app_assoc. reflexivity.
    + intros x [Hx|Hx]%elem_of_app; [set_solver|].
      apply list_elem_of_singleton in Hx. set_solver.
  - apply NoDup_app. split; [assumption|]. split; [|apply NoDup_singleton].
    intros x Hx Hx'. apply list_elem_of_singleton in Hx'. subst x.
    apply Hu, Hv. right. exact Hx.
  - intros x. rewrite elem_of_union, elem_of_singleton, elem_of_app,
      list_elem_of_singleton, Hv. tauto.
  - intros x [Hx|Hx]%elem_of_app; [auto|].
    apply list_elem_of_singleton in Hx. subst x.
    intros Hr. apply Hu, Hv. left. exact Hr.
  - rewrite Hfe. reflexivity.
  - rewrite length_app, Hc. simpl. lia.
Qed.

Lemma harvest_inv url result slug st :
  inv st -> inv (Crawl.harvest new_URL url result slug st).
Proof.
  intros H.
  pose proof (enqueue_all_inv (Crawl.enqueue_unvisited new_URL)
                (Crawl.p_links result) st enqueue_unvisited_inv H) as [].
  split; simpl; assumption.
Qed.

(** The three ways a turn of the loop can go on. *)
Lemma step_cases st st' :
  step st = Crawl.Next st' \/ step st = Crawl.Throw st' ->
  exists url rest,
    Crawl.queue st = url :: rest
    /\ Crawl.below (Crawl.count st) MAX_PAGES = true /\
    ((url ∈ Crawl.visited st /\ step st = Crawl.Next st' /\
      st' = Crawl.skip rest st)
     \/ ((url ∉ Crawl.visited st) /\
         (((scrapePage (Crawl.count st + 1)%Z url = None) /\
           step st = Crawl.Next st' /\ st' = mark url rest st)
          \/ (exists result slug,
                 scrapePage (Crawl.count st + 1)%Z url = Some result /\
                 Url.slugFromUrl new_URL url = Some slug /\
                 step st = Crawl.Next st' /\
                 st' = Crawl.harvest new_URL url result slug
                         (mark url rest st))
          \/ (exists result,
                 scrapePage (Crawl.count st + 1)%Z url = Some result /\
                 Url.slugFromUrl new_URL url = None /\
                 step st = Crawl.Throw st' /\
                 st' = mark url rest st)))).
Proof.
  unfold Crawl.step.
  destruct (Crawl.queue st) as [|url rest]; [intros [H|H]; discriminate|].
  destruct (Crawl.below (Crawl.count st) MAX_PAGES) eqn:Hlt;
    [|intros [H|H]; discriminate].
  intros H. exists url, rest. split; [reflexivity|]. split; [reflexivity|].
  destruct (bool_decide (url ∈ Crawl.visited st)) eqn:E.
  - apply bool_decide_eq_true in E. left.
    destruct H as [H|H]; [|discriminate]. injection H as <-. auto.
  - apply bool_decide_eq_false in E. right. split; [assumption|].
    destruct (scrapePage (Crawl.count st + 1)%Z url) as [result|] eqn:Es.
    + destruct (Url.slugFromUrl new_URL url) as [slug|] eqn:El.
      * right. left. exists result, slug.
        destruct H as [H|H]; [|discriminate]. injection H as <-. auto.
      * right. right. exists result.
        destruct H as [H|H]; [discriminate|]. injection H as <-. auto.
    + left. destruct H as [H|H]; [|discriminate]. injection H as <-. auto.
Qed.

Lemma step_inv st st' :
  inv st -> step st = Crawl.Next st' \/ step st = Crawl.Throw st' -> inv st'.
Proof.
  intros H Hs.
  destruct (step_cases st st' Hs) as (url & rest & Hq & Hlt & Hc).
  destruct Hc as [(Hv & _ & ->) | (Hv & [(_ & _ & ->) |
                   [(r & sl & _ & _ & _ & ->) | (r & _ & _ & _ & ->)]])].
  - destruct H as [Hp Hse [sh [Hpq Hsh]] Hm Hvi Hf Hfe Hc Hb].
    split; simpl; try assumption.
    exists (sh ++ [url])%list. split.
    + rewrite Hpq, Hq, <- app_assoc. reflexivity.
    + intros x [Hx|Hx]%elem_of_app; [auto|].
      apply list_elem_of_singleton in Hx. subst x. exact Hv.
  - apply mark_inv; assumption.
  - apply harvest_inv, mark_inv; assumption.
  - apply mark_inv; assumption.
Qed.

Lemma reaches_inv st st' : inv st -> reaches st st' -> inv st'.
Proof.
  intros H Hr. induction Hr as [st | st st1 st' Hs _ IH | st st1 Hs].
  - assumption.
  - apply IH. apply (step_inv st); auto.
  - apply (step_inv st); auto.
Qed.

(** *** The gates of the enqueue *)

Lemma enqueue_unvisited_gate href n st :
  Crawl.normalizeUrl new_URL href = Some n ->
  n ∈ Crawl.visited st \/ n ∈ Crawl.seenInQueue st ->
  Crawl.enqueue_unvisited new_URL href st = st.
Proof.
  intros Hn H. unfold Crawl.enqueue_unvisited. rewrite Hn.
  destruct H as [H|H].
  - rewrite (bool_decide_eq_true_2 _ H), andb_false_r. reflexivity.
  - rewrite (bool_decide_eq_true_2 _ H), andb_false_r. reflexivity.
Qed.

Lemma enqueue_unseen_gate href n st :
  Crawl.normalizeUrl new_URL href = Some n ->
  n ∈ Crawl.seenInQueue st ->
  Crawl.enqueue_unseen new_URL href st = st.
Proof.
  intros Hn H. unfold Crawl.enqueue_unseen. rewrite Hn.
  rewrite (bool_decide_eq_true_2 _ H), andb_false_r. reflexivity.
Qed.

(** An enqueue leaves [visited] alone and only adds to [seenInQueue]. *)
Lemma enqueue_unvisited_frame href st :
  Crawl.visited (Crawl.enqueue_unvisited new_URL href st) = Crawl.visited st
  /\ Crawl.seenInQueue st ⊆ Crawl.seenInQueue (Crawl.enqueue_unvisited new_URL href st)
  /\ forall n, Crawl.normalizeUrl new_URL href = Some n ->
       n ∈ Crawl.visited st
       \/ n ∈ Crawl.seenInQueue (Crawl.enqueue_unvisited new_URL href st).
Proof.
  unfold Crawl.enqueue_unvisited.
  destruct (Crawl.normalizeUrl new_URL href) as [n|] eqn:Hn;
    [|repeat split; [set_solver | discriminate]].
  rewrite (normalizeUrl_not_empty _ _ _ Hn). simpl.
  destruct (bool_decide (n ∈ Crawl.visited st)) eqn:Ev; simpl.
  { apply bool_decide_eq_true in Ev. repeat split; [set_solver|].
    intros ? [= <-]. left. exact Ev. }
  destruct (bool_decide (n ∈ Crawl.seenInQueue st)) eqn:Es; simpl.
  { apply bool_decide_eq_true in Es. repeat split; [set_solver|].
    intros ? [= <-]. right. exact Es. }
  repeat split; [set_solver|]. intros ? [= <-]. right. set_solver.
Qed.

Lemma enqueue_all_unvisited_frame hrefs st :
  let st' := Crawl.enqueue_all (Crawl.enqueue_unvisited new_URL) hrefs st in
  Crawl.visited st' = Crawl.visited st
  /\ Crawl.seenInQueue st ⊆ Crawl.seenInQueue st'
  /\ forall href n, href ∈ hrefs -> Crawl.normalizeUrl new_URL href = Some n ->
       n ∈ Crawl.visited st \/ n ∈ Crawl.seenInQueue st'.
Proof.
  unfold Crawl.enqueue_all. revert st.
  induction hrefs as [|h hrefs IH]; intros st; simpl.
  { repeat split; [set_solver|]. intros ? ? H. inversion H. }
  destruct (enqueue_unvisited_frame h st) as (Hv & Hs & Hc).
  destruct (IH (Crawl.enqueue_unvisited new_URL h st)) as (Hv' & Hs' & Hc').
  repeat split.
  - congruence.
  - set_solver.
  - intros href n [->|Hin]%elem_of_cons Hn.
    + destruct (Hc n Hn) as [?|?]; [left; assumption | right; set_solver].
    + rewrite <- Hv. eapply Hc'; eassumption.
Qed.

Lemma enqueue_all_unvisited_count hrefs st :
  Crawl.count (Crawl.enqueue_all (Crawl.enqueue_unvisited new_URL) hrefs st)
  = Crawl.count st.
Proof.
  unfold Crawl.enqueue_all. revert st.
  induction hrefs as [|h hrefs IH]; intros st; simpl; [reflexivity|].
  rewrite IH. unfold Crawl.enqueue_unvisited.
  destruct (Crawl.normalizeUrl new_URL h); [|reflexivity].
  destruct (_ && _)%bool; reflexivity.
Qed.

(** *** The end of the loop *)

Lemma step_exit_iff st :
  step st = Crawl.Exit <->
  Crawl.queue st = [] \/ Crawl.below (Crawl.count st) MAX_PAGES = false.
Proof.
  unfold Crawl.step. destruct (Crawl.queue st) as [|url rest].
  { split; auto. }
  destruct (Crawl.below (Crawl.count st) MAX_PAGES) eqn:Hlt.
  - split.
    + destruct (bool_decide _); [discriminate|].
      destruct (scrapePage _ _); [|discriminate].
      destruct (Url.slugFromUrl _ _); discriminate.
    + intros [H|H]; discriminate.
  - split; auto.
Qed.

Lemma below_false_cap c b :
  (Crawl.cap b <= c)%Z -> Crawl.below c b = false.
Proof.
  destruct b as [n|]; simpl; [|reflexivity].
  intros H. apply Z.ltb_ge. lia.
Qed.

Lemma loop_next fuel st st1 :
  step st = Crawl.Next st1 ->
  Crawl.loop new_URL MAX_PAGES scrapePage (S fuel) st
  = Crawl.loop new_URL MAX_PAGES scrapePage fuel st1.
Proof. intros H. simpl. rewrite H. reflexivity. Qed.

(** The loop ends from every state: a turn either shortens the queue and
    keeps the count, or adds one to a count that stays below the budget. *)
Lemma loop_terminates st :
  exists fuel e st',
    Crawl.loop new_URL MAX_PAGES scrapePage fuel st = Some (e, st')
    /\ reaches st st'
    /\ (e = Crawl.Finished -> step st' = Crawl.Exit).
Proof.
  remember (Z.to_nat (Crawl.cap MAX_PAGES - Crawl.count st)) as b eqn:Hb.
  assert (Z.to_nat (Crawl.cap MAX_PAGES - Crawl.count st) <= b) as Hle by lia.
  clear Hb. revert st Hle.
  induction b as [|b IHb]; intros st Hle.
  - exists 1, Crawl.Finished, st.
    assert (step st = Crawl.Exit) as He
      by (apply step_exit_iff; right; apply below_false_cap; lia).
    simpl. rewrite He. split; [reflexivity|]. split; [constructor | auto].
  - remember (length (Crawl.queue st)) as k eqn:Hk.
    assert (length (Crawl.queue st) <= k) as Hlk by lia. clear Hk.
    revert st Hle Hlk. induction k as [|k IHk]; intros st Hle Hlk.
    + exists 1, Crawl.Finished, st.
      assert (step st = Crawl.Exit) as He.
      { apply step_exit_iff. left. destruct (Crawl.queue st); [reflexivity|].
        simpl in Hlk. lia. }
      simpl. rewrite He. split; [reflexivity|]. split; [constructor | auto].
    + destruct (step st) as [|st1|st1] eqn:Hs.
      * exists 1, Crawl.Finished, st. simpl. rewrite Hs.
        split; [reflexivity|]. split; [constructor | auto].
      * assert (exists fuel e st',
                  Crawl.loop new_URL MAX_PAGES scrapePage fuel st1 = Some (e, st')
                  /\ reaches st1 st'
                  /\ (e = Crawl.Finished -> step st' = Crawl.Exit)) as IH.
        { destruct (step_cases st st1 (or_introl Hs))
            as (url & rest & Hq & Hlt%below_cap & Hc).
          destruct Hc as [(_ & _ & ->) | (_ & [(_ & _ & ->) |
                   [(r & sl & _ & _ & _ & ->) | (r & _ & _ & Hth & _)]])].
          - apply IHk; simpl; [lia|]. rewrite Hq in Hlk. simpl in Hlk. lia.
          - apply IHb. simpl. lia.
          - apply IHb. simpl. rewrite enqueue_all_unvisited_count. simpl. lia.
          - congruence. }
        destruct IH as (fuel & e & st' & Hl & Hr & He).
        exists (S fuel), e, st'. rewrite (loop_next _ _ _ Hs).
        split; [assumption|]. split; [|assumption].
        eapply Crawl.reaches_next; eassumption.
      * exists 1, Crawl.Aborted, st1. simpl. rewrite Hs.
        split; [reflexivity|].
        split; [apply Crawl.reaches_throw; assumption | discriminate].
Qed.

(** C5: in every state of a run the history of [queue.push], the queue
    and the history of [visited.add] hold no URL twice, and no URL of the
    site map of an earlier run is added again; the queue is what is left of
    the pushes, and every URL shifted from it is in [visited]; an enqueue of
    a URL that was already pushed, or of one that the gate finds in
    [visited], changes nothing. *)
Theorem C5_no_url_enqueued_or_visited_twice (st : Crawl.state) :
  reaches frontier st ->
  NoDup (Crawl.pushed st)
  /\ NoDup (Crawl.queue st)
  /\ NoDup (Crawl.marked st)
  /\ (forall u, u ∈ Crawl.marked st -> u ∉ resumed)
  /\ (forall u, u ∈ Crawl.visited st <-> u ∈ resumed \/ u ∈ Crawl.marked st)
  /\ (forall u, u ∈ Crawl.seenInQueue st <-> u ∈ Crawl.pushed st)
  /\ (exists shifted,
        Crawl.pushed st = (shifted ++ Crawl.queue st)%list
        /\ forall u, u ∈ shifted -> u ∈ Crawl.visited st)
  /\ (forall href n,
        Crawl.normalizeUrl new_URL href = Some n ->
        (n ∈ Crawl.seenInQueue st ->
         Crawl.enqueue_unvisited new_URL href st = st
         /\ Crawl.enqueue_unseen new_URL href st = st)
        /\ (n ∈ Crawl.visited st ->
            Crawl.enqueue_unvisited new_URL href st = st)).
Proof.
  intros Hr. destruct (reaches_inv _ _ frontier_inv Hr).
  repeat split; try assumption; try (apply inv_visited; assumption).
  - destruct inv_queue as (sh & E & _). rewrite E in inv_pushed.
    apply NoDup_app in inv_pushed as (_ & _ & H). exact H.
  - apply inv_seen.
  - apply inv_seen.
  - eapply enqueue_unvisited_gate; eauto.
  - eapply enqueue_unseen_gate; eauto.
  - intros. eapply enqueue_unvisited_gate; eauto.
Qed.

(** C6: when the run resumes from a site map, none of its URLs is fetched
    by the loop; a link found on a page that was just fetched is in the
    queue unless it is in [visited]; and a queued URL that is not in
    [visited] is fetched when its turn comes within the budget. *)
Theorem C6_resume_skips_known_urls (existing : list string) (st : Crawl.state) :
  RESUME = true ->
  sitemap = Some existing ->
  reaches frontier st ->
  (forall u, u ∈ existing -> u ∉ Crawl.fetched st)
  /\ (forall st' url rest result link n,
        Crawl.queue st = url :: rest ->
        url ∉ Crawl.visited st ->
        scrapePage (Crawl.count st + 1)%Z url = Some result ->
        step st = Crawl.Next st' ->
        link ∈ Crawl.p_links result ->
        Crawl.normalizeUrl new_URL link = Some n ->
        n ∉ Crawl.visited st' ->
        n ∈ Crawl.queue st')
  /\ (forall url rest,
        Crawl.queue st = url :: rest ->
        url ∉ Crawl.visited st ->
        Crawl.below (Crawl.count st) MAX_PAGES = true ->
        exists st',
          (step st = Crawl.Next st' \/ step st = Crawl.Throw st')
          /\ url ∈ Crawl.fetched st').
Proof.
  intros HR Hmap Hr. pose proof (reaches_inv _ _ frontier_inv Hr) as Hinv.
  split; [|split].
  - intros u Hu Hf. destruct Hinv. rewrite inv_fetched in Hf.
    apply (inv_fresh u Hf). unfold Crawl.resumed, Crawl.setup. simpl.
    rewrite HR, Hmap. apply elem_of_list_to_set. exact Hu.
  - intros st' url rest result link n Hq Hv Hs Hst Hl Hn Hnv.
    assert (inv st') as Hinv' by (apply (step_inv st); auto).
    destruct (step_cases st st' (or_introl Hst)) as (url' & rest' & Hq' & _ & Hc).
    rewrite Hq in Hq'. injection Hq' as <- <-.
    destruct Hc as [(Hv' & _) | (_ & [(Hs' & _) |
                   [(r & sl & Hs' & _ & _ & ->) | (r & _ & _ & Hth & _)]])];
      [contradiction | congruence | | congruence].
    rewrite Hs in Hs'. injection Hs' as <-.
    destruct (enqueue_all_unvisited_frame (Crawl.p_links result) (mark url rest st))
      as (Hvis & _ & Hcov).
    destruct (Hcov link n Hl Hn) as [Hin|Hin].
    + exfalso. apply Hnv. simpl. rewrite Hvis. exact Hin.
    + destruct Hinv' as [_ Hseen [sh [Hpq Hsh]] _ _ _ _ _ _].
      simpl in Hseen, Hpq, Hsh.
      apply Hseen in Hin. rewrite Hpq in Hin.
      apply elem_of_app in Hin as [Hin|Hin]; [|exact Hin].
      exfalso. apply Hnv. simpl. apply Hsh. exact Hin.
  - intros url rest Hq Hv Hlt.
    assert (url ∈ Crawl.fetched (mark url rest st)) as Hf.
    { simpl. apply elem_of_app. right. apply list_elem_of_singleton. reflexivity. }
    unfold Crawl.step. rewrite Hq, Hlt.
    rewrite (bool_decide_eq_false_2 _ Hv).
    destruct (scrapePage (Crawl.count st + 1)%Z url) as [result|].
    + destruct (Url.slugFromUrl new_URL url) as [slug|].
      * eexists. split; [left; reflexivity|]. simpl.
        assert (forall hrefs s,
                  Crawl.fetched (Crawl.enqueue_all (Crawl.enqueue_unvisited new_URL) hrefs s)
                  = Crawl.fetched s) as Hfr.
        { unfold Crawl.enqueue_all. induction hrefs as [|h hrefs IH]; intros s;
            simpl; [reflexivity|]. rewrite IH. unfold Crawl.enqueue_unvisited.
          destruct (Crawl.normalizeUrl new_URL h); [|reflexivity].
          destruct (_ && _)%bool; reflexivity. }
        rewrite Hfr. exact Hf.
      * eexists. split; [right; reflexivity | exact Hf].
    + eexists. split; [left; reflexivity | exact Hf].
Qed.

End CrawlFacts.


Local Abbreviation example_frontier :=
  (Crawl.frontier Url.path_ctor true (Some Example.existing)
     Example.navStructure Example.open_section Example.click_page).

Lemma C5_no_url_enqueued_or_visited_twice_witness :
  NoDup (Crawl.pushed example_frontier)
  /\ NoDup (Crawl.marked example_frontier)
  /\ (forall u, u ∈ Crawl.seenInQueue example_frontier
                <-> u ∈ Crawl.pushed example_frontier).
Proof.
  pose proof (C5_no_url_enqueued_or_visited_twice Url.path_ctor true
                (Crawl.Pages 3)
                (Some Example.existing) Example.navStructure
                Example.open_section Example.click_page Example.scrapePage
                example_frontier (Crawl.reaches_here _ _ _ _)) as H.
  destruct H as (H1 & _ & H2 & _ & _ & H5 & _).
  split; [exact H1|]. split; [exact H2 | exact H5].
Defined.

(* ===================================================================== *)
(** * The cleaners and the parser *)
(* ===================================================================== *)

Import Dom.

(** Induction on a node with the children at hand. *)
Lemma node_rect_kids (P : node -> Prop) :
  (forall s, P (Text s)) ->
  (forall t a ks, Forall P ks -> P (Elem t a ks)) ->
  forall n, P n.
Proof.
  intros HT HE. fix IH 1. intros [s|t a ks]; [apply HT|].
  apply HE. induction ks as [|k ks IHks]; constructor; [apply IH | exact IHks].
Qed.

Lemma elements_at_elem anc rpath i first t a ks :
  elements_at anc rpath i first (Elem t a ks)
  = Located (rev (i :: rpath)) (Here (Elem t a ks) first) anc
    :: elements_of (Here (Elem t a ks) first :: anc) (i :: rpath) ks 0 true.
Proof.
  cbn [elements_at]. f_equal.
  generalize (Here (Elem t a ks) first) as h.
  generalize 0 true. induction ks as [|k ks IH]; intros j fst h; [reflexivity|].
  cbn [elements_of]. rewrite <- IH. reflexivity.
Qed.

Lemma prune_at_elem P anc rpath i first t a ks :
  prune_at P anc rpath i first (Elem t a ks)
  = if P (Located (rev (i :: rpath)) (Here (Elem t a ks) first) anc) then []
    else [Elem t a (prune_of P (Here (Elem t a ks) first :: anc) (i :: rpath)
                      ks 0 true)].
Proof.
  cbn [prune_at]. destruct (P _); [reflexivity|]. do 2 f_equal.
  generalize (Here (Elem t a ks) first) as h.
  generalize 0 true. induction ks as [|k ks IH]; intros j fst h; [reflexivity|].
  cbn [prune_of]. rewrite <- IH. reflexivity.
Qed.

(** The nodes of the elements found do not depend on where the walk is. *)
Lemma elements_of_nodes ks : forall anc rpath j fst,
  map elem (elements_of anc rpath ks j fst) = flat_map subelems ks.
Proof.
  induction ks as [|k ks IH]; intros anc rpath j fst; [reflexivity|].
  cbn [elements_of flat_map]. rewrite map_app, IH. f_equal.
  clear IH. revert anc rpath j fst.
  induction k as [s|t a kids IHk] using node_rect_kids; intros; [reflexivity|].
  rewrite elements_at_elem. cbn [map subelems]. f_equal.
  generalize (Here (Elem t a kids) fst :: anc) (j :: rpath) 0 true.
  induction IHk as [|k' kids' Hk' _ IHkids]; intros anc' rpath' j' fst';
    [reflexivity|].
  cbn [elements_of flat_map]. rewrite map_app, Hk', IHkids. reflexivity.
Qed.

Lemma prune_of_nodes P (q : node -> bool) ks :
  by_tag_attrs q ->
  forall anc rpath j fst,
    Forall (fun n => q n = false) (flat_map subelems ks) ->
    Forall (fun n => q n = false)
      (flat_map subelems (prune_of P anc rpath ks j fst)).
Proof.
  intros Hq. induction ks as [|k ks IH]; intros anc rpath j fst H;
    [constructor|].
  cbn [flat_map] in H. apply Forall_app in H as [Hk Hks].
  cbn [prune_of]. rewrite flat_map_app. apply Forall_app. split; [|apply IH, Hks].
  clear IH Hks. revert anc rpath j fst Hk.
  induction k as [s|t a kids IHk] using node_rect_kids; intros; [constructor|].
  rewrite prune_at_elem. destruct (P _); [constructor|].
  cbn [subelems] in Hk. apply Forall_cons in Hk as [Hq0 Hkids].
  cbn [flat_map subelems]. rewrite app_nil_r. constructor.
  { rewrite <- Hq0. apply Hq. }
  generalize (Here (Elem t a kids) fst :: anc) (j :: rpath) 0 true.
  clear Hq0. induction IHk as [|k' kids' Hk' _ IHkids]; intros; [constructor|].
  cbn [flat_map] in Hkids. apply Forall_app in Hkids as [H1 H2].
  cbn [prune_of]. rewrite flat_map_app. apply Forall_app. split; [apply Hk', H1|].
  apply IHkids, H2.
Qed.

Lemma filter_none {A : Type} (f : A -> bool) (l : list A) :
  filter f l = [] <-> Forall (fun x => f x = false) l.
Proof.
  induction l as [|x l IH]; [split; constructor|].
  rewrite filter_cons. destruct (f x) eqn:E.
  - rewrite decide_True by exact I. split; [discriminate|].
    intros H. apply Forall_cons in H as [H _]. congruence.
  - rewrite decide_False by (intros []). rewrite IH. split.
    + intros H. constructor; assumption.
    + intros H. apply Forall_cons in H as [_ H]. exact H.
Qed.

Lemma sel_tag_class_placeless t c h anc :
  matches (Prepare.sel_tag_class t c) h anc = Prepare.has_tag_class t c (h_node h).
Proof. reflexivity. Qed.

Lemma has_tag_class_by_tag_attrs t c : by_tag_attrs (Prepare.has_tag_class t c).
Proof. intros t' a ks ks'. reflexivity. Qed.

Lemma select_tag_class_nil t c d :
  select (Prepare.sel_tag_class t c) d = []
  <-> Forall (fun n => Prepare.has_tag_class t c n = false) (flat_map subelems d).
Proof.
  unfold select. rewrite filter_none.
  unfold elements. rewrite <- (elements_of_nodes d [] [] 0 true).
  rewrite Forall_map. apply Forall_iff. intros l.
  rewrite sel_tag_class_placeless. reflexivity.
Qed.

Lemma remove_keeps_absent sel t c d :
  select (Prepare.sel_tag_class t c) d = [] ->
  select (Prepare.sel_tag_class t c) (remove sel d) = [].
Proof.
  rewrite !select_tag_class_nil. unfold remove, prune.
  apply prune_of_nodes, has_tag_class_by_tag_attrs.
Qed.

Lemma removes_keeps_absent sels t c d :
  select (Prepare.sel_tag_class t c) d = [] ->
  select (Prepare.sel_tag_class t c) (Prepare.removes sels d) = [].
Proof.
  unfold Prepare.removes. revert d.
  induction sels as [|s sels IH]; intros d H; [exact H|].
  cbn [fold_left]. apply IH, remove_keeps_absent, H.
Qed.

Lemma html_of_absent sel d : select sel d = [] -> Prepare.html_of sel d = None.
Proof.
  intros H. unfold Prepare.html_of, querySelector. rewrite H. reflexivity.
Qed.

(** C1, as the specification states it, fails: the body has no
    [section.main-content], and the parser returns the object [{}]. *)
Lemma C1_parser_returns_empty_object :
  Prepare.parseScholarshipFields Samples.scholarship = Prepare.EmptyObject
  /\ ~ (exists f,
          Prepare.parseScholarshipFields Samples.scholarship = Prepare.Parsed f
          /\ Str.includes "Intro text." (Prepare.description f) = true
          /\ Prepare.eligibility f = ["GPA 3.0"; "Resident"]
          /\ Prepare.amount f = "$1,000"
          /\ Prepare.deadline f = "March 1").
Proof.
  assert (Prepare.parseScholarshipFields Samples.scholarship = Prepare.EmptyObject)
    as H by (vm_compute; reflexivity).
  split; [exact H|]. intros (f & Hf & _). rewrite H in Hf. discriminate.
Qed.

(** C1, amended: a body without a [section.main-content] element gives the
    object [{}]; for the body of the specification inside such a section
    the parser returns a record whose description contains [Intro text.],
    whose eligibility is [GPA 3.0] and [Resident], whose amount is [$1,000]
    and whose deadline is [March 1]. *)
Theorem C1_parseScholarshipFields_in_main_content :
  (forall rawBody,
      select Prepare.section_main_content (Html.load rawBody) = [] ->
      Prepare.parseScholarshipFields rawBody = Prepare.EmptyObject)
  /\ exists f,
      Prepare.parseScholarshipFields Samples.scholarship_in_section
      = Prepare.Parsed f
      /\ Str.includes "Intro text." (Prepare.description f) = true
      /\ Prepare.description f = "<p>Intro text.<br></p>"
      /\ Prepare.eligibility f = ["GPA 3.0"; "Resident"]
      /\ Prepare.amount f = "$1,000"
      /\ Prepare.deadline f = "March 1"
      /\ Prepare.renewable f = Prepare.Renewable false ""
      /\ Prepare.requirements f = [].
Proof.
  split.
  - intros rawBody H. unfold Prepare.parseScholarshipFields.
    destruct (Str.is_empty rawBody); [reflexivity|].
    unfold querySelector. rewrite H. reflexivity.
  - eexists. split; [vm_compute; reflexivity|]. repeat split.
Qed.

Lemma C1_parseScholarshipFields_in_main_content_witness :
  Prepare.parseScholarshipFields "<p>Deadline: March 1</p>" = Prepare.EmptyObject.
Proof.
  apply (proj1 C1_parseScholarshipFields_in_main_content).
  vm_compute. reflexivity.
Defined.


(* ===================================================================== *)
(** * The field extractors *)
(* ===================================================================== *)

Section ExtractFacts.

Import Extract.

Variable document : forest.
Variable resolve : string -> string.

Lemma each_returned {A B : Type} (f : A -> outcome B) (g : A -> B) xs :
  (forall x, f x = Returned (g x)) -> each f xs = Returned (map g xs).
Proof.
  intros H. induction xs as [|x xs IH]; [reflexivity|].
  cbn [each map]. rewrite H, IH. reflexivity.
Qed.

Lemma images_of_returned s :
  images_of document resolve s
  = Returned
      (map (fun img => Image (src_of resolve img) (Str.or_else (alt_of img) ""))
           (select s document)).
Proof. unfold images_of. apply each_returned. reflexivity. Qed.

Lemma add_fields_returned els : forall fields,
  exists fields', add_fields document fields els = Returned fields'.
Proof.
  induction els as [|el els IH]; intros fields; [eexists; reflexivity|].
  cbn [add_fields]. unfold add_field. cbn [get bind].
  destruct (_ && _)%bool; [destruct (String.eqb _ _)|]; cbn [bind]; apply IH.
Qed.

Lemma extractItem_returned :
  exists r, extractItem document resolve = Returned r
    /\ (querySelector h1 document = None -> item_title r = "")
    /\ (querySelector item_content document = None ->
        item_body r = "" /\ item_bodyText r = "")
    /\ (select label_sel document = [] -> item_fields r = ∅)
    /\ (select content_images document = [] -> item_images r = []).
Proof.
  unfold extractItem. rewrite images_of_returned.
  destruct (add_fields_returned (select label_sel document) ∅) as [fields Hf].
  rewrite Hf. cbn [bind]. eexists. split; [reflexivity|].
  cbn [item_title item_fields item_body item_bodyText item_images].
  repeat split.
  - intros ->. reflexivity.
  - rewrite H. reflexivity.
  - rewrite H. reflexivity.
  - intros H. rewrite H in Hf. cbn [add_fields] in Hf. congruence.
  - intros ->. reflexivity.
Qed.

Lemma staff_members_returned :
  exists found,
    (if Nat.ltb 0 (length (select staff_cards document))
     then each (staff_of resolve) (select staff_cards document)
     else Returned []) = Returned found
    /\ (select staff_cards document = [] -> found = []).
Proof.
  rewrite (each_returned (staff_of resolve)
             (fun card =>
                let name := or_str (trimmed (within card name_sel)) "" in
                if Str.is_empty name then None
                else Some (Staff name
                             (or_str (trimmed (within card title_sel)) "")
                             (or_str (get_opt (within card img_sel) (src_of resolve)) "")
                             (or_str (trimmed (within card mailto_sel)) "")
                             (or_str (trimmed (within card tel_sel)) ""))))
    by reflexivity.
  destruct (select staff_cards document) as [|c cs]; cbn [length Nat.ltb Nat.leb].
  - eexists. split; [reflexivity | reflexivity].
  - eexists. split; [reflexivity | discriminate].
Qed.

Lemma board_members_returned :
  exists found,
    (if Nat.ltb 0 (length (select board_cards document))
     then each (director_of resolve) (select board_cards document)
     else Returned []) = Returned found
    /\ (select board_cards document = [] -> found = []).
Proof.
  rewrite (each_returned (director_of resolve)
             (fun card =>
                let name := or_str (trimmed (within card name_sel)) "" in
                if Str.is_empty name then None
                else Some (Director name
                             (or_str (trimmed (within card title_sel)) "")
                             (or_str (get_opt (within card img_sel) (src_of resolve)) ""))))
    by reflexivity.
  destruct (select board_cards document) as [|c cs]; cbn [length Nat.ltb Nat.leb].
  - eexists. split; [reflexivity | reflexivity].
  - eexists. split; [reflexivity | discriminate].
Qed.

(** C8: for every content type and every document the extractor returns a
    record and raises nothing; a field for which the page has no element
    is the empty string, and a list for which it has none is empty. *)
Theorem C8_extractors_return_defaults (type : string) :
  exists r, getExtractor document resolve type = Returned r /\ defaults document r.
Proof.
  unfold getExtractor.
  destruct (String.eqb type "news");
    [|destruct (String.eqb type "scholarship");
      [|destruct (String.eqb type "grant");
        [|destruct (String.eqb type "staff-listing");
          [|destruct (String.eqb type "board-listing")]]]].
  - unfold extractNews. rewrite images_of_returned. cbn [bind].
    eexists. split; [reflexivity|].
    cbn [defaults news_title news_body news_bodyText date author category
         featuredImage news_images].
    repeat split; try (intros ->; reflexivity); rewrite H; reflexivity.
  - destruct extractItem_returned as (r & Hr & Hd).
    unfold extractScholarship. rewrite Hr. cbn [bind].
    eexists. split; [reflexivity | exact Hd].
  - destruct extractItem_returned as (r & Hr & Hd).
    unfold extractGrant. rewrite Hr. cbn [bind].
    eexists. split; [reflexivity | exact Hd].
  - destruct staff_members_returned as (found & Hf & Hd).
    unfold extractStaffListing. rewrite Hf. cbn [bind].
    eexists. split; [reflexivity|]. cbn [defaults]. split.
    + intros H. rewrite (Hd H). reflexivity.
    + intros ->. reflexivity.
  - destruct board_members_returned as (found & Hf & Hd).
    unfold extractBoardListing. rewrite Hf. cbn [bind].
    eexists. split; [reflexivity|]. cbn [defaults]. split.
    + intros H. rewrite (Hd H). reflexivity.
    + intros ->. reflexivity.
  - unfold extractGenericPage. rewrite images_of_returned. cbn [bind].
    eexists. split; [reflexivity|].
    cbn [defaults title body bodyText images sidebar].
    repeat split; try (intros ->; reflexivity); rewrite H; reflexivity.
Qed.

End ExtractFacts.

Lemma C8_extractors_return_defaults_witness :
  exists r,
    Extract.getExtractor (Html.load "<main><p>Hello</p></main>") id "staff-listing"
    = Extract.Returned r
    /\ match r with
       | Extract.OfStaff members _ => members = []
       | _ => False
       end.
Proof.
  destruct (C8_extractors_return_defaults
              (Html.load "<main><p>Hello</p></main>") id "staff-listing")
    as (r & Hr & Hd).
  exists r. split; [exact Hr|].
  destruct r; try (exfalso; revert Hr; vm_compute; discriminate).
  apply Hd. vm_compute. reflexivity.
Defined.

(* ===================================================================== *)
(** * Regular expressions: the matcher finds the words *)
(* ===================================================================== *)

Section RegexFacts.

Import Regex.

Lemma append_cons c s t : String c s +:+ t = String c (s +:+ t).
Proof. reflexivity. Qed.

Lemma append_nil_l s : "" +:+ s = s.
Proof. reflexivity. Qed.

Lemma append_nil_r s : s +:+ "" = s.
Proof.
  induction s as [|c s IH]; [reflexivity|].
  rewrite append_cons, IH. reflexivity.
Qed.

Lemma append_assoc a b c : (a +:+ b) +:+ c = a +:+ (b +:+ c).
Proof.
  induction a as [|x a IH]; [reflexivity|].
  rewrite !append_cons, IH. reflexivity.
Qed.

Lemma append_eq_nil a b : a +:+ b = "" -> a = "" /\ b = "".
Proof. destruct a; [auto | discriminate]. Qed.

Lemma lang_void s : ~ lang Void s.
Proof. inversion 1. Qed.

Lemma lang_eps_inv s : lang Eps s -> s = "".
Proof. inversion 1. reflexivity. Qed.

Lemma lang_sym_inv p s : lang (Sym p) s -> exists c, s = String c "" /\ p c = true.
Proof. inversion 1; subst. eauto. Qed.

Lemma lang_cat_inv a b s :
  lang (Cat a b) s -> exists s1 s2, s = s1 +:+ s2 /\ lang a s1 /\ lang b s2.
Proof. inversion 1; subst. eauto. Qed.

Lemma lang_alt_inv a b s : lang (Alt a b) s -> lang a s \/ lang b s.
Proof. inversion 1; subst; auto. Qed.

Lemma nullable_lang r : nullable r = true <-> lang r "".
Proof.
  induction r as [| |p|a IHa b IHb|a IHa b IHb|a IHa]; simpl.
  - split; [discriminate | intros H; destruct (lang_void _ H)].
  - split; [constructor | reflexivity].
  - split; [discriminate|]. intros (c & E & _)%lang_sym_inv. discriminate.
  - rewrite andb_true_iff, IHa, IHb. split.
    + intros [Ha Hb]. apply (lang_cat a b "" ""); assumption.
    + intros (s1 & s2 & E & H1 & H2)%lang_cat_inv.
      symmetry in E. apply append_eq_nil in E as [-> ->]. auto.
  - rewrite orb_true_iff, IHa, IHb. split.
    + intros [H|H]; [apply lang_alt_l | apply lang_alt_r]; assumption.
    + apply lang_alt_inv.
  - split; [constructor | reflexivity].
Qed.

Lemma cat_lang a b s : lang (cat a b) s <-> lang (Cat a b) s.
Proof.
  assert (forall x y, lang (Cat x y) s -> x = Void \/ y = Void -> False) as Hv.
  { intros x y (s1 & s2 & _ & H1 & H2)%lang_cat_inv [-> | ->];
      eapply lang_void; eassumption. }
  assert (forall y, lang y s <-> lang (Cat Eps y) s) as Hl.
  { intros y. split.
    - intros H. apply (lang_cat Eps y "" s); [constructor | exact H].
    - intros (s1 & s2 & -> & H1 & H2)%lang_cat_inv.
      apply lang_eps_inv in H1. subst. exact H2. }
  assert (forall x, lang x s <-> lang (Cat x Eps) s) as Hr.
  { intros x. split.
    - intros H. rewrite <- (append_nil_r s).
      apply (lang_cat x Eps s ""); [exact H | constructor].
    - intros (s1 & s2 & -> & H1 & H2)%lang_cat_inv.
      apply lang_eps_inv in H2. subst. rewrite append_nil_r. exact H1. }
  destruct a, b; simpl; try reflexivity;
    try (split; [intros H; exfalso; eapply lang_void; eassumption
                | intros H; exfalso; eapply Hv; eauto]);
    try apply Hl; try apply Hr.
Qed.

Lemma alt_lang a b s : lang (alt a b) s <-> lang (Alt a b) s.
Proof.
  assert (forall y, lang y s <-> lang (Alt Void y) s) as Hl.
  { intros y. split; [apply lang_alt_r|].
    intros [H|H]%lang_alt_inv; [destruct (lang_void _ H) | assumption]. }
  assert (forall x, lang x s <-> lang (Alt x Void) s) as Hr.
  { intros x. split; [apply lang_alt_l|].
    intros [H|H]%lang_alt_inv; [assumption | destruct (lang_void _ H)]. }
  destruct a, b; simpl; try reflexivity; try apply Hl; try apply Hr.
Qed.

(** A word of [Star a] that starts with [c] starts with a word of [a] that
    starts with [c]. *)
Lemma lang_star_cons_inv a c s :
  lang (Star a) (String c s) ->
  exists s1 s2, s = s1 +:+ s2 /\ lang a (String c s1) /\ lang (Star a) s2.
Proof.
  remember (Star a) as r eqn:Er. remember (String c s) as w eqn:Ew.
  intros H. revert a c s Er Ew.
  induction H as [| | | | | |a' s1 s2 H1 _ H2 IH2]; intros a0 c0 s0 Er Ew;
    try discriminate.
  injection Er as ->. destruct s1 as [|d s1].
  - rewrite append_nil_l in Ew. apply (IH2 a0 c0 s0 eq_refl Ew).
  - rewrite append_cons in Ew. injection Ew as -> <-. exists s1, s2. auto.
Qed.

Lemma deriv_lang c r : forall s, lang (deriv c r) s <-> lang r (String c s).
Proof.
  induction r as [| |p|a IHa b IHb|a IHa b IHb|a IHa]; intros s; simpl.
  - split; intros H; destruct (lang_void _ H).
  - split; [intros H; destruct (lang_void _ H)|].
    intros H%lang_eps_inv. discriminate.
  - destruct (p c) eqn:E; split.
    + intros H%lang_eps_inv. subst. constructor. exact E.
    + intros (d & [= <- ->] & _)%lang_sym_inv. constructor.
    + intros H; destruct (lang_void _ H).
    + intros (d & [= <- ->] & Hd)%lang_sym_inv. congruence.
  - assert (lang (Cat (deriv c a) b) s <->
            exists s1 s2, s = s1 +:+ s2 /\ lang a (String c s1) /\ lang b s2) as Hleft.
    { split.
      - intros (s1 & s2 & -> & H1 & H2)%lang_cat_inv.
        exists s1, s2. rewrite <- IHa. auto.
      - intros (s1 & s2 & -> & H1 & H2). constructor; [apply IHa, H1 | exact H2]. }
    assert (lang (Cat a b) (String c s) <->
            (exists s1 s2, s = s1 +:+ s2 /\ lang a (String c s1) /\ lang b s2)
            \/ (lang a "" /\ lang b (String c s))) as Hcat.
    { split.
      - intros (s1 & s2 & E & H1 & H2)%lang_cat_inv.
        destruct s1 as [|d s1].
        + rewrite append_nil_l in E. right. subst. auto.
        + rewrite append_cons in E. injection E as -> ->. left.
          exists s1, s2. auto.
      - intros [(s1 & s2 & -> & H1 & H2) | [H1 H2]].
        + apply (lang_cat a b (String c s1) s2); assumption.
        + apply (lang_cat a b "" (String c s)); assumption. }
    rewrite Hcat. destruct (nullable a) eqn:En.
    + rewrite alt_lang. split.
      * intros [H|H]%lang_alt_inv.
        -- left. apply Hleft, cat_lang. assumption.
        -- right. split; [apply nullable_lang, En | apply IHb; assumption].
      * intros [H | [_ H]].
        -- apply lang_alt_l, cat_lang, Hleft, H.
        -- apply lang_alt_r, IHb, H.
    + rewrite cat_lang, Hleft. split; [auto|].
      intros [H | [H _]]; [exact H|].
      apply nullable_lang in H. congruence.
  - rewrite alt_lang. split.
    + intros [H|H]%lang_alt_inv; [apply lang_alt_l, IHa | apply lang_alt_r, IHb];
        assumption.
    + intros [H|H]%lang_alt_inv; [apply lang_alt_l, IHa | apply lang_alt_r, IHb];
        assumption.
  - rewrite cat_lang. split.
    + intros (s1 & s2 & -> & H1 & H2)%lang_cat_inv.
      apply (lang_star_cons a (String c s1) s2); [apply IHa, H1 | exact H2].
    + intros (s1 & s2 & -> & H1 & H2)%lang_star_cons_inv.
      constructor; [apply IHa, H1 | exact H2].
Qed.

(** The matcher accepts exactly the words of the expression. *)
Lemma matches_lang s : forall r, matches r s = true <-> lang r s.
Proof.
  induction s as [|c s IH]; intros r; simpl.
  - apply nullable_lang.
  - rewrite IH. apply deriv_lang.
Qed.

End RegexFacts.

(* ===================================================================== *)
(** * White space, case and the ends of a string *)
(* ===================================================================== *)

Lemma all_app p a b : Str.all p (a +:+ b) = (Str.all p a && Str.all p b)%bool.
Proof.
  induction a as [|c a IH]; [reflexivity|].
  rewrite append_cons. cbn [Str.all]. rewrite IH, andb_assoc. reflexivity.
Qed.

Lemma drop_end_while_app_all p a t :
  Str.all p t = true ->
  Str.drop_end_while p (a +:+ t) = Str.drop_end_while p a.
Proof.
  intros Ht. induction a as [|c a IH].
  - rewrite append_nil_l. destruct t as [|d t]; [reflexivity|].
    cbn [Str.drop_end_while]. rewrite Ht. reflexivity.
  - rewrite append_cons. cbn [Str.drop_end_while Str.all].
    rewrite all_app, Ht, andb_true_r, IH. reflexivity.
Qed.

Lemma drop_end_while_app_keep p a t :
  Str.all p t = false ->
  Str.drop_end_while p (a +:+ t) = a +:+ Str.drop_end_while p t.
Proof.
  intros Ht. induction a as [|c a IH]; [reflexivity|].
  rewrite !append_cons. cbn [Str.drop_end_while Str.all].
  rewrite all_app, Ht, andb_false_r, andb_false_r, IH. reflexivity.
Qed.

Lemma trimStart_app_ws w s :
  Str.all_ws w = true -> Str.trimStart (w +:+ s) = Str.trimStart s.
Proof.
  unfold Str.all_ws. induction w as [|c w IH]; intros H; [reflexivity|].
  cbn [Str.all] in H. apply andb_true_iff in H as [Hc Hw].
  rewrite append_cons. cbn [Str.trimStart]. rewrite Hc. apply IH, Hw.
Qed.

Lemma trimStart_ws w : Str.all_ws w = true -> Str.trimStart w = "".
Proof.
  intros H. rewrite <- (append_nil_r w), trimStart_app_ws by exact H. reflexivity.
Qed.

Lemma trimStart_not_ws x :
  Str.all_ws x = false ->
  exists ch x', Str.is_ws ch = false
    /\ forall s, Str.trimStart (x +:+ s) = String ch (x' +:+ s).
Proof.
  unfold Str.all_ws. induction x as [|c x IH]; intros H; [discriminate|].
  cbn [Str.all] in H. destruct (Str.is_ws c) eqn:Ec.
  - destruct (IH H) as (ch & x' & Hch & Hs).
    exists ch, x'. split; [exact Hch|]. intros s.
    rewrite append_cons. cbn [Str.trimStart]. rewrite Ec. apply Hs.
  - exists c, x. split; [exact Ec|]. intros s.
    rewrite append_cons. cbn [Str.trimStart]. rewrite Ec. reflexivity.
Qed.

(** White space at the end does not change what [trim] gives. *)
Lemma trim_app_ws k x : Str.all_ws x = true -> Str.trim (k +:+ x) = Str.trim k.
Proof.
  intros Hx. unfold Str.trim, Str.trimEnd.
  destruct (Str.all_ws k) eqn:Ek.
  - rewrite trimStart_app_ws by exact Ek.
    rewrite (trimStart_ws x Hx), (trimStart_ws k Ek). reflexivity.
  - destruct (trimStart_not_ws k Ek) as (ch & k' & Hch & Hs).
    rewrite Hs. specialize (Hs ""). rewrite !append_nil_r in Hs. rewrite Hs.
    rewrite <- append_cons. apply drop_end_while_app_all. exact Hx.
Qed.

Lemma is_ws_lower c : Str.is_ws (Str.lower c) = Str.is_ws c.
Proof. destruct c as [[] [] [] [] [] [] [] []]; reflexivity. Qed.

Lemma lower_s_app a b : Str.lower_s (a +:+ b) = Str.lower_s a +:+ Str.lower_s b.
Proof.
  induction a as [|c a IH]; [reflexivity|].
  rewrite append_cons. cbn [Str.lower_s]. rewrite IH. reflexivity.
Qed.

Lemma all_ws_lower_s x : Str.all_ws (Str.lower_s x) = Str.all_ws x.
Proof.
  unfold Str.all_ws. induction x as [|c x IH]; [reflexivity|].
  cbn [Str.lower_s Str.all]. rewrite is_ws_lower, IH. reflexivity.
Qed.

(* ===================================================================== *)
(** * The words of the label patterns *)
(* ===================================================================== *)

Section LabelWords.

Import Regex.

Lemma lang_star_ws w : lang (Star ws) w <-> Str.all_ws w = true.
Proof.
  unfold Str.all_ws. split.
  - remember (Star ws) as r eqn:Er. intros H.
    induction H as [| | | | | |a s1 s2 H1 _ H2 IH2]; try discriminate;
      [reflexivity|].
    injection Er as ->. apply lang_sym_inv in H1 as (c & -> & Hc).
    rewrite append_cons, append_nil_l. cbn [Str.all]. rewrite Hc. apply IH2.
    reflexivity.
  - induction w as [|c w IH]; intros H; [constructor|].
    cbn [Str.all] in H. apply andb_true_iff in H as [Hc Hw].
    apply (lang_star_cons ws (String c "") w); [constructor; exact Hc | auto].
Qed.

Lemma lang_lit_ci l : forall x,
  lang (lit_ci l) x <-> Str.lower_s x = Str.lower_s l.
Proof.
  induction l as [|c l IH]; intros x; cbn [lit_ci Str.lower_s].
  - split.
    + intros ->%lang_eps_inv. reflexivity.
    + destruct x; [constructor | discriminate].
  - split.
    + intros (s1 & s2 & -> & H1 & H2)%lang_cat_inv.
      apply lang_sym_inv in H1 as (d & -> & Hd).
      rewrite append_cons, append_nil_l. cbn [Str.lower_s].
      apply Ascii.eqb_eq in Hd. apply IH in H2. congruence.
    + destruct x as [|d x]; [discriminate|]. cbn [Str.lower_s].
      intros [= Hd Hx].
      apply (lang_cat (chr_ci c) (lit_ci l) (String d "") x).
      * constructor. apply Ascii.eqb_eq. congruence.
      * apply IH, Hx.
Qed.

Lemma lang_alts rs x :
  lang (alts rs) x <-> exists r, In r rs /\ lang r x.
Proof.
  induction rs as [|r rs IH]; cbn [alts].
  - split; [intros H; destruct (lang_void _ H) | intros (r & [] & _)].
  - destruct rs as [|r' rs].
    + split.
      * intros H. exists r. split; [left; reflexivity | exact H].
      * intros (r0 & [<- | []] & H). exact H.
    + split.
      * intros [H|H]%lang_alt_inv.
        -- exists r. split; [left; reflexivity | exact H].
        -- apply IH in H as (r0 & Hin & H). exists r0. split; [right|]; assumption.
      * intros (r0 & [<- | Hin] & H); [apply lang_alt_l, H|].
        apply lang_alt_r, IH. exists r0. auto.
Qed.

Lemma lang_labels ls x :
  lang (Prepare.labels ls) x
  <-> exists l, In l ls /\ Str.lower_s x = Str.lower_s l.
Proof.
  unfold Prepare.labels. rewrite lang_alts. split.
  - intros (r & (l & <- & Hl)%in_map_iff & H).
    exists l. split; [exact Hl | apply lang_lit_ci, H].
  - intros (l & Hl & H). exists (lit_ci l).
    split; [apply in_map, Hl | apply lang_lit_ci, H].
Qed.

Lemma lang_opt_colon c :
  lang (opt (chr ":")) c <-> c = "" \/ c = ":".
Proof.
  unfold opt, chr. split.
  - intros [H|H]%lang_alt_inv.
    + apply lang_sym_inv in H as (d & -> & Hd).
      apply Ascii.eqb_eq in Hd. subst. auto.
    + apply lang_eps_inv in H. auto.
  - intros [-> | ->]; [apply lang_alt_r; constructor|].
    apply lang_alt_l. constructor. reflexivity.
Qed.

Lemma lang_trailing_label ls s :
  lang (Prepare.trailing_label ls) s <-> Prepare.label_tail ls s.
Proof.
  unfold Prepare.trailing_label, Prepare.label_tail. split.
  - intros (w1 & s1 & -> & Hw1 & H1)%lang_cat_inv.
    apply lang_cat_inv in H1 as (x & s2 & -> & Hx & H2).
    apply lang_cat_inv in H2 as (c & w2 & -> & Hc & Hw2).
    exists w1, x, c, w2. split; [reflexivity|].
    split; [apply lang_star_ws, Hw1|]. split; [apply lang_labels, Hx|].
    split; [apply lang_opt_colon, Hc | apply lang_star_ws, Hw2].
  - intros (w1 & x & c & w2 & -> & Hw1 & Hx & Hc & Hw2).
    constructor; [apply lang_star_ws, Hw1|].
    constructor; [apply lang_labels, Hx|].
    constructor; [apply lang_opt_colon, Hc | apply lang_star_ws, Hw2].
Qed.

End LabelWords.

(* ===================================================================== *)
(** * The deadline of a paragraph *)
(* ===================================================================== *)

Lemma all_false_drop_end_while p s :
  Str.all p s = false -> Str.all p (Str.drop_end_while p s) = false.
Proof.
  induction s as [|c s IH]; intros H; [discriminate|].
  cbn [Str.drop_end_while]. rewrite H. cbn [Str.all] in *.
  destruct (p c); [|reflexivity]. apply IH, H.
Qed.

Lemma drop_end_while_idem p s :
  Str.drop_end_while p (Str.drop_end_while p s) = Str.drop_end_while p s.
Proof.
  induction s as [|c s IH]; [reflexivity|].
  cbn [Str.drop_end_while]. destruct (Str.all p (String c s)) eqn:E;
    [reflexivity|].
  cbn [Str.drop_end_while]. rewrite IH.
  assert (Str.all p (String c (Str.drop_end_while p s)) = false) as ->;
    [|reflexivity].
  cbn [Str.all] in *. destruct (p c); [|reflexivity].
  apply all_false_drop_end_while, E.
Qed.

Lemma trim_idem s : Str.trim (Str.trim s) = Str.trim s.
Proof.
  unfold Str.trim, Str.trimEnd. destruct (Str.all_ws s) eqn:E.
  - rewrite (trimStart_ws s E). reflexivity.
  - destruct (trimStart_not_ws s E) as (ch & t & Hch & Hs).
    specialize (Hs ""). rewrite !append_nil_r in Hs. rewrite Hs.
    cbn [Str.drop_end_while Str.all]. rewrite Hch. cbn [andb Str.trimStart].
    rewrite Hch. cbn [Str.drop_end_while Str.all]. rewrite Hch. cbn [andb].
    rewrite drop_end_while_idem. reflexivity.
Qed.

(** *** [lastIndexOf] *)

Lemma prefix_append p s : String.prefix p (p +:+ s) = true.
Proof.
  induction p as [|c p IH]; [destruct s; reflexivity|].
  rewrite append_cons. cbn [String.prefix].
  destruct (ascii_dec c c); [exact IH | congruence].
Qed.

Lemma lastIndexOf_none p s :
  Str.includes p s = false -> Str.lastIndexOf p s = None.
Proof.
  induction s as [|c s IH]; cbn [Str.includes Str.lastIndexOf]; intros H.
  - rewrite orb_false_r in H. destruct p; [discriminate | reflexivity].
  - apply orb_false_iff in H as [Hp Hs]. rewrite (IH Hs), Hp. reflexivity.
Qed.

(** The index found is that of the last place where [p] starts. *)
Lemma lastIndexOf_last c p pre post :
  Str.includes (String c p) (p +:+ post) = false ->
  Str.lastIndexOf (String c p) (pre +:+ String c p +:+ post)
  = Some (String.length pre).
Proof.
  intros H. induction pre as [|d pre IH].
  - rewrite append_nil_l, append_cons. cbn [Str.lastIndexOf].
    rewrite (lastIndexOf_none _ _ H).
    rewrite <- append_cons, prefix_append. reflexivity.
  - rewrite append_cons. cbn [Str.lastIndexOf String.length]. rewrite IH.
    reflexivity.
Qed.

Lemma drop_length_app a s : Str.drop (String.length a) (a +:+ s) = s.
Proof. induction a as [|c a IH]; [reflexivity | exact IH]. Qed.

Lemma drop_add n m s : Str.drop (n + m) s = Str.drop m (Str.drop n s).
Proof.
  revert s. induction n as [|n IH]; intros s; [reflexivity|].
  destruct s as [|c s]; cbn [Nat.add Str.drop]; [|apply IH].
  destruct m; reflexivity.
Qed.

(** *** Taking a label off the end *)

Lemma remove_at_end_unfold r s :
  Regex.remove_at_end r s
  = if Regex.matches r s then ""
    else match s with
         | "" => ""
         | String c s' => String c (Regex.remove_at_end r s')
         end.
Proof. destruct s; reflexivity. Qed.

(** When the text ends with a word of [r], what is removed starts in
    [body] and is a word of [r]. *)
Lemma remove_at_end_split r tail :
  Regex.matches r tail = true ->
  forall body,
  exists kept x,
    body = kept +:+ x
    /\ Regex.remove_at_end r (body +:+ tail) = kept
    /\ Regex.matches r (x +:+ tail) = true.
Proof.
  intros Ht. induction body as [|c body IH].
  - exists "", "". rewrite !append_nil_l, remove_at_end_unfold, Ht. auto.
  - rewrite append_cons, remove_at_end_unfold.
    destruct (Regex.matches r (String c (body +:+ tail))) eqn:E.
    + exists "", (String c body). auto.
    + destruct IH as (kept & x & -> & Hk & Hx).
      exists (String c kept), x. rewrite Hk. auto.
Qed.

(** When no end of the text is a word of [r], nothing is removed. *)
Lemma remove_at_end_none r s :
  (forall a b, s = a +:+ b -> Regex.matches r b = false) ->
  Regex.remove_at_end r s = s.
Proof.
  induction s as [|c s IH]; intros H.
  - rewrite remove_at_end_unfold, (H "" ""); reflexivity.
  - rewrite remove_at_end_unfold, (H "" (String c s)) by reflexivity.
    f_equal. apply IH. intros a b ->. apply (H (String c a) b). reflexivity.
Qed.

(** *** One label at the end, and only one place for it *)

Lemma after_label_char_lower c :
  Prepare.after_label_char (Str.lower c) = Prepare.after_label_char c.
Proof. destruct c as [[] [] [] [] [] [] [] []]; reflexivity. Qed.

Lemma all_ws_after_label w :
  Str.all_ws w = true -> Str.all Prepare.after_label_char w = true.
Proof.
  unfold Str.all_ws. induction w as [|c w IH]; [reflexivity|].
  cbn [Str.all]. intros [Hc Hw]%andb_true_iff.
  unfold Prepare.after_label_char at 1. rewrite Hc. apply IH, Hw.
Qed.

(** Lower case letters of a label of the deadline pattern: they end with
    a letter, start with one, and none ends another. *)
Lemma deadline_leaks_shape l :
  In l Prepare.deadline_leaks ->
  Str.all Prepare.after_label_char (Str.lower_s l) = false
  /\ Str.drop_end_while Prepare.after_label_char (Str.lower_s l) = Str.lower_s l
  /\ Str.trimStart (Str.lower_s l) = Str.lower_s l.
Proof.
  intros H. repeat (destruct H as [<- | H]; [repeat split|]). destruct H.
Qed.

Lemma deadline_leaks_no_suffix l l' ch y :
  In l Prepare.deadline_leaks -> In l' Prepare.deadline_leaks ->
  Str.lower_s l' = String ch (y +:+ Str.lower_s l) -> False.
Proof.
  intros H H'.
  repeat (destruct H as [<- | H]; [|]); try destruct H;
    (repeat (destruct H' as [<- | H']; [|]); try destruct H');
    cbn [Str.lower_s]; intros E; injection E as _ E;
    repeat (destruct y as [|? y];
            [ cbv in E; discriminate E
            | rewrite append_cons in E;
              first [ discriminate E | injection E as _ E ] ]).
Qed.

Lemma lower_s_tail c w :
  (c = "" \/ c = ":") -> Str.all_ws w = true ->
  Str.all Prepare.after_label_char (Str.lower_s (c +:+ w)) = true.
Proof.
  intros Hc Hw. rewrite lower_s_app, all_app.
  rewrite (all_ws_after_label (Str.lower_s w)) by (rewrite all_ws_lower_s; exact Hw).
  destruct Hc as [-> | ->]; reflexivity.
Qed.

(** Lower case of a label tail without what follows the label. *)
Lemma label_tail_lower x w1 l c w2 :
  (exists l0, In l0 Prepare.deadline_leaks /\ Str.lower_s l = Str.lower_s l0) ->
  (c = "" \/ c = ":") -> Str.all_ws w2 = true ->
  Str.drop_end_while Prepare.after_label_char
    (Str.lower_s (x +:+ w1 +:+ l +:+ c +:+ w2))
  = Str.lower_s x +:+ Str.lower_s w1 +:+ Str.lower_s l.
Proof.
  intros (l0 & Hl0 & El) Hc Hw2.
  destruct (deadline_leaks_shape l0 Hl0) as (Hall & Hkeep & _).
  rewrite !lower_s_app. rewrite <- lower_s_app.
  replace (Str.lower_s x +:+ Str.lower_s w1 +:+ Str.lower_s l
           +:+ Str.lower_s (c +:+ w2))
    with ((Str.lower_s x +:+ Str.lower_s w1 +:+ Str.lower_s l)
          +:+ Str.lower_s (c +:+ w2))
    by (rewrite !append_assoc; reflexivity).
  rewrite drop_end_while_app_all by (apply lower_s_tail; assumption).
  rewrite <- append_assoc, El.
  rewrite drop_end_while_app_keep by exact Hall.
  rewrite Hkeep, append_assoc. reflexivity.
Qed.

(** If a text and the same text after [x] are both label tails, [x] is
    white space: the label stands at one place only. *)
Lemma label_tail_unique x tail :
  Prepare.label_tail Prepare.deadline_leaks tail ->
  Prepare.label_tail Prepare.deadline_leaks (x +:+ tail) ->
  Str.all_ws x = true.
Proof.
  intros (w1 & l & c & w2 & -> & Hw1 & Hl & Hc & Hw2)
         (w1' & l' & c' & w2' & E & Hw1' & Hl' & Hc' & Hw2').
  apply (f_equal (fun s => Str.drop_end_while Prepare.after_label_char
                             (Str.lower_s s))) in E.
  rewrite label_tail_lower in E by assumption.
  change (w1' +:+ l' +:+ c' +:+ w2') with ("" +:+ w1' +:+ l' +:+ c' +:+ w2') in E.
  rewrite label_tail_lower in E by assumption.
  rewrite append_nil_l in E.
  destruct Hl as (l0 & Hl0 & El). destruct Hl' as (l0' & Hl0' & El').
  rewrite El, El' in E.
  apply (f_equal Str.trimStart) in E.
  rewrite (trimStart_app_ws (Str.lower_s w1')) in E
    by (rewrite all_ws_lower_s; exact Hw1').
  destruct (deadline_leaks_shape l0' Hl0') as (_ & _ & Hts). rewrite Hts in E.
  destruct (Str.all_ws x) eqn:Ex; [reflexivity|]. exfalso.
  rewrite <- all_ws_lower_s in Ex.
  destruct (trimStart_not_ws _ Ex) as (ch & x' & _ & Hs).
  rewrite Hs, <- append_assoc in E. symmetry in E.
  exact (deadline_leaks_no_suffix l0 l0' ch _ Hl0 Hl0' E).
Qed.

(** A label at the end of the text is taken off, with the white space
    around it, and nothing else is. *)
Lemma remove_label_tail body tail :
  Prepare.label_tail Prepare.deadline_leaks tail ->
  Str.trim (Regex.remove_at_end (Prepare.trailing_label Prepare.deadline_leaks)
              (body +:+ tail))
  = Str.trim body.
Proof.
  intros Ht.
  assert (Regex.matches (Prepare.trailing_label Prepare.deadline_leaks) tail = true)
    as Hm by (apply matches_lang, lang_trailing_label, Ht).
  destruct (remove_at_end_split _ _ Hm body) as (kept & x & -> & -> & Hx).
  apply matches_lang, lang_trailing_label in Hx.
  rewrite (trim_app_ws kept x); [reflexivity|].
  apply (label_tail_unique x tail); assumption.
Qed.

(** [Deadline:] cannot start inside an occurrence of itself. *)
Lemma no_later_deadline post :
  Str.includes "Deadline:" post = false ->
  Str.includes "Deadline:" ("eadline:" +:+ post) = false.
Proof.
  intros H.
  change ("eadline:" +:+ post)
    with (String "e" (String "a" (String "d" (String "l" (String "i"
           (String "n" (String "e" (String ":" post)))))))).
  do 8 (cbn [Str.includes];
        match goal with
        | |- (String.prefix ?a ?b || _)%bool = false =>
            replace (String.prefix a b) with false by reflexivity
        end; cbn [orb]).
  exact H.
Qed.

(** When [Deadline:] stands in the text of the paragraph, once or more
    than once, and [post] is what follows its last occurrence, the text kept
    is [post], trimmed; a field label at the end of that text (Requirements,
    Apply, Amount, Renewable or Eligibility, in any case, with or without
    colon) is taken off with the white space around it; what is kept becomes
    the deadline when it is not empty and does not open with [Requirements:]
    or [Apply:]. *)
Lemma deadline_after_last_label (pre post : string) :
  Str.includes "Deadline:" post = false ->
  let fullText := pre +:+ "Deadline:" +:+ post in
  Str.lastIndexOf "Deadline:" fullText = Some (String.length pre)
  /\ Prepare.deadline_after_label fullText
     = Str.trim (Regex.remove_at_end
                   (Prepare.trailing_label Prepare.deadline_leaks)
                   (Str.trim post))
  /\ (forall body tail,
        Str.trim post = body +:+ tail ->
        Prepare.label_tail Prepare.deadline_leaks tail ->
        Prepare.deadline_after_label fullText = Str.trim body)
  /\ ((forall a b, Str.trim post = a +:+ b ->
                   ~ Prepare.label_tail Prepare.deadline_leaks b) ->
      Prepare.deadline_after_label fullText = Str.trim post)
  /\ (forall nextText result,
        Prepare.deadline_after_label fullText <> "" ->
        Regex.test (Prepare.label_head ["Requirements"; "Apply"])
          (Prepare.deadline_after_label fullText) = false ->
        Prepare.deadline (Prepare.deadline_branch fullText nextText result)
        = Prepare.deadline_after_label fullText).
Proof.
  intros Hlast fullText.
  assert (Str.lastIndexOf "Deadline:" fullText = Some (String.length pre)) as Hi.
  { apply (lastIndexOf_last "D" "eadline:" pre post), no_later_deadline, Hlast. }
  assert (Prepare.deadline_after_label fullText
          = Str.trim (Regex.remove_at_end
                        (Prepare.trailing_label Prepare.deadline_leaks)
                        (Str.trim post))) as Hd.
  { unfold Prepare.deadline_after_label. rewrite Hi. do 3 f_equal.
    unfold fullText. rewrite drop_add, drop_length_app. reflexivity. }
  split; [exact Hi|]. split; [exact Hd|]. split; [|split].
  - intros body tail E Ht. rewrite Hd, E. apply remove_label_tail, Ht.
  - intros Hnone. rewrite Hd, remove_at_end_none; [apply trim_idem|].
    intros a b E. destruct (Regex.matches _ b) eqn:Eb; [|reflexivity].
    exfalso. apply (Hnone a b E).
    apply lang_trailing_label, matches_lang, Eb.
  - intros nextText result Hne Hlead. unfold Prepare.deadline_branch.
    rewrite Hlead. destruct (Prepare.deadline_after_label fullText);
      [congruence | reflexivity].
Qed.

(* ===================================================================== *)
(** * What the patterns of the scripts accept *)
(* ===================================================================== *)

Section PatternFacts.

Import Regex.

Lemma lang_star_any s : lang (Star any) s.
Proof.
  induction s as [|c s IH]; [constructor|].
  apply (lang_star_cons any (String c "") s); [constructor; reflexivity | exact IH].
Qed.

Lemma lang_chr c x : lang (chr c) x <-> x = String c "".
Proof.
  unfold chr. split.
  - intros (d & -> & Hd)%lang_sym_inv. apply Ascii.eqb_eq in Hd. congruence.
  - intros ->. constructor. apply Ascii.eqb_refl.
Qed.

Lemma lang_lit l : forall x, lang (lit l) x <-> x = l.
Proof.
  induction l as [|c l IH]; intros x; cbn [lit].
  - split; [apply lang_eps_inv | intros ->; constructor].
  - split.
    + intros (s1 & s2 & -> & H1 & H2)%lang_cat_inv.
      apply lang_chr in H1 as ->. apply IH in H2 as ->. reflexivity.
    + intros ->. apply (lang_cat (chr c) (lit l) (String c "") l).
      * apply lang_chr. reflexivity.
      * apply IH. reflexivity.
Qed.

(** [/^R$/] accepts the words of [R]. *)
Lemma test_whole r s : test (JsRe true r true) s = true <-> lang r s.
Proof.
  unfold test. cbn [bol eol body]. rewrite matches_lang. split.
  - intros (s1 & s2 & -> & ->%lang_eps_inv & H)%lang_cat_inv.
    apply lang_cat_inv in H as (t & s3 & -> & Ht & ->%lang_eps_inv).
    rewrite append_nil_l, append_nil_r. exact Ht.
  - intros H. rewrite <- (append_nil_l s). constructor; [constructor|].
    rewrite <- (append_nil_r s). constructor; [exact H | constructor].
Qed.

(** [/^R/] accepts what starts with a word of [R]. *)
Lemma test_head r s :
  test (JsRe true r false) s = true
  <-> exists t rest, s = t +:+ rest /\ lang r t.
Proof.
  unfold test. cbn [bol eol body]. rewrite matches_lang. split.
  - intros (s1 & s2 & -> & ->%lang_eps_inv & H)%lang_cat_inv.
    apply lang_cat_inv in H as (t & s3 & -> & Ht & _).
    exists t, s3. rewrite append_nil_l. auto.
  - intros (t & rest & -> & Ht).
    rewrite <- (append_nil_l (t +:+ rest)). constructor; [constructor|].
    constructor; [exact Ht | apply lang_star_any].
Qed.

(** [/R$/] accepts what ends with a word of [R]. *)
Lemma test_tail r s :
  test (JsRe false r true) s = true
  <-> exists stem t, s = stem +:+ t /\ lang r t.
Proof.
  unfold test. cbn [bol eol body]. rewrite matches_lang. split.
  - intros (s1 & s2 & -> & _ & H)%lang_cat_inv.
    apply lang_cat_inv in H as (t & s3 & -> & Ht & ->%lang_eps_inv).
    exists s1, t. rewrite append_nil_r. auto.
  - intros (stem & t & -> & Ht). constructor; [apply lang_star_any|].
    rewrite <- (append_nil_r t). constructor; [exact Ht | constructor].
Qed.

(** [/^l/] is [startsWith]. *)
Lemma test_lit_head l s :
  test (JsRe true (lit l) false) s = true <-> exists rest, s = l +:+ rest.
Proof.
  rewrite test_head. split.
  - intros (t & rest & -> & ->%lang_lit). eauto.
  - intros (rest & ->). exists l, rest. split; [reflexivity | apply lang_lit; reflexivity].
Qed.

Lemma lang_star_not_chr c x :
  lang (Star (not_chr c)) x <-> Str.contains_char c x = false.
Proof.
  split.
  - remember (Star (not_chr c)) as r eqn:Er. intros H.
    induction H as [| | | | | |a s1 s2 H1 _ H2 IH2]; try discriminate;
      [reflexivity|].
    injection Er as ->. apply lang_sym_inv in H1 as (d & -> & Hd).
    rewrite append_cons, append_nil_l. cbn [Str.contains_char].
    apply negb_true_iff in Hd. rewrite Hd. apply IH2. reflexivity.
  - induction x as [|d x IH]; intros H; [constructor|].
    cbn [Str.contains_char] in H. apply orb_false_iff in H as [Hd Hx].
    apply (lang_star_cons (not_chr c) (String d "") x); [|auto].
    constructor. rewrite Hd. reflexivity.
Qed.

(** [[^/]+]: a segment is not empty and holds no slash. *)
Lemma lang_segment x :
  lang Classify.segment x <-> x <> "" /\ Str.contains_char "/" x = false.
Proof.
  unfold Classify.segment, plus. split.
  - intros (s1 & s2 & -> & H1 & H2)%lang_cat_inv.
    apply lang_sym_inv in H1 as (d & -> & Hd).
    apply lang_star_not_chr in H2.
    rewrite append_cons, append_nil_l. split; [discriminate|].
    cbn [Str.contains_char]. apply negb_true_iff in Hd. rewrite Hd. exact H2.
  - intros [Hne H]. destruct x as [|d x]; [congruence|].
    cbn [Str.contains_char] in H. apply orb_false_iff in H as [Hd Hx].
    apply (lang_cat (not_chr "/") (Star (not_chr "/")) (String d "") x).
    + constructor. rewrite Hd. reflexivity.
    + apply lang_star_not_chr, Hx.
Qed.

Lemma lower_s_eq_nil x : Str.lower_s x = "" -> x = "".
Proof. destruct x; [reflexivity | discriminate]. Qed.

Lemma lower_s_eq_cons x c l :
  Str.lower_s x = String c l ->
  exists d y, x = String d y /\ Str.lower d = c /\ Str.lower_s y = l.
Proof.
  destruct x as [|d y]; [discriminate|]. cbn [Str.lower_s].
  intros [= Hd Hy]. eauto.
Qed.

Lemma lower_s_app_inv u v : forall x,
  Str.lower_s x = u +:+ v ->
  exists a b, x = a +:+ b /\ Str.lower_s a = u /\ Str.lower_s b = v.
Proof.
  induction u as [|c u IH]; intros x H.
  - exists "", x. rewrite append_nil_l in *. auto.
  - rewrite append_cons in H.
    apply lower_s_eq_cons in H as (d & y & -> & Hd & Hy).
    destruct (IH _ Hy) as (a & b & -> & Ha & Hb).
    exists (String d a), b. cbn [Str.lower_s]. rewrite Hd, Ha. auto.
Qed.

(** [wordx?] in any case: the word, or the word and an [x]. *)
Lemma lang_word_x w ext :
  lang (Cat (lit_ci w) (opt (lit_ci "x"))) ext
  <-> Str.lower_s ext = Str.lower_s w
      \/ Str.lower_s ext = Str.lower_s w +:+ "x".
Proof.
  split.
  - intros (a & b & -> & Ha%lang_lit_ci & Hb)%lang_cat_inv.
    rewrite lower_s_app, Ha.
    apply lang_alt_inv in Hb as [Hb%lang_lit_ci | ->%lang_eps_inv].
    + right. rewrite Hb. reflexivity.
    + left. cbn [Str.lower_s]. apply append_nil_r.
  - intros [H | H].
    + rewrite <- (append_nil_r ext).
      constructor; [apply lang_lit_ci, H | apply lang_alt_r; constructor].
    + apply lower_s_app_inv in H as (a & b & -> & Ha & Hb).
      constructor; [apply lang_lit_ci, Ha|].
      apply lang_alt_l, lang_lit_ci. exact Hb.
Qed.

(** The denylist of the normaliser: a full stop and one of the
    extensions, in any case, at the end of the path. *)
Lemma download_re_denied p :
  test Url.download_re p = true <-> CrawlLog.ends_denied p.
Proof.
  unfold Url.download_re, CrawlLog.ends_denied. rewrite test_tail. split.
  - intros (stem & t & -> & (d & ext & -> & ->%lang_chr & H)%lang_cat_inv).
    exists stem, ext. split; [reflexivity|].
    apply lang_alts in H as (r & Hr & H).
    cbn [In] in Hr. unfold CrawlLog.denied.
    repeat (destruct Hr as [<- | Hr];
            [ first [ apply lang_lit_ci in H; cbn [Str.lower_s] in H;
                      rewrite H; cbv; tauto
                    | apply lang_word_x in H as [H | H]; rewrite H; cbv; tauto ]
            | ]).
    destruct Hr.
  - intros (stem & ext & -> & Hin). exists stem, ("." +:+ ext).
    split; [reflexivity|].
    apply (lang_cat (chr ".") _ "." ext); [apply lang_chr; reflexivity|].
    apply lang_alts. unfold CrawlLog.denied in Hin. cbn [In] in Hin.
    repeat match type of Hin with
           | _ \/ _ => destruct Hin as [Hin | Hin]
           end; try contradiction; symmetry in Hin.
    all: match type of Hin with
         | _ = "xls" =>
             exists (Cat (lit_ci "xls") (opt (lit_ci "x")));
             split; [| apply lang_word_x; left; exact Hin]
         | _ = "xlsx" =>
             exists (Cat (lit_ci "xls") (opt (lit_ci "x")));
             split; [| apply lang_word_x; right; exact Hin]
         | _ = "doc" =>
             exists (Cat (lit_ci "doc") (opt (lit_ci "x")));
             split; [| apply lang_word_x; left; exact Hin]
         | _ = "docx" =>
             exists (Cat (lit_ci "doc") (opt (lit_ci "x")));
             split; [| apply lang_word_x; right; exact Hin]
         | _ = ?w =>
             exists (lit_ci w); split; [| apply lang_lit_ci; exact Hin]
         end; cbn [In]; repeat first [left; reflexivity | right].
Qed.

End PatternFacts.

(* ===================================================================== *)
(** * What the normaliser lets through *)
(* ===================================================================== *)

Lemma ends_with_slash_dec s :
  (exists q, s = q +:+ "/") \/ (forall q, s <> q +:+ "/").
Proof.
  induction s as [|c s IH].
  - right. intros [|? ?]; discriminate.
  - destruct IH as [(q & ->) | IH].
    + left. exists (String c q). reflexivity.
    + destruct s as [|d s].
      * destruct (Ascii.eqb_spec c "/") as [->|Hc].
        -- left. exists "". reflexivity.
        -- right. intros [|e q] H; simpl in H.
           ++ injection H as H. congruence.
           ++ injection H as _ H. destruct q; discriminate.
      * right. intros [|e q]; [discriminate|]. simpl. intros [= _ H].
        exact (IH q H).
Qed.

Lemma length_append a b :
  String.length (a +:+ b) = String.length a + String.length b.
Proof.
  induction a as [|c a IH]; [reflexivity|].
  rewrite append_cons. cbn [String.length]. rewrite IH. reflexivity.
Qed.

Lemma append_inv_head a b c : a +:+ b = a +:+ c -> b = c.
Proof.
  induction a as [|x a IH]; simpl; [auto|]. intros [= H]. auto.
Qed.

Lemma append_slash_neq q : q <> q +:+ "/".
Proof.
  induction q as [|c q IH]; [discriminate|].
  rewrite append_cons. intros [= H]. auto.
Qed.

Lemma canon_fixed s :
  Str.strip_trailing_slash s = s ->
  Str.or_else (Str.strip_trailing_slash (Str.or_else s "/")) "/"
  = Str.or_else s "/".
Proof.
  intros H. destruct s as [|a s]; [reflexivity|].
  change (Str.or_else (String a s) "/") with (String a s). rewrite H.
  reflexivity.
Qed.

Lemma normalizeUrl_spec (new_URL : Url.ctor) (href out : string) :
  Url.normalizeUrl new_URL href = Some out
  <-> exists u,
        new_URL href (Some Url.BASE_URL) = Some u
        /\ (Url.hostname u = "www.thcf.org" \/ Url.hostname u = "thcf.org")
        /\ ~ CrawlLog.ends_denied
               (Str.or_else (Str.strip_trailing_slash (Url.pathname u)) "/")
        /\ out = Url.origin u
                 +:+ Str.or_else (Str.strip_trailing_slash (Url.pathname u)) "/".
Proof.
  unfold Url.normalizeUrl, Url.normalizeParsed. cbn [Url.set_hash Url.pathname Url.origin].
  split.
  - destruct (new_URL href (Some Url.BASE_URL)) as [u|]; [|discriminate].
    destruct (String.eqb_spec (Url.hostname u) "www.thcf.org") as [Hw|Hw];
      destruct (String.eqb_spec (Url.hostname u) "thcf.org") as [Ht|Ht];
      cbn [negb andb]; try discriminate.
    all: destruct (Regex.test Url.download_re _) eqn:E; [discriminate|].
    all: intros [= <-]; exists u; split; [reflexivity|]; split; [tauto|].
    all: split; [|reflexivity].
    all: intros H%download_re_denied; congruence.
  - intros (u & -> & Hh & Hd & ->).
    assert ((negb (String.eqb (Url.hostname u) "www.thcf.org")
             && negb (String.eqb (Url.hostname u) "thcf.org"))%bool = false) as ->.
    { destruct Hh as [-> | ->]; reflexivity. }
    destruct (Regex.test Url.download_re _) eqn:E; [|reflexivity].
    apply download_re_denied in E. contradiction.
Qed.

(** X1: the normaliser accepts a link exactly when the platform parses it
    against the base, its host is [www.thcf.org] or [thcf.org], and its
    path, without one trailing slash, does not end with a full stop and an
    extension of the denylist, in any case; the result is then the origin
    followed by that path. *)
Theorem X1_normalizeUrl_accepts (new_URL : Url.ctor) (href out : string) :
  Url.normalizeUrl new_URL href = Some out
  <-> exists u,
        new_URL href (Some Url.BASE_URL) = Some u
        /\ (Url.hostname u = "www.thcf.org" \/ Url.hostname u = "thcf.org")
        /\ ~ CrawlLog.ends_denied
               (Str.or_else (Str.strip_trailing_slash (Url.pathname u)) "/")
        /\ out = Url.origin u
                 +:+ Str.or_else (Str.strip_trailing_slash (Url.pathname u)) "/".
Proof. apply normalizeUrl_spec. Qed.

(** X2: when the platform reads an accepted URL back into the same origin,
    host and path, normalising it again gives it back, unless the path of
    the link ended with two slashes after something else: then the second
    pass takes one more slash off, or refuses the URL. *)
Theorem X2_normalizeUrl_again (new_URL : Url.ctor) (href out : string)
    (u u' : Url.URL) :
  new_URL href (Some Url.BASE_URL) = Some u ->
  Url.normalizeUrl new_URL href = Some out ->
  new_URL out (Some Url.BASE_URL) = Some u' ->
  Url.origin u' = Url.origin u ->
  Url.hostname u' = Url.hostname u ->
  Url.pathname u' = Str.or_else (Str.strip_trailing_slash (Url.pathname u)) "/" ->
  (Url.normalizeUrl new_URL out = Some out
   <-> ~ exists q, q <> "" /\ Url.pathname u = q +:+ "//").
Proof.
  intros Hu Hout Hu' Ho Hh Hp.
  unfold Url.normalizeUrl in *. rewrite Hu in Hout. rewrite Hu'.
  pose proof (normalizeParsed_shape _ _ Hout) as Hshape.
  set (p := Url.pathname u) in *.
  set (c := Str.or_else (Str.strip_trailing_slash p) "/") in *.
  (* the second pass, when the path is left as it is *)
  assert (Str.or_else (Str.strip_trailing_slash c) "/" = c ->
          Url.normalizeParsed u' = Some out) as Hsame.
  { intros Hc. revert Hout. unfold Url.normalizeParsed.
    cbn [Url.set_hash Url.pathname Url.origin]. rewrite Hh, Ho, Hp.
    fold p. fold c. rewrite Hc.
    destruct (_ && _)%bool; [discriminate|].
    destruct (Regex.test _ _); [discriminate|]. auto. }
  (* and when it loses one more slash *)
  assert (forall q2, q2 <> "" -> c = q2 +:+ "/" ->
          Url.normalizeParsed u' <> Some out) as Hless.
  { intros q2 Hq2 Hc Hn. apply normalizeParsed_shape in Hn.
    rewrite Hp, Ho in Hn. rewrite Hshape in Hn. apply append_inv_head in Hn.
    rewrite Hc, strip_trailing_slash_app in Hn.
    unfold Str.or_else in Hn. destruct q2; [congruence|]. simpl in Hn.
    symmetry in Hn. revert Hn. apply (append_slash_neq (String a q2)). }
  destruct (ends_with_slash_dec p) as [(q & Hq) | Hno].
  - assert (c = Str.or_else q "/") as Hc.
    { unfold c. rewrite Hq, strip_trailing_slash_app. reflexivity. }
    destruct q as [|x q].
    + (* the path is [/] *)
      split; [intros _ | intros _; apply Hsame; rewrite Hc; reflexivity].
      intros (q' & Hq' & E). rewrite Hq in E.
      apply (f_equal String.length) in E. rewrite !length_append in E.
      simpl in E. lia.
    + change (Str.or_else (String x q) "/") with (String x q) in Hc.
      destruct (ends_with_slash_dec (String x q)) as [(q2 & Hq2) | Hno2].
      * destruct q2 as [|y q2].
        -- (* the path is [//] *)
           split; [intros _ | intros _; apply Hsame; rewrite Hc, Hq2; reflexivity].
           intros (q' & Hq' & E). rewrite Hq, Hq2 in E.
           apply (f_equal String.length) in E. rewrite !length_append in E.
           destruct q'; [congruence|]. simpl in E. lia.
        -- split.
           ++ intros H. exfalso. apply (Hless (String y q2)); [discriminate| |exact H].
              rewrite Hc. exact Hq2.
           ++ intros H. exfalso. apply H. exists (String y q2).
              split; [discriminate|]. rewrite Hq, Hq2, append_assoc. reflexivity.
      * split.
        -- intros _ (q' & Hq' & E). rewrite Hq in E.
           apply (Hno2 q').
           assert (forall a b, a +:+ "/" = b +:+ "/" -> a = b) as Hinj.
           { intros a b H. rewrite <- (strip_trailing_slash_app a),
               <- (strip_trailing_slash_app b), H. reflexivity. }
           apply Hinj. rewrite E, append_assoc. reflexivity.
        -- intros _. apply Hsame. rewrite Hc.
           rewrite (strip_trailing_slash_id _ Hno2). reflexivity.
  - assert (Str.strip_trailing_slash p = p) as Hs
      by exact (strip_trailing_slash_id _ Hno).
    split.
    + intros _ (q' & _ & E). apply (Hno (q' +:+ "/")).
      rewrite E, append_assoc. reflexivity.
    + intros _. apply Hsame. unfold c. rewrite Hs. apply canon_fixed, Hs.
Qed.

Lemma X2_normalizeUrl_again_witness :
  Url.normalizeUrl Url.path_ctor "/about/" = Some "https://www.thcf.org/about"
  /\ (Url.normalizeUrl Url.path_ctor "https://www.thcf.org/about"
      = Some "https://www.thcf.org/about"
      <-> ~ exists q, q <> "" /\ "/about/" = q +:+ "//").
Proof.
  split; [reflexivity|].
  apply (X2_normalizeUrl_again Url.path_ctor "/about/" "https://www.thcf.org/about"
           (Url.read_path "/about/") (Url.read_path "/about"));
    reflexivity.
Defined.

(* ===================================================================== *)
(** * What a crawl leaves behind *)
(* ===================================================================== *)

Section CrawlLogFacts.

Variable new_URL : Url.ctor.
Variable RESUME : bool.
Variable MAX_PAGES : Crawl.budget.
Variable sitemap : option (list string).
Variable navStructure : list Crawl.nav_item.
Variable open_section : string -> option (list string).
Variable click_page : string -> nat -> Crawl.click.
Variable scrapePage : Z -> string -> option Crawl.page.

Local Abbreviation step := (Crawl.step new_URL MAX_PAGES scrapePage).
Local Abbreviation reaches := (Crawl.reaches new_URL MAX_PAGES scrapePage).
Local Abbreviation frontier :=
  (Crawl.frontier new_URL RESUME sitemap navStructure open_section click_page).
Local Abbreviation setup := (Crawl.setup RESUME sitemap).
Local Abbreviation inv := (Crawl.inv RESUME MAX_PAGES sitemap).
Local Abbreviation resumed := (Crawl.resumed RESUME sitemap).
Local Abbreviation mark := (Crawl.mark scrapePage).
Local Abbreviation kept := (CrawlLog.kept new_URL).

Lemma setup_kept : kept setup.
Proof.
  split; simpl.
  - intros u Hu. inversion Hu.
  - exists []. split; [reflexivity | constructor].
  - constructor.
  - intros e He. inversion He.
  - constructor.
Qed.

Lemma push_kept href u st :
  Url.normalizeUrl new_URL href = Some u -> kept st -> kept (Crawl.push u st).
Proof.
  intros Hn [Hp (sh & Hq & Hm) Hs Ht Hw]. split; simpl; try assumption.
  - intros x [Hx | ->%list_elem_of_singleton]%elem_of_app; [auto | eauto].
  - exists sh. split; [|exact Hm]. rewrite Hq, app_assoc. reflexivity.
Qed.

Lemma enqueue_unvisited_kept href st :
  kept st -> kept (Crawl.enqueue_unvisited new_URL href st).
Proof.
  intros H. unfold Crawl.enqueue_unvisited, Crawl.normalizeUrl.
  destruct (Url.normalizeUrl new_URL href) as [n|] eqn:Hn; [|exact H].
  destruct (_ && _)%bool; [|exact H]. exact (push_kept _ _ _ Hn H).
Qed.

Lemma enqueue_unseen_kept href st :
  kept st -> kept (Crawl.enqueue_unseen new_URL href st).
Proof.
  intros H. unfold Crawl.enqueue_unseen, Crawl.normalizeUrl.
  destruct (Url.normalizeUrl new_URL href) as [n|] eqn:Hn; [|exact H].
  destruct (_ && _)%bool; [|exact H]. exact (push_kept _ _ _ Hn H).
Qed.

Lemma enqueue_all_kept f hrefs st :
  (forall href st, kept st -> kept (f href st)) ->
  kept st -> kept (Crawl.enqueue_all f hrefs st).
Proof.
  intros Hf. unfold Crawl.enqueue_all. revert st.
  induction hrefs as [|h hrefs IH]; intros st H; simpl; auto.
Qed.

Lemma click_through_kept section pageNums st :
  kept st -> kept (Crawl.click_through new_URL click_page section pageNums st).
Proof.
  revert st. induction pageNums as [|n l IH]; intros st H; simpl; [exact H|].
  destruct (click_page section n); try exact H.
  apply IH, enqueue_all_kept; [exact enqueue_unseen_kept | exact H].
Qed.

Lemma frontier_kept : kept frontier.
Proof.
  unfold Crawl.frontier, Crawl.discover, Crawl.add_nav, Crawl.seed.
  assert (forall l st, kept st ->
            kept (fold_left (Crawl.paginate new_URL open_section click_page) l st))
    as Hd.
  { induction l as [|s l IH]; intros st H; simpl; [exact H|].
    apply IH. unfold Crawl.paginate. destruct (open_section s); [|exact H].
    apply click_through_kept, enqueue_all_kept;
      [exact enqueue_unseen_kept | exact H]. }
  assert (forall l st, kept st ->
            kept (fold_left (Crawl.add_nav_item new_URL) l st)) as Hn.
  { induction l as [|i l IH]; intros st H; simpl; [exact H|].
    apply IH. unfold Crawl.add_nav_item.
    apply enqueue_all_kept; [exact enqueue_unvisited_kept|].
    apply enqueue_unvisited_kept, H. }
  apply Hd, Hn, enqueue_all_kept; [exact enqueue_unvisited_kept | exact setup_kept].
Qed.

(** An enqueue writes nothing down. *)
Lemma enqueue_all_unvisited_log hrefs st :
  let st' := Crawl.enqueue_all (Crawl.enqueue_unvisited new_URL) hrefs st in
  Crawl.marked st' = Crawl.marked st
  /\ Crawl.allUrls st' = Crawl.allUrls st
  /\ Crawl.written st' = Crawl.written st.
Proof.
  unfold Crawl.enqueue_all. revert st.
  induction hrefs as [|h hrefs IH]; intros st; simpl; [auto|].
  destruct (IH (Crawl.enqueue_unvisited new_URL h st)) as (-> & -> & ->).
  unfold Crawl.enqueue_unvisited.
  destruct (Crawl.normalizeUrl new_URL h); [|auto].
  destruct (_ && _)%bool; auto.
Qed.

Lemma mark_kept url rest st :
  kept st -> Crawl.queue st = url :: rest -> kept (mark url rest st).
Proof.
  intros [Hp (sh & Hq & Hm) Hs Ht Hw] Hu. split; simpl; try assumption.
  - exists (sh ++ [url])%list. split.
    + rewrite Hq, Hu, <- app_assoc. reflexivity.
    + apply sublist_app; [exact Hm | reflexivity].
  - apply sublist_inserts_r. exact Hs.
Qed.

Lemma skip_kept url rest st :
  kept st -> Crawl.queue st = url :: rest -> kept (Crawl.skip rest st).
Proof.
  intros [Hp (sh & Hq & Hm) Hs Ht Hw] Hu. split; simpl; try assumption.
  exists (sh ++ [url])%list. split.
  - rewrite Hq, Hu, <- app_assoc. reflexivity.
  - apply sublist_inserts_r. exact Hm.
Qed.

Lemma harvest_kept url rest result slug st :
  kept st -> Crawl.queue st = url :: rest ->
  Url.slugFromUrl new_URL url = Some slug ->
  kept (Crawl.harvest new_URL url result slug (mark url rest st)).
Proof.
  intros H Hu Hslug.
  pose proof (mark_kept url rest st H Hu) as Hk.
  pose proof (enqueue_all_kept (Crawl.enqueue_unvisited new_URL)
                (Crawl.p_links result) _ enqueue_unvisited_kept Hk)
    as [Hp Hm _ _ _].
  destruct (enqueue_all_unvisited_log (Crawl.p_links result) (mark url rest st))
    as (Em & Ea & Ew).
  destruct H as [_ _ Hs Ht Hw].
  split; cbn [Crawl.harvest Crawl.pushed Crawl.marked Crawl.allUrls Crawl.written].
  - exact Hp.
  - exact Hm.
  - rewrite Em, Ea. cbn [Crawl.mark Crawl.marked Crawl.allUrls].
    rewrite map_app. apply sublist_app; [exact Hs | reflexivity].
  - rewrite Ea. cbn [Crawl.mark Crawl.allUrls].
    intros e [He | ->%list_elem_of_singleton]%elem_of_app; [auto | reflexivity].
  - rewrite Ea, Ew. cbn [Crawl.mark Crawl.allUrls Crawl.written].
    apply Forall2_app; [exact Hw|]. constructor; [|constructor].
    split; [reflexivity | exact Hslug].
Qed.

Lemma step_kept st st' :
  kept st ->
  step st = Crawl.Next st' \/ step st = Crawl.Throw st' -> kept st'.
Proof.
  intros H Hs.
  destruct (step_cases new_URL MAX_PAGES scrapePage st st' Hs)
    as (url & rest & Hq & Hlt & Hc).
  destruct Hc as [(_ & _ & ->) | (_ & [(_ & _ & ->) | [(result & slug & _ & Hslug & _ & ->) | (result & _ & _ & _ & ->)]])].
  - eapply skip_kept; eassumption.
  - apply mark_kept; assumption.
  - apply harvest_kept; assumption.
  - apply mark_kept; assumption.
Qed.

Lemma reaches_kept st st' : kept st -> reaches st st' -> kept st'.
Proof.
  intros Hk Hr. induction Hr as [st | st st1 st' Hs _ IH | st st1 Hs].
  - exact Hk.
  - apply IH. eapply step_kept; [exact Hk | left; exact Hs].
  - eapply step_kept; [exact Hk | right; exact Hs].
Qed.

(** X3: at every moment of a run, each URL fetched so far or waiting in
    the queue came out of the normaliser: it is the origin and the trimmed
    path of a link whose host is the site's and whose path does not end
    with a denied extension. *)
Theorem X3_crawl_stays_on_site (st : Crawl.state) :
  reaches frontier st ->
  forall u, u ∈ Crawl.fetched st \/ u ∈ Crawl.queue st ->
  exists href url,
    new_URL href (Some Url.BASE_URL) = Some url
    /\ (Url.hostname url = "www.thcf.org" \/ Url.hostname url = "thcf.org")
    /\ ~ CrawlLog.ends_denied
           (Str.or_else (Str.strip_trailing_slash (Url.pathname url)) "/")
    /\ u = Url.origin url
           +:+ Str.or_else (Str.strip_trailing_slash (Url.pathname url)) "/".
Proof.
  intros Hr u Hu.
  pose proof (frontier_inv new_URL RESUME MAX_PAGES sitemap navStructure
                open_section click_page) as Hi0.
  pose proof (reaches_inv new_URL RESUME MAX_PAGES sitemap open_section
                click_page scrapePage _ _ Hi0 Hr) as Hi.
  pose proof (reaches_kept _ _ frontier_kept Hr) as [Hp (sh & Hq & Hm) _ _ _].
  assert (u ∈ Crawl.pushed st) as Hin.
  { rewrite Hq. apply elem_of_app. destruct Hu as [Hu | Hu]; [left | right; exact Hu].
    destruct Hi as [_ _ _ _ _ _ Hf _ _]. rewrite Hf in Hu.
    exact (elem_of_sublist _ _ _ Hu Hm). }
  destruct (Hp u Hin) as (href & Hn).
  apply normalizeUrl_spec in Hn as (url & ? & ? & ? & ?). eauto 10.
Qed.

(** X5: at every moment of a run the site map holds no URL twice; each
    entry is a URL that this run fetched, never one taken over from the
    site map of an earlier run, with the type the classifier gives it;
    there are no more entries than pages counted; each entry has its
    record written under the directory of its type and the slug of its
    URL, and no record goes anywhere but [pages], [news], [scholarships]
    or [grants]. *)
Theorem X5_site_map_entries (st : Crawl.state) :
  reaches frontier st ->
  NoDup (map CrawlLog.url_of (Crawl.allUrls st))
  /\ (forall e, e ∈ Crawl.allUrls st ->
        CrawlLog.url_of e ∈ Crawl.fetched st
        /\ (CrawlLog.url_of e ∉ resumed)
        /\ CrawlLog.type_of e = Classify.classifyPage new_URL (CrawlLog.url_of e))
  /\ (Z.of_nat (length (Crawl.allUrls st)) <= Crawl.count st)%Z
  /\ Forall2 (CrawlLog.file_of new_URL) (Crawl.allUrls st) (Crawl.written st)
  /\ (forall w, w ∈ Crawl.written st ->
        w.1 ∈ ["pages"; "news"; "scholarships"; "grants"]).
Proof.
  intros Hr.
  pose proof (frontier_inv new_URL RESUME MAX_PAGES sitemap navStructure
                open_section click_page) as Hi0.
  pose proof (reaches_inv new_URL RESUME MAX_PAGES sitemap open_section
                click_page scrapePage _ _ Hi0 Hr) as Hi.
  pose proof (reaches_kept _ _ frontier_kept Hr) as [Hp Hm Hs Ht Hw].
  destruct Hi as [_ _ _ Hnd _ Hfresh Hf Hc _].
  split; [eapply sublist_NoDup; eassumption|].
  split.
  { intros e He.
    assert (CrawlLog.url_of e ∈ Crawl.marked st) as Hin.
    { apply (elem_of_sublist _ _ _ (list_elem_of_fmap_2 _ _ _ He) Hs). }
    split; [rewrite Hf; exact Hin|]. split; [apply Hfresh, Hin | auto]. }
  split.
  { rewrite Hc. apply sublist_length in Hs. rewrite length_map in Hs. lia. }
  split; [exact Hw|].
  intros w Hin.
  apply list_elem_of_lookup in Hin as (i & Hi).
  destruct (Forall2_lookup_r _ _ _ _ _ Hw Hi) as (e & _ & (Hd & _)).
  rewrite Hd. unfold Classify.getOutputDir.
  repeat (destruct (String.eqb _ _); [set_solver|]). set_solver.
Qed.

(** X4: the queue is served first in, first out: the URLs pushed so far
    are those already shifted followed by the queue, the pages fetched are
    among the shifted ones in the same order, and the site map lists
    fetched pages in the order of their fetch. *)
Theorem X4_pages_are_fetched_in_queue_order (st : Crawl.state) :
  reaches frontier st ->
  exists shifted,
    Crawl.pushed st = (shifted ++ Crawl.queue st)%list
    /\ sublist (Crawl.fetched st) shifted
    /\ sublist (map CrawlLog.url_of (Crawl.allUrls st)) (Crawl.fetched st).
Proof.
  intros Hr.
  pose proof (frontier_inv new_URL RESUME MAX_PAGES sitemap navStructure
                open_section click_page) as Hi0.
  pose proof (reaches_inv new_URL RESUME MAX_PAGES sitemap open_section
                click_page scrapePage _ _ Hi0 Hr) as [_ _ _ _ _ _ Hf _ _].
  pose proof (reaches_kept _ _ frontier_kept Hr) as [_ (sh & Hq & Hm) Hs _ _].
  exists sh. rewrite Hf. auto.
Qed.

End CrawlLogFacts.


Lemma X3_crawl_stays_on_site_witness :
  Forall (fun u =>
            exists href url,
              Url.path_ctor href (Some Url.BASE_URL) = Some url
              /\ u = Url.origin url
                     +:+ Str.or_else (Str.strip_trailing_slash (Url.pathname url)) "/")
         (Crawl.queue example_frontier).
Proof.
  apply Forall_forall. intros u Hu.
  destruct (X3_crawl_stays_on_site Url.path_ctor true (Crawl.Pages 3)
              (Some Example.existing)
              Example.navStructure Example.open_section Example.click_page
              Example.scrapePage example_frontier (Crawl.reaches_here _ _ _ _)
              u (or_intror Hu))
    as (href & url & H1 & _ & _ & H4).
  exists href, url. split; [exact H1 | exact H4].
Defined.

(* ===================================================================== *)
(** * Where the classifier sends a path *)
(* ===================================================================== *)

Section ClassifyFacts.

Import Regex.

Lemma test_item prefix p :
  test (JsRe true (Cat (lit prefix) Classify.segment) true) p = true
  <-> Shape.item_path prefix p.
Proof.
  rewrite test_whole. unfold Shape.item_path. split.
  - intros (a & seg & -> & ->%lang_lit & Hs%lang_segment)%lang_cat_inv. eauto.
  - intros (seg & -> & Hs). constructor; [apply lang_lit; reflexivity|].
    apply lang_segment, Hs.
Qed.

Lemma test_lit_whole l p : test (JsRe true (lit l) true) p = true <-> p = l.
Proof. rewrite test_whole. apply lang_lit. Qed.

(** A path cannot start in two ways. *)
Ltac clash E := exfalso; cbv in E; discriminate E.

Ltac rule_out H :=
  lazymatch type of H with
  | test (JsRe true (Cat (lit _) Classify.segment) true) _ = true =>
      apply test_item in H as (? & H & _)
  | test (JsRe true (lit _) false) _ = true =>
      apply test_lit_head in H as (? & H)
  | test (JsRe true (lit _) true) _ = true =>
      apply test_lit_whole in H
  end.

Ltac next_rule E :=
  lazymatch goal with
  | |- (if test ?r ?p then _ else _) = _ -> _ => destruct (test r p) eqn:E
  | |- (if test ?r ?p then _ else _) = _ => destruct (test r p) eqn:E
  end.

Ltac skip_rule := let E := fresh "E" in next_rule E; [discriminate|].
Ltac miss_rule := let E := fresh "E" in next_rule E; [rule_out E; clash E|].

Lemma first_match_items p :
  (Classify.first_match Classify.PATTERNS p = "news"
   <-> Shape.item_path "/news/" p)
  /\ (Classify.first_match Classify.PATTERNS p = "scholarship"
      <-> Shape.item_path "/scholarships/" p)
  /\ (Classify.first_match Classify.PATTERNS p = "grant"
      <-> Shape.item_path "/grants/" p).
Proof.
  unfold Classify.PATTERNS.
  cbn [Classify.first_match Classify.pattern Classify.type].
  split; [|split].
  - split.
    + next_rule E1; [intros _; apply test_item, E1|].
      repeat skip_rule. discriminate.
    + intros H%test_item. rewrite H. reflexivity.
  - split.
    + do 2 skip_rule.
      next_rule E3; [intros _; apply test_item, E3|].
      repeat skip_rule. discriminate.
    + intros H. pose proof H as (seg & -> & _). apply test_item in H.
      do 2 miss_rule. rewrite H. reflexivity.
  - split.
    + do 6 skip_rule.
      next_rule E7; [intros _; apply test_item, E7|].
      repeat skip_rule. discriminate.
    + intros H. pose proof H as (seg & -> & _). apply test_item in H.
      do 6 miss_rule. rewrite H. reflexivity.
Qed.

End ClassifyFacts.

(** X7: a URL is classified [news] exactly when its path, without one
    trailing slash, is [/news/] and one more segment; likewise
    [scholarship] for [/scholarships/] and [grant] for [/grants/]. *)
Theorem X7_classifyPage_items (new_URL : Url.ctor) (url : string) :
  (Classify.classifyPage new_URL url = "news"
   <-> Shape.item_path "/news/" (Classify.pathname_of new_URL url))
  /\ (Classify.classifyPage new_URL url = "scholarship"
      <-> Shape.item_path "/scholarships/" (Classify.pathname_of new_URL url))
  /\ (Classify.classifyPage new_URL url = "grant"
      <-> Shape.item_path "/grants/" (Classify.pathname_of new_URL url)).
Proof. apply first_match_items. Qed.

(** X8: the directory of a record follows from the path alone: [news],
    [scholarships] or [grants] exactly for an item path under [/news/],
    [/scholarships/] or [/grants/], and [pages] for every other URL. *)
Theorem X8_output_dir_of_path (new_URL : Url.ctor) (url : string) :
  let p := Classify.pathname_of new_URL url in
  let dir := Classify.getOutputDir (Classify.classifyPage new_URL url) in
  (dir = "news" <-> Shape.item_path "/news/" p)
  /\ (dir = "scholarships" <-> Shape.item_path "/scholarships/" p)
  /\ (dir = "grants" <-> Shape.item_path "/grants/" p)
  /\ (dir = "pages"
      <-> ~ (Shape.item_path "/news/" p \/ Shape.item_path "/scholarships/" p
             \/ Shape.item_path "/grants/" p)).
Proof.
  intros p dir. subst dir. unfold Classify.classifyPage. fold p.
  destruct (first_match_items p) as (Hn & Hs & Hg).
  unfold Classify.getOutputDir.
  set (t := Classify.first_match Classify.PATTERNS p) in *.
  destruct (String.eqb_spec t "news") as [E1|E1].
  { split; [split; [intros _; apply Hn, E1 | reflexivity]|].
    split; [split; [discriminate | intros H%Hs; congruence]|].
    split; [split; [discriminate | intros H%Hg; congruence]|].
    split; [discriminate|]. intros H. exfalso. apply H. left. apply Hn, E1. }
  destruct (String.eqb_spec t "scholarship") as [E2|E2].
  { split; [split; [discriminate | intros H%Hn; congruence]|].
    split; [split; [intros _; apply Hs, E2 | reflexivity]|].
    split; [split; [discriminate | intros H%Hg; congruence]|].
    split; [discriminate|]. intros H. exfalso. apply H. right. left.
    apply Hs, E2. }
  destruct (String.eqb_spec t "grant") as [E3|E3].
  { split; [split; [discriminate | intros H%Hn; congruence]|].
    split; [split; [discriminate | intros H%Hs; congruence]|].
    split; [split; [intros _; apply Hg, E3 | reflexivity]|].
    split; [discriminate|]. intros H. exfalso. apply H. right. right.
    apply Hg, E3. }
  split; [split; [discriminate | intros H%Hn; congruence]|].
  split; [split; [discriminate | intros H%Hs; congruence]|].
  split; [split; [discriminate | intros H%Hg; congruence]|].
  split; [|reflexivity]. intros _ [H%Hn | [H%Hs | H%Hg]]; congruence.
Qed.

(** X9: one slash added at the end of a path that does not end with one
    does not change the type. *)
Theorem X9_classifyPage_trailing_slash (new_URL : Url.ctor) (url url' : string)
    (u u' : Url.URL) :
  new_URL url None = Some u ->
  new_URL url' None = Some u' ->
  Url.pathname u' = Url.pathname u +:+ "/" ->
  (forall q, Url.pathname u <> q +:+ "/") ->
  Classify.classifyPage new_URL url' = Classify.classifyPage new_URL url.
Proof.
  intros Hu Hu' Hp Hno. unfold Classify.classifyPage.
  rewrite (pathname_of_parsed _ _ _ Hu), (pathname_of_parsed _ _ _ Hu').
  rewrite Hp, strip_trailing_slash_app, (strip_trailing_slash_id _ Hno).
  reflexivity.
Qed.

Lemma X9_classifyPage_trailing_slash_witness :
  Classify.classifyPage Url.path_ctor "https://www.thcf.org/news/gala-recap/"
  = Classify.classifyPage Url.path_ctor "https://www.thcf.org/news/gala-recap".
Proof.
  apply (X9_classifyPage_trailing_slash Url.path_ctor
           "https://www.thcf.org/news/gala-recap"
           "https://www.thcf.org/news/gala-recap/"
           (Url.read_path "/news/gala-recap") (Url.read_path "/news/gala-recap/"));
    try reflexivity.
  intros q E.
  assert (Str.strip_trailing_slash (Url.pathname (Url.read_path "/news/gala-recap"))
          = "/news/gala-recap") as H by reflexivity.
  rewrite E, strip_trailing_slash_app in H. subst q. discriminate E.
Defined.

(* ===================================================================== *)
(** * What the extractors put into a record *)
(* ===================================================================== *)

Lemma is_empty_false s : Str.is_empty s = false <-> s <> "".
Proof. destruct s; simpl; split; congruence. Qed.

Lemma is_empty_true s : Str.is_empty s = true <-> s = "".
Proof. destruct s; simpl; split; congruence. Qed.

Section RecordFacts.

Import Dom Extract.

Variable document : forest.
Variable resolve : string -> string.

Lemma omap_id_named {A : Type} (f : located -> option A) (P : A -> Prop) cards :
  (forall c a, f c = Some a -> P a) ->
  Forall P (omap id (map f cards))
  /\ length (omap id (map f cards)) <= length cards.
Proof.
  intros Hf. induction cards as [|c cs [IH1 IH2]]; [split; [constructor | reflexivity]|].
  cbn [map omap]. unfold id at 1. destruct (f c) as [a|] eqn:E.
  - split; [constructor; [eapply Hf, E | exact IH1] |].
    apply le_n_S, IH2.
  - split; [exact IH1 | apply Nat.le_le_succ_r, IH2].
Qed.

(** X10: the staff and the board extractors return, for every document,
    members that all have a name, and no more members than cards. *)
Theorem X10_listings_keep_named_members :
  (exists members body,
      extractStaffListing document resolve = Returned (OfStaff members body)
      /\ Forall (fun m => name m <> "") members
      /\ length members <= length (select staff_cards document))
  /\ (exists members body,
         extractBoardListing document resolve = Returned (OfBoard members body)
         /\ Forall (fun m => d_name m <> "") members
         /\ length members <= length (select board_cards document)).
Proof.
  split.
  - unfold extractStaffListing.
    set (f := fun card =>
                let name := or_str (trimmed (within card name_sel)) "" in
                if Str.is_empty name then None
                else Some (Staff name
                             (or_str (trimmed (within card title_sel)) "")
                             (or_str (get_opt (within card img_sel) (src_of resolve)) "")
                             (or_str (trimmed (within card mailto_sel)) "")
                             (or_str (trimmed (within card tel_sel)) ""))).
    rewrite (each_returned (staff_of resolve) f) by reflexivity.
    assert (forall c a, f c = Some a -> name a <> "") as Hf.
    { intros c a. unfold f. cbv zeta.
      destruct (Str.is_empty _) eqn:E; [discriminate|].
      intros [= <-]. cbn [name]. apply is_empty_false, E. }
    destruct (omap_id_named f _ (select staff_cards document) Hf) as [H1 H2].
    destruct (select staff_cards document) as [|c cs] eqn:Ec;
      cbn [length Nat.ltb Nat.leb bind].
    + eexists _, _. split; [reflexivity|]. split; [constructor | reflexivity].
    + eexists _, _. split; [reflexivity|]. split; [exact H1 | exact H2].
  - unfold extractBoardListing.
    set (f := fun card =>
                let name := or_str (trimmed (within card name_sel)) "" in
                if Str.is_empty name then None
                else Some (Director name
                             (or_str (trimmed (within card title_sel)) "")
                             (or_str (get_opt (within card img_sel) (src_of resolve)) ""))).
    rewrite (each_returned (director_of resolve) f) by reflexivity.
    assert (forall c a, f c = Some a -> d_name a <> "") as Hf.
    { intros c a. unfold f. cbv zeta.
      destruct (Str.is_empty _) eqn:E; [discriminate|].
      intros [= <-]. cbn [d_name]. apply is_empty_false, E. }
    destruct (omap_id_named f _ (select board_cards document) Hf) as [H1 H2].
    destruct (select board_cards document) as [|c cs] eqn:Ec;
      cbn [length Nat.ltb Nat.leb bind].
    + eexists _, _. split; [reflexivity|]. split; [constructor | reflexivity].
    + eexists _, _. split; [reflexivity|]. split; [exact H1 | exact H2].
Qed.

Local Abbreviation label_of el :=
  (Prepare.strip_trailing_colon (Prepare.toLowerCase (Str.trim (textContent el)))).

Lemma value_trimmed (a b : option located) :
  Str.trim (or_str (or_opt (trimmed a) (trimmed b)) "")
  = or_str (or_opt (trimmed a) (trimmed b)) "".
Proof.
  assert (forall s, Str.trim (Str.or_else (Str.trim s) "")
                    = Str.or_else (Str.trim s) "") as Ho.
  { intros s. unfold Str.or_else.
    destruct (Str.is_empty _); [reflexivity | apply trim_idem]. }
  unfold or_str, or_opt, trimmed, get_opt.
  destruct a as [n|], b as [m|]; try reflexivity.
  - destruct (Str.is_empty (Str.trim (textContent n))) eqn:E; [apply Ho|].
    unfold Str.or_else. rewrite E. apply trim_idem.
  - destruct (Str.is_empty (Str.trim (textContent n))) eqn:E; [reflexivity|].
    unfold Str.or_else. rewrite E. apply trim_idem.
  - apply Ho.
Qed.

Lemma add_fields_entries els : forall fields fields',
  add_fields document fields els = Returned fields' ->
  forall k v, fields' !! k = Some v ->
    fields !! k = Some v
    \/ (k <> "" /\ v <> "" /\ Str.trim v = v
        /\ exists el, el ∈ els /\ k = label_of el).
Proof.
  induction els as [|el els IH]; intros fields fields' H k v Hk.
  - cbn [add_fields] in H. injection H as <-. left. exact Hk.
  - cbn [add_fields] in H. unfold add_field in H. cbn [get bind] in H.
    set (value := or_str _ "") in H.
    assert (Str.trim value = value) as Htrim by apply value_trimmed.
    destruct (negb (Str.is_empty value)) eqn:Ev;
      destruct (negb (Str.is_empty (label_of el))) eqn:El;
      cbn [andb] in H;
      try destruct (String.eqb (label_of el) "__proto__");
      cbn [bind] in H;
      destruct (IH _ _ H k v Hk) as [Hin | (? & ? & ? & e & He & ?)];
      try (right; split; [assumption|]; split; [assumption|];
           split; [assumption|]; exists e; split; [right; exact He | assumption]);
      try (left; exact Hin).
    apply lookup_insert_Some in Hin as [[<- <-] | [_ Hin]]; [|left; exact Hin].
    right. apply negb_true_iff in Ev, El.
    split; [apply is_empty_false, El|]. split; [apply is_empty_false, Ev|].
    split; [exact Htrim|]. exists el. split; [left | reflexivity].
Qed.

(** X11: in the record of a scholarship or grant page every entry of
    [fields] has a key that is not empty, the lower-cased text of a label
    element without its final colon, and a value that is not empty and has
    no white space around it. *)
Theorem X11_item_fields_entries :
  exists r,
    extractItem document resolve = Returned r
    /\ forall k v, item_fields r !! k = Some v ->
         k <> "" /\ v <> "" /\ Str.trim v = v
         /\ exists el, el ∈ select label_sel document /\ k = label_of el.
Proof.
  unfold extractItem. rewrite images_of_returned.
  destruct (add_fields_returned document (select label_sel document) ∅)
    as [fields Hf].
  rewrite Hf. cbn [bind]. eexists. split; [reflexivity|].
  cbn [item_fields]. intros k v Hk.
  destruct (add_fields_entries _ _ _ Hf k v Hk) as [H | H]; [|exact H].
  rewrite lookup_empty in H. discriminate.
Qed.

End RecordFacts.

(* ===================================================================== *)
(** * Scholarship records *)
(* ===================================================================== *)

Section ScholarshipFacts.

Import Dom Regex.

(** [/^yes/i] *)
Local Abbreviation says_yes := (JsRe true (lit_ci "yes") false).

(** The flag of a renewable entry is what its text says. *)
Local Abbreviation flag_agrees r :=
  (Prepare.isRenewable r = test says_yes (Prepare.details r)).

Lemma field_of_flag d result strong :
  flag_agrees (Prepare.renewable result) ->
  flag_agrees (Prepare.renewable (Prepare.field_of d result strong)).
Proof.
  intros H. unfold Prepare.field_of, Prepare.deadline_branch.
  repeat match goal with
         | |- context [if ?b then _ else _] => destruct b
         | |- context [match ?o with Some _ => _ | None => _ end] => destruct o
         end;
    cbn [Prepare.renewable Prepare.set_eligibility Prepare.set_amount
         Prepare.set_renewable Prepare.set_deadline Prepare.set_requirements
         Prepare.isRenewable Prepare.details];
    first [exact H | reflexivity].
Qed.

Lemma parser_flag rawBody f :
  Prepare.parseScholarshipFields rawBody = Prepare.Parsed f ->
  flag_agrees (Prepare.renewable f).
Proof.
  unfold Prepare.parseScholarshipFields.
  destruct (Str.is_empty rawBody); [discriminate|].
  destruct (querySelector _ _) as [mainSection|]; [|discriminate].
  cbv zeta. destruct (fold_left Prepare.describe _ _) as [b descParts].
  intros [= <-].
  match goal with
  | |- context [fold_left ?g ?l ?r0] =>
      generalize l; intros l0;
      assert (flag_agrees (Prepare.renewable r0)) as H0 by reflexivity;
      revert H0; generalize r0
  end.
  induction l0 as [|s l0 IH]; intros r0 H0; [exact H0|].
  cbn [fold_left]. apply IH, field_of_flag, H0.
Qed.

Lemma says_yes_iff s :
  test says_yes s = true
  <-> exists y rest, s = y +:+ rest /\ Str.lower_s y = "yes".
Proof.
  rewrite test_head. split.
  - intros (y & rest & -> & Hy%lang_lit_ci). eauto.
  - intros (y & rest & -> & Hy). exists y, rest.
    split; [reflexivity | apply lang_lit_ci, Hy].
Qed.

Lemma parser_empty rawBody :
  Prepare.parseScholarshipFields rawBody = Prepare.EmptyObject
  <-> rawBody = ""
      \/ querySelector Prepare.section_main_content (Html.load rawBody) = None.
Proof.
  unfold Prepare.parseScholarshipFields.
  destruct (Str.is_empty rawBody) eqn:E.
  - apply is_empty_true in E. tauto.
  - apply is_empty_false in E.
    destruct (querySelector _ _) as [mainSection|].
    + cbv zeta. destruct (fold_left Prepare.describe _ _).
      split; [discriminate | intros [? | ?]; congruence].
    + tauto.
Qed.

Variable new_URL : Url.ctor.

(** X12: preparing a scholarship record raises a [TypeError] exactly when
    its body is empty or has no [section.main-content], and returns a
    record otherwise; so the whole list raises exactly when some file has
    such a body. *)
Theorem X12_scholarship_without_main_content_raises (files : list Content.scraped) :
  (forall file,
      Content.scholarship_of new_URL file = Extract.Thrown "TypeError"
      <-> Content.s_body file = ""
          \/ querySelector Prepare.section_main_content
               (Html.load (Content.s_body file)) = None)
  /\ (forall file,
         (exists r, Content.scholarship_of new_URL file = Extract.Returned r)
         \/ Content.scholarship_of new_URL file = Extract.Thrown "TypeError")
  /\ (Content.scholarships_of new_URL files = Extract.Thrown "TypeError"
      <-> exists file, In file files
            /\ (Content.s_body file = ""
                \/ querySelector Prepare.section_main_content
                     (Html.load (Content.s_body file)) = None)).
Proof.
  assert (forall file,
      Content.scholarship_of new_URL file = Extract.Thrown "TypeError"
      <-> Content.s_body file = ""
          \/ querySelector Prepare.section_main_content
               (Html.load (Content.s_body file)) = None) as H1.
  { intros file. rewrite <- parser_empty. unfold Content.scholarship_of.
    destruct (Prepare.parseScholarshipFields _); split;
      first [reflexivity | discriminate]. }
  assert (forall file,
         (exists r, Content.scholarship_of new_URL file = Extract.Returned r)
         \/ Content.scholarship_of new_URL file = Extract.Thrown "TypeError") as H2.
  { intros file. unfold Content.scholarship_of.
    destruct (Prepare.parseScholarshipFields _); [right | left; eexists];
      reflexivity. }
  split; [exact H1|]. split; [exact H2|].
  unfold Content.scholarships_of.
  induction files as [|file files IH].
  - split; [discriminate | intros (? & [] & _)].
  - cbn [Extract.each Extract.bind].
    destruct (H2 file) as [(r & Hr) | Ht].
    + rewrite Hr. cbn [Extract.bind].
      destruct (Extract.each _ files) as [rs | w] eqn:E; cbn [Extract.bind].
      * split; [discriminate|]. intros (f & [<- | Hin] & Hf).
        -- apply H1 in Hf. congruence.
        -- assert (Extract.Returned rs = Extract.Thrown (A:=list Content.scholarship) "TypeError") as C.
           { apply IH. eauto. }
           discriminate C.
      * split.
        -- intros Hw. apply IH in Hw as (f & Hin & Hf). exists f. split; [right|]; assumption.
        -- intros (f & [<- | Hin] & Hf).
           ++ apply H1 in Hf. congruence.
           ++ apply IH. eauto.
    + rewrite Ht. cbn [Extract.bind]. split; [|reflexivity].
      intros _. exists file. split; [left; reflexivity | apply H1, Ht].
Qed.

(** X13: in a prepared scholarship the flag [isRenewable] is set exactly
    when the text [details] starts with [yes] in any case, whether the
    parser or the scraped field gave the text. *)
Theorem X13_renewable_flag_follows_text (file : Content.scraped)
    (r : Content.scholarship) :
  Content.scholarship_of new_URL file = Extract.Returned r ->
  (Prepare.isRenewable (Content.renewable r) = true
   <-> exists y rest,
         Prepare.details (Content.renewable r) = y +:+ rest
         /\ Str.lower_s y = "yes").
Proof.
  intros H. rewrite <- says_yes_iff.
  assert (flag_agrees (Content.renewable r)) as Hf; [|rewrite Hf; reflexivity].
  revert H. unfold Content.scholarship_of.
  destruct (Prepare.parseScholarshipFields _) as [|p] eqn:Ep; [discriminate|].
  intros [= <-]. cbn [Content.renewable].
  destruct (_ && _)%bool; [reflexivity | exact (parser_flag _ _ Ep)].
Qed.

End ScholarshipFacts.

Lemma X13_renewable_flag_follows_text_witness :
  exists r,
    Content.scholarship_of Url.path_ctor
      (Content.Scraped "https://www.thcf.org/scholarships/hope" None None
         Samples.greeting "" "" "" "" ""
         {["renewable" := "Yes, for three years  Apply:"]})
    = Extract.Returned r
    /\ Content.renewable r = Prepare.Renewable true "Yes, for three years"
    /\ exists y rest,
         Prepare.details (Content.renewable r) = y +:+ rest
         /\ Str.lower_s y = "yes".
Proof.
  eexists. split; [vm_compute; reflexivity|]. split; [reflexivity|].
  apply (X13_renewable_flag_follows_text Url.path_ctor
           (Content.Scraped "https://www.thcf.org/scholarships/hope" None None
              Samples.greeting "" "" "" "" ""
              {["renewable" := "Yes, for three years  Apply:"]}));
    [vm_compute; reflexivity | reflexivity].
Defined.

(* ===================================================================== *)
(** * Splitting strings *)
(* ===================================================================== *)

Lemma split_by_cons cut s : exists seg segs, Text.split_by cut s = seg :: segs.
Proof.
  destruct s as [|c s]; [eexists _, _; reflexivity|].
  cbn [Text.split_by]. destruct (Text.split_by cut s) as [|seg segs].
  - eexists _, _; reflexivity.
  - destruct (cut c s); eexists _, _; reflexivity.
Qed.

Lemma split_cons_sep c s : Text.split c (String c s) = "" :: Text.split c s.
Proof.
  unfold Text.split. cbn [Text.split_by].
  destruct (split_by_cons (fun d _ => Ascii.eqb c d) s) as (seg & segs & ->).
  rewrite Ascii.eqb_refl. reflexivity.
Qed.

Lemma split_cons_other c d s seg segs :
  Ascii.eqb c d = false -> Text.split c s = seg :: segs ->
  Text.split c (String d s) = String d seg :: segs.
Proof.
  unfold Text.split. intros Hd E. cbn [Text.split_by]. rewrite E, Hd.
  reflexivity.
Qed.

(** A string without the separator is one segment. *)
Lemma split_whole c s : Str.contains_char c s = false -> Text.split c s = [s].
Proof.
  induction s as [|d s IH]; [reflexivity|].
  cbn [Str.contains_char]. intros [Hd Hs]%orb_false_iff.
  apply (split_cons_other c d s s []); [exact Hd | exact (IH Hs)].
Qed.

(** Splitting at a separator splits the two sides. *)
Lemma split_app c a b :
  Text.split c (a +:+ String c b) = (Text.split c a ++ Text.split c b)%list.
Proof.
  induction a as [|d a IH].
  - rewrite append_nil_l. apply split_cons_sep.
  - rewrite append_cons. destruct (Ascii.eqb c d) eqn:Hd.
    + apply Ascii.eqb_eq in Hd as <-. rewrite !split_cons_sep, IH. reflexivity.
    + destruct (split_by_cons (fun d _ => Ascii.eqb c d) a) as (seg & segs & E).
      fold (Text.split c a) in E.
      rewrite (split_cons_other c d a seg segs Hd E).
      apply split_cons_other; [exact Hd|]. rewrite IH, E. reflexivity.
Qed.

(** No segment holds the separator. *)
Lemma split_segments c s :
  Forall (fun seg => Str.contains_char c seg = false) (Text.split c s).
Proof.
  induction s as [|d s IH]; [repeat constructor|].
  destruct (Ascii.eqb c d) eqn:Hd.
  - apply Ascii.eqb_eq in Hd as <-. rewrite split_cons_sep.
    constructor; [reflexivity | exact IH].
  - destruct (split_by_cons (fun d _ => Ascii.eqb c d) s) as (seg & segs & E).
    fold (Text.split c s) in E.
    rewrite (split_cons_other c d s seg segs Hd E). rewrite E in IH.
    inversion IH as [|? ? H1 H2]; subst. constructor; [|exact H2].
    cbn [Str.contains_char]. rewrite Hd, H1. reflexivity.
Qed.

Lemma split_of_separators c s :
  Str.all (Ascii.eqb c) s = true -> Text.nonempty (Text.split c s) = [].
Proof.
  induction s as [|d s IH]; [reflexivity|].
  cbn [Str.all]. intros [Hd Hs]%andb_true_iff.
  apply Ascii.eqb_eq in Hd as <-. rewrite split_cons_sep.
  unfold Text.nonempty in *. cbn [List.filter Str.is_empty negb]. auto.
Qed.

Lemma nonempty_app l1 l2 :
  Text.nonempty (l1 ++ l2)%list = (Text.nonempty l1 ++ Text.nonempty l2)%list.
Proof. apply List.filter_app. Qed.

Lemma nonempty_Forall P l : Forall P l -> Forall P (Text.nonempty l).
Proof.
  unfold Text.nonempty. induction 1 as [|x l Hx _ IH]; [constructor|].
  cbn [List.filter]. destruct (negb _); [constructor|]; assumption.
Qed.

Lemma last_Forall (P : string -> Prop) l d : P d -> Forall P l -> P (List.last l d).
Proof.
  intros Hd. induction 1 as [|x l Hx Hl IH]; [exact Hd|].
  destruct l; [exact Hx | exact IH].
Qed.

(* ===================================================================== *)
(** * Paths and slugs of the prepared content *)
(* ===================================================================== *)

Section PathFacts.

Variable new_URL : Url.ctor.

Lemma urlToPath_not_empty href : Content.urlToPath new_URL href <> "".
Proof.
  unfold Content.urlToPath.
  destruct (Str.is_empty href) eqn:E; [discriminate|].
  apply is_empty_false in E.
  destruct (new_URL href None) as [u|].
  - destruct (Str.includes _ _).
    + apply or_else_not_empty. discriminate.
    + destruct (Str.startsWith _ _); exact E.
  - destruct (Str.startsWith _ _); exact E.
Qed.

Lemma urlToPath_path s :
  Content.relative_paths_fail new_URL -> String.prefix "/" s = true ->
  Content.urlToPath new_URL s = s.
Proof.
  intros H Hs. unfold Content.urlToPath. rewrite (H s Hs).
  destruct s; [discriminate|]. cbn [Str.is_empty].
  destruct (Str.startsWith _ _); reflexivity.
Qed.

Lemma urlToPath_result href :
  Content.paths_are_rooted new_URL ->
  String.prefix "/" (Content.urlToPath new_URL href) = true
  \/ Content.urlToPath new_URL href = href.
Proof.
  intros H2. unfold Content.urlToPath.
  destruct (Str.is_empty href); [left; reflexivity|].
  destruct (new_URL href None) as [u|] eqn:Eu.
  - destruct (Str.includes _ _) eqn:Ei.
    + destruct (H2 href u Eu Ei) as [-> | Hp]; [left; reflexivity|].
      destruct (Url.pathname u); [discriminate|]. left. exact Hp.
    + right. destruct (Str.startsWith _ _); reflexivity.
  - right. destruct (Str.startsWith _ _); reflexivity.
Qed.

Lemma urlToPath_again href :
  Content.relative_paths_fail new_URL -> Content.paths_are_rooted new_URL ->
  Content.urlToPath new_URL (Content.urlToPath new_URL href)
  = Content.urlToPath new_URL href.
Proof.
  intros H1 H2. destruct (urlToPath_result href H2) as [Hp | Hh].
  - apply urlToPath_path; assumption.
  - rewrite Hh. exact Hh.
Qed.

(** X14: [urlToPath] never gives the empty string, and on a platform
    where a path alone is no URL and the path of a URL with a host is
    empty or rooted, applying it to its own result changes nothing. *)
Theorem X14_urlToPath_settles (href : string) :
  Content.relative_paths_fail new_URL -> Content.paths_are_rooted new_URL ->
  Content.urlToPath new_URL href <> ""
  /\ Content.urlToPath new_URL (Content.urlToPath new_URL href)
     = Content.urlToPath new_URL href.
Proof.
  intros H1 H2. split; [apply urlToPath_not_empty | apply urlToPath_again; assumption].
Qed.

(** X15: the slug of the preparation script holds no slash; when the
    path ends with a segment followed by slashes only, the slug is that
    segment. *)
Theorem X15_slug_is_last_segment (url : string) :
  Str.contains_char "/" (Content.slugFromUrl new_URL url) = false
  /\ forall dir seg tail,
       Content.urlToPath new_URL url = dir +:+ "/" +:+ seg +:+ tail ->
       seg <> "" -> Str.contains_char "/" seg = false ->
       Str.all (Ascii.eqb "/") tail = true ->
       Content.slugFromUrl new_URL url = seg.
Proof.
  unfold Content.slugFromUrl, Text.last_or_empty. split.
  - apply (last_Forall (fun s => Str.contains_char "/" s = false));
      [reflexivity|].
    apply nonempty_Forall, split_segments.
  - intros dir seg tail -> Hne Hseg Htail.
    change (dir +:+ "/" +:+ seg +:+ tail)
      with (dir +:+ String "/" (seg +:+ tail)).
    rewrite split_app, nonempty_app.
    assert (Text.nonempty (Text.split "/" (seg +:+ tail)) = [seg]) as ->.
    { destruct tail as [|c tail].
      - rewrite append_nil_r, (split_whole _ _ Hseg).
        unfold Text.nonempty. cbn [List.filter].
        destruct seg; [congruence | reflexivity].
      - cbn [Str.all] in Htail. apply andb_true_iff in Htail as [Hc Ht].
        apply Ascii.eqb_eq in Hc as <-.
        rewrite split_app, nonempty_app, (split_whole _ _ Hseg),
          (split_of_separators _ _ Ht), app_nil_r.
        unfold Text.nonempty. cbn [List.filter].
        destruct seg; [congruence | reflexivity]. }
    apply List.last_last.
Qed.

End PathFacts.

Lemma prefix_split p : forall s, String.prefix p s = true -> exists r, s = p +:+ r.
Proof.
  induction p as [|c p IH]; intros s H; [exists s; reflexivity|].
  destruct s as [|d s]; [discriminate|]. cbn [String.prefix] in H.
  destruct (ascii_dec c d) as [<-|]; [|discriminate].
  destruct (IH s H) as (r & ->). exists r. reflexivity.
Qed.

Lemma break_at_rooted c s :
  Ascii.eqb c "/" = false ->
  String.prefix "/" (fst (Url.break_at c (String "/" s))) = true.
Proof.
  intros Hc. cbn [Url.break_at]. rewrite Hc.
  destruct (Url.break_at c s) as [a b]. cbn [fst].
  exact (prefix_append "/" a).
Qed.

Lemma path_ctor_relative_paths_fail : Content.relative_paths_fail Url.path_ctor.
Proof. intros s Hs. unfold Url.path_ctor. rewrite Hs. reflexivity. Qed.

Lemma path_ctor_paths_are_rooted : Content.paths_are_rooted Url.path_ctor.
Proof.
  intros s u. unfold Url.path_ctor.
  destruct (String.prefix "/" s); [discriminate|].
  destruct (String.prefix _ s) eqn:Hp; [|discriminate].
  apply prefix_split in Hp as (r & ->). intros [= <-] _. right.
  rewrite append_nil_l. unfold Url.read_path.
  change ("/" +:+ r) with (String "/" r).
  destruct (Url.break_at "#" (String "/" r)) as [rest h] eqn:E1.
  pose proof (break_at_rooted "#" r eq_refl) as H1. rewrite E1 in H1.
  cbn [fst] in H1. destruct rest as [|x rest]; [discriminate|].
  cbn [String.prefix] in H1. destruct (ascii_dec "/" x) as [<-|]; [|discriminate].
  destruct (Url.break_at "?" (String "/" rest)) as [p q] eqn:E2.
  pose proof (break_at_rooted "?" rest eq_refl) as H2. rewrite E2 in H2.
  exact H2.
Qed.

Lemma X14_urlToPath_settles_witness :
  Content.urlToPath Url.path_ctor "https://www.thcf.org/about/contact-us?x=1"
  = "/about/contact-us"
  /\ Content.urlToPath Url.path_ctor
       (Content.urlToPath Url.path_ctor "https://www.thcf.org/about/contact-us?x=1")
     = Content.urlToPath Url.path_ctor "https://www.thcf.org/about/contact-us?x=1".
Proof.
  split; [reflexivity|].
  apply (X14_urlToPath_settles Url.path_ctor
           "https://www.thcf.org/about/contact-us?x=1"
           path_ctor_relative_paths_fail path_ctor_paths_are_rooted).
Defined.

Lemma X15_slug_is_last_segment_witness :
  Content.slugFromUrl Url.path_ctor "https://www.thcf.org/news/2024-annual-report/"
  = "2024-annual-report".
Proof.
  apply (proj2 (X15_slug_is_last_segment Url.path_ctor
                  "https://www.thcf.org/news/2024-annual-report/")
           "/news" "2024-annual-report" "/");
    first [reflexivity | discriminate].
Defined.

(* ===================================================================== *)
(** * Lines, authors and excerpts *)
(* ===================================================================== *)

Lemma contains_char_app c a b :
  Str.contains_char c (a +:+ b)
  = (Str.contains_char c a || Str.contains_char c b)%bool.
Proof.
  induction a as [|d a IH]; [reflexivity|].
  rewrite append_cons. cbn [Str.contains_char]. rewrite IH, orb_assoc.
  reflexivity.
Qed.

Lemma contains_char_trimStart c s :
  Str.contains_char c s = false -> Str.contains_char c (Str.trimStart s) = false.
Proof.
  induction s as [|d s IH]; [reflexivity|].
  intros H. cbn [Str.trimStart]. destruct (Str.is_ws d); [|exact H].
  cbn [Str.contains_char] in H. apply orb_false_iff in H as [_ H]. auto.
Qed.

Lemma contains_char_drop_end_while c p s :
  Str.contains_char c s = false ->
  Str.contains_char c (Str.drop_end_while p s) = false.
Proof.
  induction s as [|d s IH]; [reflexivity|].
  intros H. cbn [Str.drop_end_while]. destruct (Str.all p (String d s)); [reflexivity|].
  cbn [Str.contains_char] in *. apply orb_false_iff in H as [Hd H].
  rewrite Hd, (IH H). reflexivity.
Qed.

Lemma contains_char_trim c s :
  Str.contains_char c s = false -> Str.contains_char c (Str.trim s) = false.
Proof.
  intros H. apply contains_char_drop_end_while, contains_char_trimStart, H.
Qed.

Lemma contains_char_take c n : forall s,
  Str.contains_char c s = false -> Str.contains_char c (Text.take n s) = false.
Proof.
  induction n as [|n IH]; intros [|d s] H; try reflexivity.
  cbn [Text.take Str.contains_char] in *. apply orb_false_iff in H as [Hd H].
  rewrite Hd, (IH s H). reflexivity.
Qed.

Lemma length_take n : forall s, String.length (Text.take n s) <= n.
Proof.
  induction n as [|n IH]; intros [|d s]; cbn [Text.take String.length]; try lia.
  specialize (IH s). lia.
Qed.

Lemma length_take_le n : forall s,
  String.length (Text.take n s) <= String.length s.
Proof.
  induction n as [|n IH]; intros [|d s]; cbn [Text.take String.length]; try lia.
  specialize (IH s). lia.
Qed.

Lemma take_all n : forall s, String.length s <= n -> Text.take n s = s.
Proof.
  induction n as [|n IH]; intros [|d s] H; cbn [String.length] in H;
    try reflexivity; try lia.
  cbn [Text.take]. f_equal. apply IH. lia.
Qed.

Lemma length_trimStart s : String.length (Str.trimStart s) <= String.length s.
Proof.
  induction s as [|d s IH]; [reflexivity|]. cbn [Str.trimStart].
  destruct (Str.is_ws d); cbn [String.length]; lia.
Qed.

Lemma length_drop_end_while p s :
  String.length (Str.drop_end_while p s) <= String.length s.
Proof.
  induction s as [|d s IH]; [reflexivity|]. cbn [Str.drop_end_while].
  destruct (Str.all p (String d s)); cbn [String.length]; lia.
Qed.

Lemma length_trim s : String.length (Str.trim s) <= String.length s.
Proof.
  unfold Str.trim, Str.trimEnd.
  pose proof (length_drop_end_while Str.is_ws (Str.trimStart s)).
  pose proof (length_trimStart s). lia.
Qed.

(** The lines of a text, trimmed, without the blank ones. *)
Local Abbreviation lines_of s :=
  (Text.nonempty (map Str.trim (Text.split Text.newline s))).

Lemma lines_of_no_newline s :
  Forall (fun l => Str.contains_char Text.newline l = false) (lines_of s).
Proof.
  apply nonempty_Forall, Forall_map.
  eapply Forall_impl; [apply split_segments|].
  intros l H. apply contains_char_trim, H.
Qed.

Lemma lines_of_trimmed s : Forall (fun l => Str.trim l = l) (lines_of s).
Proof.
  apply nonempty_Forall, Forall_map, Forall_forall. intros l _. apply trim_idem.
Qed.

Lemma trim_cons_ws w s : Str.is_ws w = true -> Str.trim (String w s) = Str.trim s.
Proof. intros H. unfold Str.trim. cbn [Str.trimStart]. rewrite H. reflexivity. Qed.

(** Blank lines in front of a line do not count. *)
Lemma lines_of_blank line : forall blank,
  Str.all_ws blank = true ->
  Str.contains_char Text.newline line = false ->
  Str.trim line <> "" ->
  lines_of (blank +:+ line) = [Str.trim line].
Proof.
  intros blank Hb Hl Hne. induction blank as [|w b IH].
  - rewrite append_nil_l, (split_whole _ _ Hl). cbn [map].
    unfold Text.nonempty. cbn [List.filter].
    destruct (Str.trim line); [congruence | reflexivity].
  - unfold Str.all_ws in Hb. cbn [Str.all] in Hb.
    apply andb_true_iff in Hb as [Hw Hb]. specialize (IH Hb).
    rewrite append_cons. destruct (Ascii.eqb Text.newline w) eqn:E.
    + apply Ascii.eqb_eq in E as <-. rewrite split_cons_sep. exact IH.
    + destruct (split_by_cons (fun d _ => Ascii.eqb Text.newline d) (b +:+ line))
        as (seg & segs & Es).
      fold (Text.split Text.newline (b +:+ line)) in Es.
      rewrite (split_cons_other _ _ _ seg segs E Es). rewrite Es in IH.
      cbn [map] in *. rewrite (trim_cons_ws _ _ Hw). exact IH.
Qed.

(** X16: [cleanAuthor] gives one line without white space around it: the
    first line of the text that is not blank, trimmed. *)
Theorem X16_cleanAuthor_first_line (author : string) :
  Str.trim (Content.cleanAuthor author) = Content.cleanAuthor author
  /\ Str.contains_char Text.newline (Content.cleanAuthor author) = false
  /\ forall blank line rest,
       author = blank +:+ line +:+ rest ->
       Str.all_ws blank = true ->
       Str.contains_char Text.newline line = false ->
       Str.trim line <> "" ->
       rest = "" \/ (exists r, rest = String Text.newline r) ->
       Content.cleanAuthor author = Str.trim line.
Proof.
  unfold Content.cleanAuthor.
  destruct (Str.is_empty author) eqn:E.
  { split; [reflexivity|]. split; [reflexivity|].
    apply is_empty_true in E. subst author.
    intros blank line rest H _ _ Hne _. exfalso. apply Hne.
    symmetry in H. apply append_eq_nil in H as [_ H].
    apply append_eq_nil in H as [-> _]. reflexivity. }
  split; [|split].
  - pose proof (lines_of_trimmed author) as H. unfold Text.first_or_empty.
    destruct H; [reflexivity | assumption].
  - pose proof (lines_of_no_newline author) as H. unfold Text.first_or_empty.
    destruct H; [reflexivity | assumption].
  - intros blank line rest -> Hb Hl Hne [-> | (r & ->)].
    + rewrite append_nil_r, (lines_of_blank line blank Hb Hl Hne). reflexivity.
    + rewrite <- append_assoc, split_app, map_app, nonempty_app,
        (lines_of_blank line blank Hb Hl Hne).
      reflexivity.
Qed.

Lemma X16_cleanAuthor_first_line_witness :
  Content.cleanAuthor
    (String Text.newline "  " +:+ "Melanie Adkins "
     +:+ String Text.newline "   Director of Marketing")
  = "Melanie Adkins".
Proof.
  apply (proj2 (proj2 (X16_cleanAuthor_first_line
                         (String Text.newline "  " +:+ "Melanie Adkins "
                          +:+ String Text.newline "   Director of Marketing")))
           (String Text.newline "  ") "Melanie Adkins "
           (String Text.newline "   Director of Marketing"));
    first [reflexivity | discriminate | right; eexists; reflexivity].
Defined.

(* ===================================================================== *)
(** * The excerpt of an article *)
(* ===================================================================== *)

Lemma content_lines_Forall (P : string -> Prop) title date category lines :
  forall found, Forall P lines ->
  Forall P (Content.content_lines title date category found lines).
Proof.
  induction lines as [|l lines IH]; intros found H; [constructor|].
  inversion H as [|? ? Hl Hls]; subst. cbn [Content.content_lines].
  destruct (negb found && _)%bool; [apply IH, Hls|].
  destruct (negb found && _)%bool; [apply IH, Hls|].
  destruct (Regex.test Content.stop_share l); [constructor|].
  destruct (Regex.test Content.stop_menu l); [constructor|].
  constructor; [exact Hl | apply IH; exact Hls].
Qed.

Lemma join_no_char c sep l :
  Str.contains_char c sep = false ->
  Forall (fun s => Str.contains_char c s = false) l ->
  Str.contains_char c (Text.join sep l) = false.
Proof.
  intros Hsep. induction 1 as [|s l Hs Hl IH]; [reflexivity|].
  cbn [Text.join]. destruct l as [|s' l]; [exact Hs|].
  rewrite !contains_char_app, Hs, Hsep, IH. reflexivity.
Qed.

Lemma excerpt_of_short (bodyText title date category : string) :
  String.length (Content.excerpt_of bodyText title date category) <= 203
  /\ Str.contains_char Text.newline
       (Content.excerpt_of bodyText title date category) = false
  /\ (String.length (Content.full_text bodyText title date category) <= 200 ->
      Content.excerpt_of bodyText title date category
      = Str.trim (Content.full_text bodyText title date category)).
Proof.
  unfold Content.excerpt_of.
  destruct (Str.is_empty bodyText) eqn:Eb.
  { split; [simpl; lia|]. split; [reflexivity|].
    apply is_empty_true in Eb. subst. intros _. reflexivity. }
  set (fullText := Content.full_text bodyText title date category).
  assert (Str.contains_char Text.newline fullText = false) as Hnl.
  { apply join_no_char; [reflexivity|].
    apply content_lines_Forall, lines_of_no_newline. }
  set (excerpt := Str.trim (Text.take 200 fullText)).
  assert (String.length excerpt <= 200) as Hlen.
  { pose proof (length_trim (Text.take 200 fullText)).
    pose proof (length_take 200 fullText). unfold excerpt. lia. }
  assert (Str.contains_char Text.newline excerpt = false) as Hex.
  { apply contains_char_trim, contains_char_take, Hnl. }
  destruct (Nat.ltb_spec 200 (String.length fullText)) as [Hlong | Hshort].
  - set (cut := match Str.lastIndexOf " " excerpt with
                | Some lastSpace =>
                    if Nat.ltb 150 lastSpace then Text.take lastSpace excerpt
                    else excerpt
                | None => excerpt
                end).
    assert (String.length cut <= 200 /\ Str.contains_char Text.newline cut = false)
      as [Hc1 Hc2].
    { unfold cut. destruct (Str.lastIndexOf " " excerpt) as [i|]; [|auto].
      destruct (Nat.ltb 150 i); [|auto]. split.
      - pose proof (length_take_le i excerpt). lia.
      - apply contains_char_take, Hex. }
    split; [rewrite length_append; change (String.length "...") with 3; lia|].
    split; [rewrite contains_char_app, Hc2; reflexivity | lia].
  - split; [lia|]. split; [exact Hex|]. intros _. unfold excerpt.
    rewrite (take_all 200 fullText Hshort). reflexivity.
Qed.

(** X17: the excerpt of an article is one line of at most 203
    characters, and it is the whole text, trimmed, when that has at most
    200 characters. *)
Theorem X17_excerpt_is_short (new_URL : Url.ctor) (file : Content.scraped) :
  let a := Content.article_of new_URL file in
  let fullText :=
    Content.full_text (Content.s_bodyText file) (Content.a_title a)
      (Content.a_date a) (Content.a_category a) in
  String.length (Content.a_excerpt a) <= 203
  /\ Str.contains_char Text.newline (Content.a_excerpt a) = false
  /\ (String.length fullText <= 200 -> Content.a_excerpt a = Str.trim fullText).
Proof.
  intros a fullText. subst a fullText. unfold Content.article_of.
  cbn [Content.a_excerpt Content.a_title Content.a_date Content.a_category].
  apply excerpt_of_short.
Qed.

(* ===================================================================== *)
(** * The navigation tree *)
(* ===================================================================== *)

Lemma nav_ind_nested (P : Content.nav -> Prop) :
  (forall label href, P (Content.Nav label href None)) ->
  (forall label href l, Forall P l -> P (Content.Nav label href (Some l))) ->
  forall item, P item.
Proof.
  intros H0 H1. fix IH 1. intros [label href [l|]]; [|apply H0].
  apply H1. induction l as [|x l IHl]; constructor; [apply IH | exact IHl].
Qed.

Lemma flat_map_map_ext {A B : Type} (f : A -> list B) (g : A -> A)
    (h : A -> list B) l :
  Forall (fun x => f (g x) = h x) l ->
  flat_map f (map g l) = flat_map h l.
Proof.
  induction 1 as [|x l Hx _ IH]; [reflexivity|].
  cbn [map flat_map]. rewrite Hx, IH. reflexivity.
Qed.

Lemma map_map_fixed {A : Type} (g : A -> A) l :
  Forall (fun x => g (g x) = g x) l -> map g (map g l) = map g l.
Proof.
  induction 1 as [|x l Hx _ IH]; [reflexivity|].
  cbn [map]. rewrite Hx, IH. reflexivity.
Qed.

Section NavFacts.

Variable new_URL : Url.ctor.

(** X18: [cleanNavItem] keeps the labels of the tree in order, sends
    every target through [urlToPath], and on a platform as in X14 cleaning
    a cleaned tree changes nothing. *)
Theorem X18_cleanNavItem_keeps_the_tree (item : Content.nav) :
  Content.relative_paths_fail new_URL -> Content.paths_are_rooted new_URL ->
  Content.labels (Content.cleanNavItem new_URL item) = Content.labels item
  /\ Content.hrefs (Content.cleanNavItem new_URL item)
     = map (Content.urlToPath new_URL) (Content.hrefs item)
  /\ Content.cleanNavItem new_URL (Content.cleanNavItem new_URL item)
     = Content.cleanNavItem new_URL item.
Proof.
  intros H1 H2. induction item as [label href | label href l IH]
    using nav_ind_nested.
  - cbn [Content.cleanNavItem Content.labels Content.hrefs map].
    rewrite (urlToPath_again new_URL href H1 H2). auto.
  - destruct l as [|c cs].
    + cbn [Content.cleanNavItem Content.labels Content.hrefs map flat_map].
      rewrite (urlToPath_again new_URL href H1 H2). auto.
    + cbn [Content.cleanNavItem]. set (l := c :: cs) in *.
      assert (map (Content.cleanNavItem new_URL) l
              = Content.cleanNavItem new_URL c
                :: map (Content.cleanNavItem new_URL) cs) as El by reflexivity.
      split; [|split].
      * cbn [Content.labels]. f_equal.
        apply flat_map_map_ext. eapply Forall_impl; [exact IH|].
        intros x (Hx & _). exact Hx.
      * cbn [Content.hrefs map]. f_equal.
        rewrite (flat_map_map_ext Content.hrefs (Content.cleanNavItem new_URL)
                   (fun x => map (Content.urlToPath new_URL) (Content.hrefs x))).
        -- clear. induction l as [|x l IHl]; [reflexivity|].
           cbn [flat_map]. rewrite map_app, IHl. reflexivity.
        -- eapply Forall_impl; [exact IH|]. intros x (_ & Hx & _). exact Hx.
      * rewrite El. cbn [Content.cleanNavItem]. rewrite <- El.
        rewrite (urlToPath_again new_URL href H1 H2). do 2 f_equal.
        apply map_map_fixed. eapply Forall_impl; [exact IH|].
        intros x (_ & _ & Hx). exact Hx.
Qed.

End NavFacts.

Lemma X18_cleanNavItem_keeps_the_tree_witness :
  Content.cleanNavItem Url.path_ctor
    (Content.Nav "About" "https://www.thcf.org/about"
       (Some [Content.Nav "Staff" "https://www.thcf.org/about/staff#top" None]))
  = Content.Nav "About" "/about" (Some [Content.Nav "Staff" "/about/staff" None])
  /\ Content.labels
       (Content.cleanNavItem Url.path_ctor
          (Content.Nav "About" "https://www.thcf.org/about"
             (Some [Content.Nav "Staff" "https://www.thcf.org/about/staff#top" None])))
     = ["About"; "Staff"].
Proof.
  split; [reflexivity|].
  apply (proj1 (X18_cleanNavItem_keeps_the_tree Url.path_ctor
                  (Content.Nav "About" "https://www.thcf.org/about"
                     (Some [Content.Nav "Staff"
                              "https://www.thcf.org/about/staff#top" None]))
                  path_ctor_relative_paths_fail path_ctor_paths_are_rooted)).
Defined.

(* ===================================================================== *)
(** * File names of downloaded images *)
(* ===================================================================== *)

Lemma slashes_to_underscores_no_slash s :
  Str.contains_char "/" (Images.slashes_to_underscores s) = false.
Proof.
  induction s as [|c s IH]; [reflexivity|].
  cbn [Images.slashes_to_underscores]. destruct (Ascii.eqb c "/") eqn:E.
  - cbn [Str.contains_char]. rewrite IH. reflexivity.
  - cbn [Str.contains_char]. rewrite IH, Ascii.eqb_sym, E. reflexivity.
Qed.

(** X20: with an [extname] that gives no slash for a name without one,
    [sanitizeFilename] gives a name that is not empty and holds no slash,
    and [unknown] for a URL that does not parse. *)
Theorem X20_sanitizeFilename_is_a_file_name (new_URL : Url.ctor)
    (extname : string -> string) (url : string) :
  (forall name, Str.contains_char "/" name = false ->
                Str.contains_char "/" (extname name) = false) ->
  Images.sanitizeFilename new_URL extname url <> ""
  /\ Str.contains_char "/" (Images.sanitizeFilename new_URL extname url) = false
  /\ (new_URL url None = None ->
      Images.sanitizeFilename new_URL extname url = "unknown").
Proof.
  intros Hext. unfold Images.sanitizeFilename.
  destruct (new_URL url None) as [parsed|]; [|repeat split; discriminate].
  set (name := Images.slashes_to_underscores _).
  assert (Str.contains_char "/" name = false) as Hname
    by apply slashes_to_underscores_no_slash.
  split; [apply or_else_not_empty; discriminate|].
  split; [|discriminate].
  unfold Str.or_else. destruct (Str.is_empty _) eqn:E; [reflexivity|].
  destruct (Nat.ltb 200 (String.length name)); [|exact Hname].
  rewrite contains_char_app, (contains_char_take _ _ _ Hname), (Hext _ Hname).
  reflexivity.
Qed.

Lemma from_last_dot_no_char c s :
  Str.contains_char c s = false ->
  Str.contains_char c (default "" (Images.from_last_dot s)) = false.
Proof.
  induction s as [|d s IH]; [reflexivity|].
  intros H. pose proof H as H'. cbn [Str.contains_char] in H'.
  apply orb_false_iff in H' as [_ Hs]. specialize (IH Hs).
  cbn [Images.from_last_dot]. destruct (Images.from_last_dot s) as [e|].
  - exact IH.
  - destruct (Ascii.eqb d "."); [exact H | reflexivity].
Qed.

Lemma extname_no_slash name :
  Str.contains_char "/" name = false ->
  Str.contains_char "/" (Images.extname name) = false.
Proof.
  destruct name as [|c s]; [reflexivity|]. unfold Images.extname.
  destruct (String.eqb _ _); [reflexivity|]. cbn [Str.contains_char].
  intros [_ H]%orb_false_iff. apply from_last_dot_no_char, H.
Qed.

Lemma X20_sanitizeFilename_is_a_file_name_witness :
  Images.sanitizeFilename Url.path_ctor Images.extname
    "https://www.thcf.org/uploads/2024/gala.jpg?w=200"
  = "uploads__2024__gala.jpg"
  /\ Str.contains_char "/"
       (Images.sanitizeFilename Url.path_ctor Images.extname
          "https://www.thcf.org/uploads/2024/gala.jpg?w=200") = false.
Proof.
  split; [reflexivity|].
  apply (X20_sanitizeFilename_is_a_file_name Url.path_ctor Images.extname
           "https://www.thcf.org/uploads/2024/gala.jpg?w=200" extname_no_slash).
Defined.

(* ===================================================================== *)
(** * The upload loop *)
(* ===================================================================== *)

Section UploadFacts.

Import Upload.

Variable extname : string -> string.
Variable basename : string -> string.
Variable pathExists : string -> bool.
Variable put : string -> string -> string -> bool.
Variable writeJson : nat -> gmap string string -> bool.

Local Abbreviation upload_entry :=
  (Upload.upload_entry extname basename pathExists put writeJson).
Local Abbreviation run := (Upload.run extname basename pathExists put writeJson).
Local Abbreviation counted t := (uploaded t + skipped t + failed t).

Lemma truthy_at_insert m k v k' :
  v <> "" -> Obj.truthy_at m k' = true -> Obj.truthy_at (<[k := v]> m) k' = true.
Proof.
  intros Hv H. unfold Obj.truthy_at in *.
  destruct (decide (k = k')) as [<- | Hne].
  - rewrite lookup_insert_eq. destruct v; [congruence | reflexivity].
  - rewrite lookup_insert_ne by exact Hne. exact H.
Qed.

(** What a turn of the loop does to the counters and to the map: it counts
    the entry once, or twice when the save after a tenth upload raises. *)
Lemma upload_entry_step t e :
  let t' := upload_entry t e in
  (counted t' = S (counted t)
   \/ (counted t' = S (S (counted t))
       /\ uploaded t' = S (uploaded t) /\ uploaded t' mod 10 = 0
       /\ failed t' = S (failed t)
       /\ writeJson (uploaded t') (r2Map t') = false))
  /\ (forall k, Obj.truthy_at (r2Map t) k = true ->
        Obj.truthy_at (r2Map t') k = true /\ r2Map t' !! k = r2Map t !! k)
  /\ (uploaded t' = S (uploaded t) ->
      Obj.truthy_at (r2Map t) e.1 = false
      /\ r2Map t' = <[e.1 := "images/" +:+ basename e.2]> (r2Map t))
  /\ (uploaded t' = uploaded t -> r2Map t' = r2Map t)
  /\ (failed t' = failed t -> Obj.truthy_at (r2Map t') e.1 = true)
  /\ uploaded t <= uploaded t' /\ failed t <= failed t'
  /\ skipped t <= skipped t'.
Proof.
  destruct e as [originalUrl localPath]. unfold Upload.upload_entry. cbn [fst snd].
  destruct (Obj.truthy_at (r2Map t) originalUrl) eqn:Et;
    [cbn [uploaded skipped failed r2Map]; repeat split; auto; lia|].
  destruct (pathExists localPath);
    cbn [negb uploaded skipped failed r2Map];
    [|repeat split; auto; lia].
  destruct (put _ _ _); cbn [uploaded skipped failed r2Map];
    [|repeat split; auto; lia].
  cbv zeta.
  assert (forall k, Obj.truthy_at (r2Map t) k = true ->
            Obj.truthy_at (<[originalUrl := "images/" +:+ basename localPath]>
                             (r2Map t)) k = true
            /\ <[originalUrl := "images/" +:+ basename localPath]> (r2Map t) !! k
               = r2Map t !! k) as Hkeep.
  { intros k Hk. split; [apply truthy_at_insert; [discriminate | exact Hk]|].
    apply lookup_insert_ne. intros <-. congruence. }
  assert (Obj.truthy_at (<[originalUrl := "images/" +:+ basename localPath]>
                           (r2Map t)) originalUrl = true) as Hnow.
  { unfold Obj.truthy_at. rewrite lookup_insert_eq. reflexivity. }
  destruct (Nat.eqb (S (uploaded t) mod 10) 0) eqn:Eten;
    [destruct (writeJson _ _) eqn:Esave|];
    cbn [negb andb uploaded skipped failed r2Map].
  - split; [left; lia|]. split; [exact Hkeep|]. split; [auto|].
    split; [lia|]. split; [auto|]. lia.
  - apply Nat.eqb_eq in Eten.
    split; [right; repeat split; (lia || assumption)|].
    split; [exact Hkeep|]. split; [auto|]. split; [lia|]. split; [lia|]. lia.
  - split; [left; lia|]. split; [exact Hkeep|]. split; [auto|].
    split; [lia|]. split; [auto|]. lia.
Qed.

(** A tenth upload moves the number of tens up by one. *)
Lemma tenth_upload u : S u mod 10 = 0 -> S u / 10 = S (u / 10).
Proof.
  intros H.
  pose proof (Nat.Div0.div_mod (S u) 10) as H1.
  pose proof (Nat.Div0.div_mod u 10) as H2.
  pose proof (Nat.mod_upper_bound u 10 ltac:(lia)) as H3.
  lia.
Qed.

Lemma fold_upload entries : forall t,
  let t' := fold_left upload_entry entries t in
  counted t + length entries <= counted t'
  /\ counted t' + uploaded t / 10
     <= counted t + length entries + uploaded t' / 10
  /\ ((forall n m, writeJson n m = true) ->
      counted t' = counted t + length entries)
  /\ (forall k, Obj.truthy_at (r2Map t) k = true ->
        Obj.truthy_at (r2Map t') k = true /\ r2Map t' !! k = r2Map t !! k)
  /\ (failed t' = failed t ->
      counted t' = counted t + length entries
      /\ forall e, e ∈ entries -> Obj.truthy_at (r2Map t') e.1 = true)
  /\ (uploaded t' = uploaded t -> r2Map t' = r2Map t)
  /\ uploaded t <= uploaded t' /\ failed t <= failed t'.
Proof.
  induction entries as [|e entries IH]; intros t; cbn [fold_left length].
  { repeat split; auto; try lia. intros e He. inversion He. }
  destruct (upload_entry_step t e) as (Hc & Hk & _ & Hsame & Hf & Hu1 & Hf1 & _).
  destruct (IH (upload_entry t e))
    as (Hlo' & Hhi' & Hall' & Hk' & Hf' & Hsame' & Hu2 & Hf2).
  cbv zeta in *.
  pose proof (Nat.Div0.div_le_mono _ _ 10 Hu1) as Hdiv.
  split; [destruct Hc as [Hc | (Hc & _)]; lia|]. split.
  { destruct Hc as [Hc | (Hc & Hu & Hten & _)]; [lia|].
    rewrite Hu in Hten. apply tenth_upload in Hten. rewrite <- Hu in Hten. lia. }
  split.
  { intros Hw. specialize (Hall' Hw).
    destruct Hc as [Hc | (_ & _ & _ & _ & Hno)]; [lia|].
    rewrite Hw in Hno. discriminate. }
  split.
  { intros k H. destruct (Hk k H) as [H1 H2]. destruct (Hk' k H1) as [H3 H4].
    split; [exact H3 | congruence]. }
  split.
  { intros Hfail.
    destruct Hf' as [Hcount Hin']; [lia|].
    split; [destruct Hc as [Hc | (_ & _ & _ & Hmore & _)]; lia|].
    intros e' [-> | Hin]%elem_of_cons.
    - apply Hk'. apply Hf. lia.
    - apply Hin', Hin. }
  split; [|lia].
  intros Hup. rewrite Hsame', Hsame; [reflexivity | lia | lia].
Qed.

(** A turn over the entries that the map already has only counts them. *)
Lemma all_skipped (pathExists' : string -> bool)
    (put' : string -> string -> string -> bool)
    (writeJson' : nat -> gmap string string -> bool) entries : forall t,
  (forall e, e ∈ entries -> Obj.truthy_at (r2Map t) e.1 = true) ->
  fold_left (Upload.upload_entry extname basename pathExists' put' writeJson')
    entries t
  = Tally (r2Map t) (uploaded t) (skipped t + length entries) (failed t).
Proof.
  induction entries as [|e entries IH]; intros t H; cbn [fold_left length].
  { destruct t. cbn [r2Map uploaded skipped failed]. rewrite Nat.add_0_r.
    reflexivity. }
  assert (Upload.upload_entry extname basename pathExists' put' writeJson' t e
          = Tally (r2Map t) (uploaded t) (S (skipped t)) (failed t)) as ->.
  { destruct e as [originalUrl localPath]. unfold Upload.upload_entry.
    pose proof (H (originalUrl, localPath) (list_elem_of_here _ _)) as Ht.
    cbn [fst] in Ht. rewrite Ht. reflexivity. }
  rewrite IH.
  - cbn [r2Map uploaded skipped failed]. f_equal. lia.
  - intros e' He'. cbn [r2Map]. apply H. apply list_elem_of_further, He'.
Qed.

(** X21: the upload loop counts every entry as uploaded, skipped or failed.
    It counts an entry twice, as uploaded and as failed, only when the save
    made after every tenth upload raises: the three counters add up to the
    number of entries at least, to that number and a tenth of the number
    uploaded at most, and to the number of entries when no save raises or
    when nothing failed.  The loop leaves the keys that were uploaded before
    as they are, and after a run without failure every entry is in the
    map. *)
Theorem X21_upload_counts_every_entry (entries : list (string * string))
    (r2Map0 : gmap string string) :
  let t := run entries r2Map0 in
  length entries <= uploaded t + skipped t + failed t
  /\ uploaded t + skipped t + failed t <= length entries + uploaded t / 10
  /\ ((forall n m, writeJson n m = true) ->
      uploaded t + skipped t + failed t = length entries)
  /\ (forall k, Obj.truthy_at r2Map0 k = true ->
        r2Map t !! k = r2Map0 !! k)
  /\ (failed t = 0 ->
      uploaded t + skipped t + failed t = length entries
      /\ forall e, e ∈ entries -> Obj.truthy_at (r2Map t) e.1 = true).
Proof.
  intros t. subst t. unfold Upload.run.
  destruct (fold_upload entries (Tally r2Map0 0 0 0))
    as (Hlo & Hhi & Hall & Hk & Hf & _).
  cbv zeta in *. cbn [uploaded skipped failed r2Map] in *.
  change (0 / 10) with 0 in Hhi.
  split; [lia|]. split; [lia|]. split; [intros Hw; rewrite Hall by exact Hw; lia|].
  split; [intros k H; apply Hk, H|].
  intros H0. destruct (Hf H0) as [H1 H2]. split; [lia | exact H2].
Qed.

(** X22: after a run without failure, a second run over the same entries
    uploads nothing and fails nothing, whatever the files and the network
    do: it skips every entry and leaves the map as it is. *)
Theorem X22_upload_again_uploads_nothing (entries : list (string * string))
    (r2Map0 : gmap string string)
    (pathExists' : string -> bool) (put' : string -> string -> string -> bool)
    (writeJson' : nat -> gmap string string -> bool) :
  failed (run entries r2Map0) = 0 ->
  let again :=
    Upload.run extname basename pathExists' put' writeJson' entries
      (r2Map (run entries r2Map0)) in
  uploaded again = 0 /\ failed again = 0
  /\ skipped again = length entries
  /\ r2Map again = r2Map (run entries r2Map0).
Proof.
  intros Hf again.
  assert (forall e, e ∈ entries ->
            Obj.truthy_at (r2Map (run entries r2Map0)) e.1 = true) as Hall.
  { unfold Upload.run in *.
    destruct (fold_upload entries (Tally r2Map0 0 0 0)) as (_ & _ & _ & _ & H & _).
    apply H. exact Hf. }
  subst again. set (R := r2Map (run entries r2Map0)) in *.
  assert (Upload.run extname basename pathExists' put' writeJson' entries R
          = Tally R 0 (length entries) 0) as ->.
  { unfold Upload.run. rewrite all_skipped by exact Hall. reflexivity. }
  cbn [uploaded skipped failed r2Map].
  split; [reflexivity|]. split; [reflexivity|]. split; reflexivity.
Qed.

End UploadFacts.

(** Ten files, each uploaded; the save after the tenth raises. *)
Local Abbreviation ten_entries :=
  [ ("a", "a.png"); ("b", "b.png"); ("c", "c.png"); ("d", "d.png");
    ("e", "e.png"); ("f", "f.png"); ("g", "g.png"); ("h", "h.png");
    ("i", "i.png"); ("j", "j.png") ].
Local Abbreviation ten_uploads :=
  (Upload.run Images.extname Images.basename (fun _ => true)
     (fun _ _ _ => true) (fun _ _ => false) ten_entries ∅).

Lemma X21_upload_counts_every_entry_witness :
  (Upload.uploaded ten_uploads, Upload.skipped ten_uploads,
   Upload.failed ten_uploads) = (10, 0, 1)
  /\ Upload.uploaded ten_uploads + Upload.skipped ten_uploads
     + Upload.failed ten_uploads
     <= length ten_entries + Upload.uploaded ten_uploads / 10.
Proof.
  split; [vm_compute; reflexivity|].
  apply (X21_upload_counts_every_entry Images.extname Images.basename
           (fun _ => true) (fun _ _ _ => true) (fun _ _ => false)).
Defined.

Lemma X22_upload_again_uploads_nothing_witness :
  Upload.skipped
    (Upload.run Images.extname Images.basename (fun _ => false)
       (fun _ _ _ => false) (fun _ _ => false)
       [("https://www.thcf.org/img/a.png", "images/img__a.png")]
       (Upload.r2Map
          (Upload.run Images.extname Images.basename (fun _ => true)
             (fun _ _ _ => true) (fun _ _ => true)
             [("https://www.thcf.org/img/a.png", "images/img__a.png")] ∅)))
  = 1.
Proof.
  apply (X22_upload_again_uploads_nothing Images.extname Images.basename
           (fun _ => true) (fun _ _ _ => true) (fun _ _ => true)
           [("https://www.thcf.org/img/a.png", "images/img__a.png")] ∅
           (fun _ => false) (fun _ _ _ => false) (fun _ _ => false)).
  vm_compute. reflexivity.
Defined.

(* ===================================================================== *)
(** * The title of a page *)
(* ===================================================================== *)

Lemma append_inv_tail c : forall a b, a +:+ c = b +:+ c -> a = b.
Proof.
  induction a as [|x a IH]; intros [|y b] H.
  - reflexivity.
  - exfalso. apply (f_equal String.length) in H.
    rewrite append_nil_l, length_append in H. cbn [String.length] in H. lia.
  - exfalso. apply (f_equal String.length) in H.
    rewrite append_nil_l, length_append in H. cbn [String.length] in H. lia.
  - rewrite !append_cons in H. injection H as -> H. f_equal. apply IH, H.
Qed.

Lemma drop_end_while_all p s :
  Str.all p s = true -> Str.drop_end_while p s = "".
Proof. destruct s; [reflexivity|]. intros H. cbn [Str.drop_end_while]. rewrite H. reflexivity. Qed.

Section TitleFacts.

Import Regex.

Lemma lang_opt_bar c : lang (opt (chr "|")) c <-> c = "" \/ c = "|".
Proof.
  unfold opt, chr. split.
  - intros [H|H]%lang_alt_inv.
    + apply lang_sym_inv in H as (d & -> & Hd).
      apply Ascii.eqb_eq in Hd. subst. auto.
    + apply lang_eps_inv in H. auto.
  - intros [-> | ->]; [apply lang_alt_r; constructor|].
    apply lang_alt_l. constructor. reflexivity.
Qed.

(** A word of the site suffix: white space, a bar or none, white space,
    the name of the site in any case, white space. *)
Lemma lang_site_suffix s :
  lang Content.site_suffix s
  <-> exists x1 c x2 n x3,
        s = x1 +:+ c +:+ x2 +:+ n +:+ x3
        /\ Str.all_ws x1 = true /\ (c = "" \/ c = "|")
        /\ Str.all_ws x2 = true
        /\ Str.lower_s n = Str.lower_s Content.site_name
        /\ Str.all_ws x3 = true.
Proof.
  unfold Content.site_suffix. split.
  - intros (x1 & s1 & -> & Hx1 & H)%lang_cat_inv.
    apply lang_cat_inv in H as (c & s2 & -> & Hc & H).
    apply lang_cat_inv in H as (x2 & s3 & -> & Hx2 & H).
    apply lang_cat_inv in H as (n & x3 & -> & Hn & Hx3).
    exists x1, c, x2, n, x3. split; [reflexivity|].
    split; [apply lang_star_ws, Hx1|]. split; [apply lang_opt_bar, Hc|].
    split; [apply lang_star_ws, Hx2|]. split; [apply lang_lit_ci, Hn|].
    apply lang_star_ws, Hx3.
  - intros (x1 & c & x2 & n & x3 & -> & Hx1 & Hc & Hx2 & Hn & Hx3).
    constructor; [apply lang_star_ws, Hx1|].
    constructor; [apply lang_opt_bar, Hc|].
    constructor; [apply lang_star_ws, Hx2|].
    constructor; [apply lang_lit_ci, Hn | apply lang_star_ws, Hx3].
Qed.

(** Lower case of a text that ends with the name of the site, without the
    white space after the name. *)
Lemma before_site_name a n x3 :
  Str.lower_s n = Str.lower_s Content.site_name -> Str.all_ws x3 = true ->
  Str.drop_end_while Str.is_ws (Str.lower_s (a +:+ n +:+ x3))
  = Str.lower_s a +:+ Str.lower_s Content.site_name.
Proof.
  intros Hn Hx3. rewrite !lower_s_app, Hn, <- append_assoc.
  rewrite drop_end_while_app_all
    by (fold (Str.all_ws (Str.lower_s x3)); rewrite all_ws_lower_s; exact Hx3).
  rewrite drop_end_while_app_keep by reflexivity. reflexivity.
Qed.

(** The site suffix stands at one place only: what comes before a bar and
    the name, and still belongs to the suffix, is white space. *)
Lemma site_suffix_once x w1 w2 n w3 :
  Str.all_ws w1 = true -> Str.all_ws w2 = true ->
  Str.lower_s n = Str.lower_s Content.site_name -> Str.all_ws w3 = true ->
  lang Content.site_suffix (x +:+ w1 +:+ "|" +:+ w2 +:+ n +:+ w3) ->
  Str.all_ws x = true.
Proof.
  intros Hw1 Hw2 Hn Hw3
    (x1 & c & x2 & n' & x3 & E & Hx1 & Hc & Hx2 & Hn' & Hx3)%lang_site_suffix.
  apply (f_equal (fun s => Str.drop_end_while Str.is_ws (Str.lower_s s))) in E.
  replace (x +:+ w1 +:+ "|" +:+ w2 +:+ n +:+ w3)
    with ((x +:+ w1 +:+ "|" +:+ w2) +:+ n +:+ w3) in E
    by (rewrite !append_assoc; reflexivity).
  replace (x1 +:+ c +:+ x2 +:+ n' +:+ x3)
    with ((x1 +:+ c +:+ x2) +:+ n' +:+ x3) in E
    by (rewrite !append_assoc; reflexivity).
  rewrite !before_site_name in E by assumption.
  apply append_inv_tail in E.
  apply (f_equal (Str.drop_end_while Str.is_ws)) in E.
  rewrite !lower_s_app in E.
  replace (Str.lower_s x +:+ Str.lower_s w1 +:+ Str.lower_s "|" +:+ Str.lower_s w2)
    with (((Str.lower_s x +:+ Str.lower_s w1) +:+ "|") +:+ Str.lower_s w2) in E
    by (rewrite !append_assoc; reflexivity).
  rewrite drop_end_while_app_all in E
    by (fold (Str.all_ws (Str.lower_s w2)); rewrite all_ws_lower_s; exact Hw2).
  rewrite drop_end_while_app_keep in E by reflexivity.
  change (Str.drop_end_while Str.is_ws "|") with "|" in E.
  assert (Str.all Str.is_ws (Str.lower_s x1) = true) as Hl1
    by (fold (Str.all_ws (Str.lower_s x1)); rewrite all_ws_lower_s; exact Hx1).
  assert (Str.all Str.is_ws (Str.lower_s x2) = true) as Hl2
    by (fold (Str.all_ws (Str.lower_s x2)); rewrite all_ws_lower_s; exact Hx2).
  destruct Hc as [-> | ->].
  - exfalso. rewrite append_nil_l in E.
    rewrite drop_end_while_all in E by (rewrite all_app, Hl1, Hl2; reflexivity).
    apply append_eq_nil in E as [_ E]. discriminate E.
  - replace (Str.lower_s x1 +:+ Str.lower_s "|" +:+ Str.lower_s x2)
      with ((Str.lower_s x1 +:+ "|") +:+ Str.lower_s x2) in E
      by (rewrite !append_assoc; reflexivity).
    rewrite drop_end_while_app_all in E by exact Hl2.
    rewrite drop_end_while_app_keep in E by reflexivity.
    change (Str.drop_end_while Str.is_ws "|") with "|" in E.
    apply append_inv_tail in E.
    assert (Str.all Str.is_ws (Str.lower_s x +:+ Str.lower_s w1) = true) as H
      by (rewrite E; exact Hl1).
    rewrite all_app in H. apply andb_true_iff in H as [H _].
    rewrite <- all_ws_lower_s. exact H.
Qed.

(** No code unit below 256 is the ellipsis: the second [replace] of
    [cleanMetaTitle] leaves a string of such code units as it is. *)
Lemma no_ellipsis s : remove_at_end Content.ellipsis s = s.
Proof.
  apply remove_at_end_none. intros a b _.
  destruct (matches Content.ellipsis b) eqn:E; [|reflexivity].
  apply matches_lang in E. apply lang_sym_inv in E as (c & _ & Hc).
  apply N.eqb_eq in Hc. pose proof (N_ascii_bounded c). lia.
Qed.

(** X19: a title of code units below 256 followed by a bar and the name of
    the site, in any case and with any white space around them, is cleaned
    to the title, trimmed.  (The character U+2026, which the function also
    takes from the end, is none of these code units.) *)
Theorem X19_cleanMetaTitle_strips_the_site_suffix (title w1 w2 n w3 : string) :
  Str.all_ws w1 = true -> Str.all_ws w2 = true ->
  Str.lower_s n = Str.lower_s Content.site_name -> Str.all_ws w3 = true ->
  Content.cleanMetaTitle (Some (title +:+ w1 +:+ "|" +:+ w2 +:+ n +:+ w3))
  = Str.trim title.
Proof.
  intros Hw1 Hw2 Hn Hw3. unfold Content.cleanMetaTitle.
  set (tail := w1 +:+ "|" +:+ w2 +:+ n +:+ w3).
  assert (Str.is_empty (title +:+ tail) = false) as ->.
  { apply is_empty_false. apply append_not_empty. unfold tail.
    apply append_not_empty. discriminate. }
  assert (matches Content.site_suffix tail = true) as Hm.
  { apply matches_lang, lang_site_suffix.
    exists w1, "|", w2, n, w3. unfold tail. auto 10. }
  destruct (remove_at_end_split _ _ Hm title) as (kept & x & -> & -> & Hx).
  apply matches_lang in Hx. rewrite no_ellipsis.
  rewrite (trim_app_ws kept x); [reflexivity|].
  exact (site_suffix_once x w1 w2 n w3 Hw1 Hw2 Hn Hw3 Hx).
Qed.

End TitleFacts.

Lemma X19_cleanMetaTitle_strips_the_site_suffix_witness :
  Content.cleanMetaTitle
    (Some ("Annual Report 2024" +:+ " " +:+ "|" +:+ " "
           +:+ "TRUMAN Heartland Community Foundation" +:+ ""))
  = "Annual Report 2024".
Proof.
  apply (X19_cleanMetaTitle_strips_the_site_suffix "Annual Report 2024" " " " "
           "TRUMAN Heartland Community Foundation" "");
    reflexivity.
Defined.

(* ===================================================================== *)
(** * Two pages, one storage key *)
(* ===================================================================== *)

Lemma slashes_to_dashes_app a b :
  Str.slashes_to_dashes (a +:+ b)
  = Str.slashes_to_dashes a +:+ Str.slashes_to_dashes b.
Proof.
  induction a as [|c a IH]; [reflexivity|].
  rewrite append_cons. cbn [Str.slashes_to_dashes].
  destruct (Ascii.eqb c "/"); rewrite IH; reflexivity.
Qed.

Lemma no_trailing_slash_app x b :
  b <> "" -> (forall q, b <> q +:+ "/") -> forall q, x +:+ b <> q +:+ "/".
Proof.
  intros Hb Hno. induction x as [|c x IH]; intros q.
  - rewrite append_nil_l. apply Hno.
  - rewrite append_cons. destruct q as [|d q].
    + rewrite append_nil_l. intros [= _ H].
      apply append_eq_nil in H as [_ H]. contradiction.
    + rewrite append_cons. intros [= _ H]. exact (IH q H).
Qed.

Lemma slug_of_rooted_path rest :
  rest <> "" -> (forall q, rest <> q +:+ "/") ->
  Url.slug_of_pathname (String "/" rest)
  = Str.or_else (Str.slashes_to_dashes rest) "index".
Proof.
  intros Hne Hno. unfold Url.slug_of_pathname.
  rewrite strip_trailing_slash_id.
  - reflexivity.
  - change (String "/" rest) with ("/" +:+ rest).
    apply no_trailing_slash_app; assumption.
Qed.

(** X6: the storage key does not tell all pages apart: two URLs whose
    paths are [/a/b] and [/a--b] have different paths and the same slug. *)
Theorem X6_storage_keys_collide (new_URL : Url.ctor) (url1 url2 : string)
    (u1 u2 : Url.URL) (a b : string) :
  new_URL url1 None = Some u1 ->
  new_URL url2 None = Some u2 ->
  Url.pathname u1 = "/" +:+ a +:+ "/" +:+ b ->
  Url.pathname u2 = "/" +:+ a +:+ "--" +:+ b ->
  b <> "" -> (forall q, b <> q +:+ "/") ->
  Url.pathname u1 <> Url.pathname u2
  /\ Url.slugFromUrl new_URL url1 = Url.slugFromUrl new_URL url2.
Proof.
  intros H1 H2 P1 P2 Hb Hno. split.
  - rewrite P1, P2. intros E. apply append_inv_head, append_inv_head in E.
    apply (f_equal String.length) in E. rewrite !length_append in E.
    cbn [String.length] in E. lia.
  - unfold Url.slugFromUrl. rewrite H1, H2, P1, P2. f_equal.
    change ("/" +:+ a +:+ "/" +:+ b) with (String "/" (a +:+ "/" +:+ b)).
    change ("/" +:+ a +:+ "--" +:+ b) with (String "/" (a +:+ "--" +:+ b)).
    rewrite !slug_of_rooted_path.
    + rewrite !slashes_to_dashes_app. reflexivity.
    + apply append_not_empty, append_not_empty, Hb.
    + intros q. rewrite <- append_assoc.
      apply no_trailing_slash_app; assumption.
    + apply append_not_empty, append_not_empty, Hb.
    + intros q. rewrite <- append_assoc.
      apply no_trailing_slash_app; assumption.
Qed.

Lemma X6_storage_keys_collide_witness :
  Url.slugFromUrl Url.path_ctor "https://www.thcf.org/news/gala"
  = Url.slugFromUrl Url.path_ctor "https://www.thcf.org/news--gala".
Proof.
  apply (X6_storage_keys_collide Url.path_ctor "https://www.thcf.org/news/gala"
           "https://www.thcf.org/news--gala" (Url.read_path "/news/gala")
           (Url.read_path "/news--gala") "news" "gala");
    try reflexivity; try discriminate.
  intros q E. pose proof (f_equal Str.strip_trailing_slash E) as E'.
  rewrite strip_trailing_slash_app in E'. subst q. discriminate E.
Defined.

(* ===================================================================== *)
(** * Removing twice *)
(* ===================================================================== *)

Section StripFacts.

Import Dom.

Lemma match_simple_plain s h :
  Strip.simple_free s = true ->
  match_simple s h = match_simple s (Strip.plain h).
Proof.
  destruct h as [[x|t a ks] f]; destruct s; try reflexivity; discriminate.
Qed.

Lemma match_compound_plain c h :
  forallb Strip.simple_free c = true ->
  match_compound c h = match_compound c (Strip.plain h).
Proof.
  intros Hc. unfold match_compound.
  assert (is_elem (h_node (Strip.plain h)) = is_elem (h_node h)) as ->
    by (destruct h as [[x|t a ks] f]; reflexivity).
  f_equal. induction c as [|s c IH]; [reflexivity|].
  cbn [forallb] in *. apply andb_true_iff in Hc as [Hs Hc].
  rewrite (match_simple_plain s h Hs), (IH Hc). reflexivity.
Qed.

Lemma match_complex_plain x : forall h anc,
  Strip.free x = true ->
  match_complex x h anc = match_complex x (Strip.plain h) (map Strip.plain anc).
Proof.
  induction x as [c|x IH c|x IH c]; intros h anc Hx; cbn [Strip.free] in Hx.
  - apply match_compound_plain, Hx.
  - apply andb_true_iff in Hx as [Hx Hc]. cbn [match_complex].
    rewrite (match_compound_plain c h Hc). f_equal.
    induction anc as [|p anc IHanc]; [reflexivity|].
    cbn [map]. rewrite (IH p anc Hx), IHanc. reflexivity.
  - apply andb_true_iff in Hx as [Hx Hc]. cbn [match_complex].
    rewrite (match_compound_plain c h Hc). f_equal.
    destruct anc as [|p anc]; [reflexivity|]. cbn [map]. apply IH, Hx.
Qed.

Lemma matches_plain sel h anc :
  Strip.placeless sel = true ->
  matches sel h anc = matches sel (Strip.plain h) (map Strip.plain anc).
Proof.
  unfold Strip.placeless, matches. induction sel as [|x sel IH]; [reflexivity|].
  cbn [forallb existsb]. intros [Hx Hs]%andb_true_iff.
  rewrite (match_complex_plain x h anc Hx), (IH Hs). reflexivity.
Qed.

(** The removal of a selector without [:first-child] is the walk. *)
Lemma prune_of_strip sel ks :
  Strip.placeless sel = true ->
  forall anc rpath j fst,
    prune_of (fun l => matches sel (self l) (ancestors l)) anc rpath ks j fst
    = flat_map (Strip.strip_at sel (map Strip.plain anc)) ks.
Proof.
  intros Hsel. induction ks as [|k ks IH]; intros anc rpath j fst; [reflexivity|].
  cbn [prune_of flat_map]. rewrite IH. f_equal. clear IH.
  revert anc rpath j fst.
  induction k as [s|t a kids IHk] using node_rect_kids; intros; [reflexivity|].
  rewrite prune_at_elem. cbn [self ancestors Strip.strip_at].
  rewrite (matches_plain sel (Here (Elem t a kids) fst) anc Hsel).
  cbn [Strip.plain h_node].
  destruct (matches sel _ _); [reflexivity|]. do 2 f_equal.
  change (Here (Elem t a []) false :: map Strip.plain anc)
    with (map Strip.plain (Here (Elem t a kids) fst :: anc)).
  generalize (Here (Elem t a kids) fst :: anc) (j :: rpath) 0 true.
  induction IHk as [|k' kids' Hk' _ IHkids]; intros; [reflexivity|].
  cbn [prune_of flat_map]. rewrite Hk', IHkids. reflexivity.
Qed.

Lemma remove_strip sel d :
  Strip.placeless sel = true ->
  remove sel d = flat_map (Strip.strip_at sel []) d.
Proof. intros H. apply (prune_of_strip sel d H [] [] 0 true). Qed.

(** What a removal leaves holds no element that it removes. *)
Lemma strip_clean sel ks : forall anc,
  forallb (Strip.clean_at sel anc) (flat_map (Strip.strip_at sel anc) ks) = true.
Proof.
  induction ks as [|k ks IH]; intros anc; [reflexivity|].
  cbn [flat_map]. rewrite forallb_app, IH, andb_true_r. clear IH. revert anc.
  induction k as [s|t a kids IHk] using node_rect_kids; intros; [reflexivity|].
  cbn [Strip.strip_at]. destruct (matches sel _ anc) eqn:E; [reflexivity|].
  cbn [forallb Strip.clean_at]. rewrite E, andb_true_r. cbn [negb andb].
  generalize (Here (Elem t a []) false :: anc).
  induction IHk as [|k' kids' Hk' _ IHkids]; intros; [reflexivity|].
  cbn [flat_map]. rewrite forallb_app, Hk', IHkids. reflexivity.
Qed.

(** Another removal does not bring such an element back. *)
Lemma strip_keeps_clean sel sel' ks : forall anc,
  forallb (Strip.clean_at sel anc) ks = true ->
  forallb (Strip.clean_at sel anc) (flat_map (Strip.strip_at sel' anc) ks) = true.
Proof.
  induction ks as [|k ks IH]; intros anc H; [reflexivity|].
  cbn [forallb] in H. apply andb_true_iff in H as [Hk Hks].
  cbn [flat_map]. rewrite forallb_app, (IH anc Hks), andb_true_r. clear IH Hks.
  revert anc Hk.
  induction k as [s|t a kids IHk] using node_rect_kids; intros; [reflexivity|].
  cbn [Strip.strip_at]. destruct (matches sel' _ anc); [reflexivity|].
  cbn [Strip.clean_at] in Hk. apply andb_true_iff in Hk as [Hm Hkids].
  cbn [forallb Strip.clean_at]. rewrite Hm, andb_true_r. cbn [andb].
  revert Hkids. generalize (Here (Elem t a []) false :: anc).
  induction IHk as [|k' kids' Hk' _ IHkids]; intros c Hkids; [reflexivity|].
  cbn [forallb] in Hkids. apply andb_true_iff in Hkids as [H1 H2].
  cbn [flat_map]. rewrite forallb_app, (Hk' c H1), (IHkids c H2). reflexivity.
Qed.

(** Where nothing matches, nothing is removed. *)
Lemma strip_nothing sel ks : forall anc,
  forallb (Strip.clean_at sel anc) ks = true ->
  flat_map (Strip.strip_at sel anc) ks = ks.
Proof.
  induction ks as [|k ks IH]; intros anc H; [reflexivity|].
  cbn [forallb] in H. apply andb_true_iff in H as [Hk Hks].
  cbn [flat_map]. rewrite (IH anc Hks). clear IH Hks.
  change (k :: ks) with ([k] ++ ks)%list. f_equal. revert anc Hk.
  induction k as [s|t a kids IHk] using node_rect_kids; intros; [reflexivity|].
  cbn [Strip.clean_at] in Hk. apply andb_true_iff in Hk as [Hm Hkids].
  cbn [Strip.strip_at]. apply negb_true_iff in Hm. rewrite Hm. do 2 f_equal.
  revert Hkids. generalize (Here (Elem t a []) false :: anc).
  induction IHk as [|k' kids' Hk' _ IHkids]; intros c Hkids; [reflexivity|].
  cbn [forallb] in Hkids. apply andb_true_iff in Hkids as [H1 H2].
  cbn [flat_map]. rewrite (Hk' c H1), (IHkids c H2). reflexivity.
Qed.

Local Abbreviation clean sel d := (forallb (Strip.clean_at sel []) d = true).

Lemma removes_clean sels : forall d done,
  Forall (fun s => Strip.placeless s = true) sels ->
  Forall (fun s => clean s d) done ->
  Forall (fun s => clean s (Prepare.removes sels d)) (done ++ sels).
Proof.
  unfold Prepare.removes.
  induction sels as [|s sels IH]; intros d done Hp Hd.
  - rewrite app_nil_r. exact Hd.
  - apply Forall_cons in Hp as [Hs Hp]. cbn [fold_left].
    change (done ++ s :: sels)%list with (done ++ [s] ++ sels)%list.
    rewrite app_assoc. apply IH; [exact Hp|].
    rewrite (remove_strip s d Hs). apply Forall_app. split.
    + eapply Forall_impl; [exact Hd|]. intros s' Hs'.
      apply strip_keeps_clean, Hs'.
    + constructor; [apply strip_clean | constructor].
Qed.

Lemma removes_nothing sels : forall d,
  Forall (fun s => Strip.placeless s = true) sels ->
  Forall (fun s => clean s d) sels ->
  Prepare.removes sels d = d.
Proof.
  unfold Prepare.removes.
  induction sels as [|s sels IH]; intros d Hp Hc; [reflexivity|].
  apply Forall_cons in Hp as [Hs Hp]. apply Forall_cons in Hc as [Hcs Hc].
  cbn [fold_left]. rewrite (remove_strip s d Hs), (strip_nothing s d [] Hcs).
  apply IH; assumption.
Qed.

(** The removals of selectors without [:first-child], made again on the
    document that they leave, remove nothing. *)
Lemma removes_twice sels d :
  Forall (fun s => Strip.placeless s = true) sels ->
  Prepare.removes sels (Prepare.removes sels d) = Prepare.removes sels d.
Proof.
  intros Hp. apply removes_nothing; [exact Hp|].
  apply (removes_clean sels d [] Hp). constructor.
Qed.

End StripFacts.

(** The cases of a tag name, character by character. *)
Ltac next_char t tac :=
  destruct t as [|[[|] [|] [|] [|] [|] [|] [|] [|]] t]; try tac.

(** A document that [cheerio.load] returns has one root, [html]. *)
Lemma load_root markup : exists a ks, Html.load markup = [Elem "html" a ks].
Proof.
  unfold Html.load.
  destruct (Html.parse markup) as [|[s|t a ks] l];
    try (eexists; eexists; reflexivity).
  next_char t ltac:(eexists; eexists; reflexivity).
  next_char t ltac:(eexists; eexists; reflexivity).
  next_char t ltac:(eexists; eexists; reflexivity).
  next_char t ltac:(eexists; eexists; reflexivity).
  destruct t; destruct l; eexists; eexists; reflexivity.
Qed.

Section RootFacts.

Import Dom.

(** The removals leave the root of a document or take it away. *)
Lemma remove_root sel t a ks :
  remove sel [Elem t a ks] = []
  \/ exists ks', remove sel [Elem t a ks] = [Elem t a ks'].
Proof.
  unfold remove, prune. cbn [prune_of]. rewrite prune_at_elem.
  destruct (matches sel _ _); [left; reflexivity|].
  right. eexists. reflexivity.
Qed.

Lemma removes_root sels : forall t a ks,
  Prepare.removes sels [Elem t a ks] = []
  \/ exists ks', Prepare.removes sels [Elem t a ks] = [Elem t a ks'].
Proof.
  unfold Prepare.removes.
  induction sels as [|s sels IH]; intros t a ks; cbn [fold_left].
  - right. exists ks. reflexivity.
  - destruct (remove_root s t a ks) as [-> | (ks' & ->)]; [|apply IH].
    left. clear IH. induction sels as [|s' sels IH]; [reflexivity | exact IH].
Qed.

(** The markup of an [html] element has no white space at its ends. *)
Lemma trim_html_root a ks :
  Str.trim (html [Elem "html" a ks]) = html [Elem "html" a ks].
Proof.
  assert (exists body, html [Elem "html" a ks] = String "<" (body +:+ ">"))
    as (body & ->).
  { exists ("html" +:+ attrs_html a +:+ ">"
            +:+ Str.concat_all (map (outer_html_in false) ks) +:+ "</html").
    unfold html, outer_html. cbn [map Str.concat_all outer_html_in].
    replace (mem "html" void_tags) with false by reflexivity.
    replace (mem "html" raw_text_tags) with false by reflexivity.
    rewrite append_nil_r.
    change ("<" +:+ "html" +:+ attrs_html a +:+ ">" +:+
            Str.concat_all (map (outer_html_in false) ks) +:+ "</" +:+ "html" +:+ ">")
      with (String "<" ("html" +:+ attrs_html a +:+ ">" +:+
            Str.concat_all (map (outer_html_in false) ks) +:+ "</html" +:+ ">")).
    f_equal. rewrite !append_assoc. reflexivity. }
  unfold Str.trim. cbn [Str.trimStart].
  replace (Str.is_ws "<") with false by reflexivity.
  unfold Str.trimEnd.
  change (String "<" (body +:+ ">")) with (String "<" body +:+ ">").
  rewrite drop_end_while_app_keep by reflexivity. reflexivity.
Qed.

Lemma head_filter_skip {A} (f : A -> bool) x l :
  f x = false -> head (filter f (x :: l)) = head (filter f l).
Proof.
  intros H. rewrite filter_cons, H. rewrite decide_False by (intros []).
  reflexivity.
Qed.

Lemma head_filter_hit {A} (f : A -> bool) x l :
  f x = true -> head (filter f (x :: l)) = Some x.
Proof.
  intros H. rewrite filter_cons, H. rewrite decide_True by exact I.
  reflexivity.
Qed.

(** In a document that holds one section in its body, that section is the
    first [section.main-content] found when its class says so. *)
Lemma lone_section_found ha hda ba sa ks :
  mem "main-content" (class_list sa) = true ->
  exists l,
    querySelector Prepare.section_main_content
      [Elem "html" ha [Elem "head" hda []; Elem "body" ba [Elem "section" sa ks]]]
    = Some l
    /\ elem l = Elem "section" sa ks.
Proof.
  intros Hc. unfold querySelector, select, elements.
  cbn [elements_of]. rewrite !elements_at_elem. cbn [elements_of app].
  rewrite !elements_at_elem. cbn [elements_of app].
  rewrite !elements_at_elem. cbn [app].
  rewrite head_filter_skip by reflexivity.
  rewrite head_filter_skip by reflexivity.
  rewrite head_filter_skip by reflexivity.
  eexists. split.
  - apply head_filter_hit. cbn [self ancestors].
    unfold Prepare.section_main_content, Prepare.sel_tag_class, matches.
    cbn [existsb match_complex]. unfold match_compound.
    cbn [h_node is_elem forallb match_simple tag_of attrs_of andb].
    rewrite Hc. reflexivity.
  - reflexivity.
Qed.

End RootFacts.

Section CleanerFacts.

Import Dom.

(** The inner HTML of the first element that a selector finds, or the
    empty string: what a cleaner adds to its output for a section. *)
Local Abbreviation inside sel d := (default "" (Prepare.html_of sel d)).

Lemma truthy_inside o :
  (if Prepare.truthy o then default "" o else "") = default "" o.
Proof. destruct o as [[|c s]|]; reflexivity. Qed.

Lemma append_truthy body o :
  (if Prepare.truthy o then body +:+ default "" o else body)
  = body +:+ default "" o.
Proof.
  destruct o as [[|c s]|]; unfold default; cbn [Prepare.truthy Str.is_empty negb from_option id];
    rewrite ?append_nil_r; reflexivity.
Qed.


End CleanerFacts.


(* ===================================================================== *)
(** * The deadline that the parser records *)
(* ===================================================================== *)

Section DeadlineFacts.

(** The label that the field loop reads from a [strong] element. *)
Local Abbreviation label_of s :=
  (Prepare.toLowerCase (Prepare.strip_trailing_colon (Prepare.text_trim s))).

(** A [strong] element with another label leaves the deadline alone. *)
Lemma field_of_other_label d result strong :
  label_of strong <> "deadline" ->
  Prepare.deadline (Prepare.field_of d result strong) = Prepare.deadline result.
Proof.
  intros Hl. unfold Prepare.field_of.
  destruct (String.eqb (label_of strong) "eligibility");
    [match goal with |- context [match ?x with Some _ => _ | None => result end] =>
       destruct x end; reflexivity|].
  destruct (String.eqb (label_of strong) "amount").
  { destruct (closest _ strong); [|reflexivity].
    destruct (_ && _)%bool; [reflexivity|].
    destruct (Prepare.next_p_text _ _); [|reflexivity].
    destruct (negb _); reflexivity. }
  destruct (String.eqb (label_of strong) "renewable").
  { destruct (closest _ strong); [|reflexivity].
    destruct (negb (Str.is_empty _)); reflexivity. }
  destruct (String.eqb (label_of strong) "deadline") eqn:E.
  { apply String.eqb_eq in E. congruence. }
  destruct (String.eqb (label_of strong) "requirements"); [|reflexivity].
  match goal with |- context [match ?x with Some _ => _ | None => result end] =>
    destruct x end; reflexivity.
Qed.

Lemma fields_of_other_labels d l : forall result,
  Forall (fun s => label_of s <> "deadline") l ->
  Prepare.deadline (fold_left (Prepare.field_of d) l result)
  = Prepare.deadline result.
Proof.
  induction l as [|s l IH]; intros result H; [reflexivity|].
  apply Forall_cons in H as [Hs Hl]. cbn [fold_left].
  rewrite IH by exact Hl. apply field_of_other_label, Hs.
Qed.

(** The turn of a [strong] element labelled deadline that stands in a
    paragraph. *)
Lemma field_of_deadline d result strong parent :
  label_of strong = "deadline" ->
  closest (Prepare.tag "p") strong = Some parent ->
  Prepare.field_of d result strong
  = Prepare.deadline_branch (Prepare.text_trim parent)
      (Prepare.next_p_text d parent) result.
Proof.
  intros Hl Hp. unfold Prepare.field_of. rewrite Hl, Hp. reflexivity.
Qed.

(** The deadline of the record is settled by the last [strong] element
    labelled deadline. *)
Lemma parser_deadline rawBody mainSection l1 strong l2 parent :
  rawBody <> "" ->
  querySelector Prepare.section_main_content (Html.load rawBody)
  = Some mainSection ->
  let content := Html.load (Str.or_else (inner_html (elem mainSection)) "") in
  select (Prepare.tag "strong") content = (l1 ++ strong :: l2)%list ->
  label_of strong = "deadline" ->
  Forall (fun s => label_of s <> "deadline") l2 ->
  closest (Prepare.tag "p") strong = Some parent ->
  exists f result,
    Prepare.parseScholarshipFields rawBody = Prepare.Parsed f
    /\ Prepare.deadline f
       = Prepare.deadline
           (Prepare.deadline_branch (Prepare.text_trim parent)
              (Prepare.next_p_text content parent) result).
Proof.
  intros Hne Hmain content Hsel Hl Hl2 Hp.
  unfold Prepare.parseScholarshipFields.
  destruct rawBody; [congruence|]. cbn [Str.is_empty].
  rewrite Hmain. fold content. rewrite Hsel.
  destruct (fold_left Prepare.describe _ _) as [reached descParts].
  rewrite fold_left_app. cbn [fold_left].
  eexists. eexists. split; [reflexivity|].
  rewrite fields_of_other_labels by exact Hl2.
  rewrite (field_of_deadline _ _ _ _ Hl Hp). reflexivity.
Qed.

End DeadlineFacts.

Section DeadlineClaim.

Local Abbreviation label_of s :=
  (Prepare.toLowerCase (Prepare.strip_trailing_colon (Prepare.text_trim s))).
Local Abbreviation scrub s :=
  (Str.trim (Regex.remove_at_end (Prepare.trailing_label Prepare.deadline_leaks) s)).

(** C7, as the specification states it, fails.  The label is recognised in
    any case, but its last occurrence is looked for as [Deadline:] exactly:
    of a paragraph that has the label in capitals twice, the parser keeps
    the text after the first one.  And a deadline taken from the next
    paragraph keeps the label at its end. *)
Lemma C7_deadline_is_not_after_the_last_label :
  (exists f,
      Prepare.parseScholarshipFields Samples.deadline_in_capitals
      = Prepare.Parsed f
      /\ Prepare.deadline f = "rolling DEADLINE: March 1")
  /\ (exists f,
         Prepare.parseScholarshipFields Samples.deadline_in_next_paragraph
         = Prepare.Parsed f
         /\ Prepare.deadline f = "March 1 Requirements:").
Proof.
  split; (eexists; split; [vm_compute; reflexivity | reflexivity]).
Qed.

(** C7, amended.  The deadline of the record is settled by the last
    [strong] element whose label (its trimmed text without a final colon,
    in lower case) is [deadline], when that element stands in a paragraph.
    When the trimmed text of the paragraph holds [Deadline:] in this very
    spelling, once or more than once, and [post] follows its last
    occurrence, the text kept is [post], trimmed, without the one field
    label (Requirements, Apply, Amount, Renewable or Eligibility, in any
    case, with or without colon) that may stand at its end and without the
    white space around that label; it is the deadline when it is not empty
    and does not open with [Requirements:] or [Apply:] in any case.  When
    the text
    holds no [Deadline:] in this spelling, the text kept is the text
    without a [Deadline:] of any case at its start, scrubbed in the same
    way.  When the text kept is empty or opens with [Requirements:] or
    [Apply:], the deadline is the trimmed text of the next paragraph, as it
    is, when that text does not open with one of the five labels and a
    colon. *)
Theorem C7_deadline_after_last_label (rawBody : string)
    (mainSection : located) (l1 : list located) (strong : located)
    (l2 : list located) (parent : located) :
  rawBody <> "" ->
  querySelector Prepare.section_main_content (Html.load rawBody)
  = Some mainSection ->
  let content := Html.load (Str.or_else (inner_html (elem mainSection)) "") in
  select (Prepare.tag "strong") content = (l1 ++ strong :: l2)%list ->
  label_of strong = "deadline" ->
  Forall (fun s => label_of s <> "deadline") l2 ->
  closest (Prepare.tag "p") strong = Some parent ->
  let fullText := Prepare.text_trim parent in
  exists f,
    Prepare.parseScholarshipFields rawBody = Prepare.Parsed f
    /\ (forall pre post,
          fullText = pre +:+ "Deadline:" +:+ post ->
          Str.includes "Deadline:" post = false ->
          scrub (Str.trim post) <> "" ->
          Regex.test (Prepare.label_head ["Requirements"; "Apply"])
            (scrub (Str.trim post)) = false ->
          Prepare.deadline f = scrub (Str.trim post)
          /\ (forall body tail,
                Str.trim post = body +:+ tail ->
                Prepare.label_tail Prepare.deadline_leaks tail ->
                Prepare.deadline f = Str.trim body)
          /\ ((forall a b, Str.trim post = a +:+ b ->
                           ~ Prepare.label_tail Prepare.deadline_leaks b) ->
              Prepare.deadline f = Str.trim post))
    /\ (Str.includes "Deadline:" fullText = false ->
        let kept :=
          scrub (Str.trim (Prepare.remove_label_head "Deadline:" fullText)) in
        kept <> "" ->
        Regex.test (Prepare.label_head ["Requirements"; "Apply"]) kept = false ->
        Prepare.deadline f = kept)
    /\ (forall nextText,
          Prepare.deadline_after_label fullText = ""
          \/ Regex.test (Prepare.label_head ["Requirements"; "Apply"])
               (Prepare.deadline_after_label fullText) = true ->
          Prepare.next_p_text content parent = Some nextText ->
          Regex.test
            (Prepare.label_head ["Requirements"; "Apply"; "Amount"; "Renewable";
                                 "Eligibility"]) nextText = false ->
          Prepare.deadline f = nextText).
Proof.
  intros Hne Hmain content Hsel Hl Hl2 Hp fullText.
  destruct (parser_deadline rawBody mainSection l1 strong l2 parent
              Hne Hmain Hsel Hl Hl2 Hp) as (f & result & Hf & Hd).
  fold content in Hd. fold fullText in Hd.
  exists f. split; [exact Hf|].
  assert (forall kept,
            Prepare.deadline_after_label fullText = kept ->
            kept <> "" ->
            Regex.test (Prepare.label_head ["Requirements"; "Apply"]) kept = false ->
            Prepare.deadline f = kept) as Hkept.
  { intros kept Hk Hn Ht. rewrite Hd. unfold Prepare.deadline_branch.
    rewrite Hk, Ht. destruct kept; [congruence | reflexivity]. }
  split; [|split].
  - intros pre post Hfull Hlast Hn Ht.
    pose proof (deadline_after_last_label pre post Hlast) as Hpost.
    cbv zeta in Hpost. destruct Hpost as (_ & Hafter & Hbody & Hnone & _).
    rewrite <- Hfull in Hafter, Hbody, Hnone.
    assert (Prepare.deadline f = scrub (Str.trim post)) as Hdf
      by (apply Hkept; [exact Hafter | exact Hn | exact Ht]).
    split; [exact Hdf|]. split.
    + intros body tail E Htail. rewrite Hdf, <- Hafter. apply (Hbody body tail E Htail).
    + intros Hno. rewrite Hdf, <- Hafter. apply Hnone, Hno.
  - intros Hnot kept Hn Ht. apply Hkept; [|exact Hn | exact Ht].
    unfold Prepare.deadline_after_label.
    rewrite (lastIndexOf_none _ _ Hnot). reflexivity.
  - intros nextText Hempty Hnext Ht. rewrite Hd. unfold Prepare.deadline_branch.
    rewrite Hnext, Ht. cbn [negb].
    destruct Hempty as [-> | ->]; [reflexivity|].
    rewrite andb_false_r. reflexivity.
Qed.

End DeadlineClaim.

Lemma C7_deadline_after_last_label_witness :
  exists f,
    Prepare.parseScholarshipFields Samples.deadline_twice = Prepare.Parsed f
    /\ Prepare.deadline f = "March 1".
Proof.
  eassert _ as H.
  { eapply (C7_deadline_after_last_label Samples.deadline_twice _ [] _ [] _).
    - discriminate.
    - vm_compute. reflexivity.
    - vm_compute. reflexivity.
    - vm_compute. reflexivity.
    - constructor.
    - vm_compute. reflexivity. }
  cbv zeta in H. destruct H as (f & Hf & Hlast & _).
  - exists f. split; [exact Hf|].
    refine (proj1 (Hlast "Renewable: No. Deadline: rolling " " March 1 Apply:"
                     _ _ _ _)).
    + vm_compute. reflexivity.
    + reflexivity.
    + vm_compute. discriminate.
    + vm_compute. reflexivity.
Defined.

(* ===================================================================== *)
(** * A run of the scheduler, turn by turn *)
(* ===================================================================== *)

Section TurnFacts.

Variable new_URL : Url.ctor.
Variable RESUME : bool.
Variable MAX_PAGES : Crawl.budget.
Variable sitemap : option (list string).
Variable navStructure : list Crawl.nav_item.
Variable open_section : string -> option (list string).
Variable click_page : string -> nat -> Crawl.click.
Variable scrapePage : Z -> string -> option Crawl.page.

Local Abbreviation step := (Crawl.step new_URL MAX_PAGES scrapePage).
Local Abbreviation reaches := (Crawl.reaches new_URL MAX_PAGES scrapePage).
Local Abbreviation frontier :=
  (Crawl.frontier new_URL RESUME sitemap navStructure open_section click_page).
Local Abbreviation setup := (Crawl.setup RESUME sitemap).
Local Abbreviation mark := (Crawl.mark scrapePage).
Local Abbreviation only_pushes := CrawlLog.only_pushes.

Lemma only_pushes_refl st : only_pushes st st.
Proof.
  repeat (split; [reflexivity|]). exists []. rewrite !app_nil_r. auto.
Qed.

Lemma only_pushes_trans a b c :
  only_pushes a b -> only_pushes b c -> only_pushes a c.
Proof.
  intros (H1 & H2 & H3 & H4 & H5 & H6 & m & H7 & H8)
         (K1 & K2 & K3 & K4 & K5 & K6 & m' & K7 & K8).
  repeat (split; [congruence|]). exists (m ++ m')%list.
  rewrite K7, K8, H7, H8, !app_assoc. auto.
Qed.

Lemma push_only_pushes u st : only_pushes st (Crawl.push u st).
Proof. repeat (split; [reflexivity|]). exists [u]. auto. Qed.

Lemma enqueue_unvisited_only_pushes href st :
  only_pushes st (Crawl.enqueue_unvisited new_URL href st).
Proof.
  unfold Crawl.enqueue_unvisited.
  destruct (Crawl.normalizeUrl new_URL href) as [n|]; [|apply only_pushes_refl].
  destruct (_ && _)%bool; [apply push_only_pushes | apply only_pushes_refl].
Qed.

Lemma enqueue_unseen_only_pushes href st :
  only_pushes st (Crawl.enqueue_unseen new_URL href st).
Proof.
  unfold Crawl.enqueue_unseen.
  destruct (Crawl.normalizeUrl new_URL href) as [n|]; [|apply only_pushes_refl].
  destruct (_ && _)%bool; [apply push_only_pushes | apply only_pushes_refl].
Qed.

Lemma fold_only_pushes {A} (f : Crawl.state -> A -> Crawl.state) l :
  (forall st a, only_pushes st (f st a)) ->
  forall st, only_pushes st (fold_left f l st).
Proof.
  intros Hf. induction l as [|a l IH]; intros st; cbn [fold_left].
  - apply only_pushes_refl.
  - eapply only_pushes_trans; [apply Hf | apply IH].
Qed.

Lemma enqueue_all_only_pushes f hrefs st :
  (forall href s, only_pushes s (f href s)) ->
  only_pushes st (Crawl.enqueue_all f hrefs st).
Proof.
  intros Hf. unfold Crawl.enqueue_all. apply fold_only_pushes.
  intros s a. apply Hf.
Qed.

Lemma click_through_only_pushes section pageNums : forall st,
  only_pushes st (Crawl.click_through new_URL click_page section pageNums st).
Proof.
  induction pageNums as [|n l IH]; intros st; cbn [Crawl.click_through].
  - apply only_pushes_refl.
  - destruct (click_page section n); try apply only_pushes_refl.
    eapply only_pushes_trans; [|apply IH].
    apply enqueue_all_only_pushes, enqueue_unseen_only_pushes.
Qed.

Lemma discover_only_pushes st :
  only_pushes st (Crawl.discover new_URL open_section click_page st).
Proof.
  unfold Crawl.discover. apply fold_only_pushes. intros s section.
  unfold Crawl.paginate. destruct (open_section section);
    [|apply only_pushes_refl].
  eapply only_pushes_trans; [|apply click_through_only_pushes].
  apply enqueue_all_only_pushes, enqueue_unseen_only_pushes.
Qed.

Lemma add_nav_only_pushes st :
  only_pushes st (Crawl.add_nav new_URL navStructure st).
Proof.
  unfold Crawl.add_nav. apply fold_only_pushes. intros s item.
  unfold Crawl.add_nav_item.
  eapply only_pushes_trans; [apply enqueue_unvisited_only_pushes|].
  apply enqueue_all_only_pushes, enqueue_unvisited_only_pushes.
Qed.

(** An enqueue of a URL that is new to [visited] and to the queue pushes it. *)
Lemma enqueue_unvisited_push href n st :
  Crawl.normalizeUrl new_URL href = Some n ->
  n <> "" -> n ∉ Crawl.visited st -> n ∉ Crawl.seenInQueue st ->
  Crawl.enqueue_unvisited new_URL href st = Crawl.push n st.
Proof.
  intros Hn He Hv Hs. unfold Crawl.enqueue_unvisited. rewrite Hn.
  rewrite (bool_decide_eq_false_2 _ Hv), (bool_decide_eq_false_2 _ Hs).
  destruct n; [congruence | reflexivity].
Qed.

(** What the record of a page adds to a state. *)
Lemma harvest_fields url result slug st :
  let st' := Crawl.harvest new_URL url result slug st in
  Crawl.visited st' = Crawl.visited st /\ Crawl.count st' = Crawl.count st
  /\ Crawl.marked st' = Crawl.marked st /\ Crawl.fetched st' = Crawl.fetched st
  /\ Crawl.allUrls st'
     = (Crawl.allUrls st
        ++ [(url, Classify.classifyPage new_URL url, Crawl.p_title result)])%list
  /\ Crawl.written st'
     = (Crawl.written st
        ++ [(Classify.getOutputDir (Classify.classifyPage new_URL url), slug)])%list
  /\ exists more,
       Crawl.queue st' = (Crawl.queue st ++ more)%list
       /\ Crawl.pushed st' = (Crawl.pushed st ++ more)%list.
Proof.
  destruct (enqueue_all_only_pushes (Crawl.enqueue_unvisited new_URL)
              (Crawl.p_links result) st enqueue_unvisited_only_pushes)
    as (H1 & H2 & H3 & H4 & H5 & H6 & H7).
  unfold Crawl.harvest. cbv zeta.
  cbn [Crawl.visited Crawl.count Crawl.marked Crawl.fetched Crawl.allUrls
       Crawl.written Crawl.queue Crawl.pushed].
  rewrite H5, H6. auto 10.
Qed.

(** The four ways of a turn. *)
Lemma step_saved st url rest result slug :
  Crawl.queue st = url :: rest ->
  Crawl.below (Crawl.count st) MAX_PAGES = true ->
  url ∉ Crawl.visited st ->
  scrapePage (Crawl.count st + 1)%Z url = Some result ->
  Url.slugFromUrl new_URL url = Some slug ->
  step st = Crawl.Next (Crawl.harvest new_URL url result slug (mark url rest st)).
Proof.
  intros Hq Hb Hv Hs Hl. unfold Crawl.step.
  rewrite Hq, Hb, (bool_decide_eq_false_2 _ Hv), Hs, Hl. reflexivity.
Qed.

Lemma step_no_page st url rest :
  Crawl.queue st = url :: rest ->
  Crawl.below (Crawl.count st) MAX_PAGES = true ->
  url ∉ Crawl.visited st ->
  scrapePage (Crawl.count st + 1)%Z url = None ->
  step st = Crawl.Next (mark url rest st).
Proof.
  intros Hq Hb Hv Hs. unfold Crawl.step.
  rewrite Hq, Hb, (bool_decide_eq_false_2 _ Hv), Hs. reflexivity.
Qed.

(** What the loop returns tells how it ended: of itself, in a state where
    the test of the loop fails, or on the exception of [slugFromUrl], in
    the turn of a page that was fetched. *)
Lemma loop_ends fuel : forall st e st',
  Crawl.loop new_URL MAX_PAGES scrapePage fuel st = Some (e, st') ->
  reaches st st'
  /\ (e = Crawl.Finished -> step st' = Crawl.Exit)
  /\ (e = Crawl.Aborted ->
      exists st0, reaches st st0 /\ step st0 = Crawl.Throw st').
Proof.
  induction fuel as [|fuel IH]; intros st e st' H; [discriminate|].
  cbn [Crawl.loop] in H. destruct (step st) as [|st1|st1] eqn:Hs.
  - injection H as <- <-. split; [constructor|]. split; [auto | discriminate].
  - destruct (IH _ _ _ H) as (Hr & Hf & Ha).
    split; [eapply Crawl.reaches_next; eassumption|]. split; [exact Hf|].
    intros He. destruct (Ha He) as (st0 & Hr0 & Hth).
    exists st0. split; [eapply Crawl.reaches_next; eassumption | exact Hth].
  - injection H as <- <-.
    split; [apply Crawl.reaches_throw; exact Hs|]. split; [discriminate|].
    intros _. exists st. split; [constructor | exact Hs].
Qed.

End TurnFacts.

(* ===================================================================== *)
(** * How the crawl loop ends *)
(* ===================================================================== *)

Section EndFacts.

Variable new_URL : Url.ctor.
Variable RESUME : bool.
Variable MAX_PAGES : Crawl.budget.
Variable sitemap : option (list string).
Variable navStructure : list Crawl.nav_item.
Variable open_section : string -> option (list string).
Variable click_page : string -> nat -> Crawl.click.
Variable scrapePage : Z -> string -> option Crawl.page.

Local Abbreviation step := (Crawl.step new_URL MAX_PAGES scrapePage).
Local Abbreviation reaches := (Crawl.reaches new_URL MAX_PAGES scrapePage).
Local Abbreviation frontier :=
  (Crawl.frontier new_URL RESUME sitemap navStructure open_section click_page).
Local Abbreviation run :=
  (Crawl.run new_URL RESUME MAX_PAGES sitemap navStructure open_section
     click_page scrapePage).
Local Abbreviation mark := (Crawl.mark scrapePage).

Lemma reaches_frontier_inv st :
  reaches frontier st -> Crawl.inv RESUME MAX_PAGES sitemap st.
Proof.
  intros Hr.
  exact (reaches_inv new_URL RESUME MAX_PAGES sitemap open_section click_page
           scrapePage _ _
           (frontier_inv new_URL RESUME MAX_PAGES sitemap navStructure
              open_section click_page) Hr).
Qed.

(** The URL at the head of the queue came out of the normaliser. *)
Lemma head_normalised st url rest :
  reaches frontier st -> Crawl.queue st = url :: rest ->
  exists href, Url.normalizeUrl new_URL href = Some url.
Proof.
  intros Hr Hq.
  pose proof (reaches_kept new_URL MAX_PAGES scrapePage _ _
                (frontier_kept new_URL RESUME sitemap navStructure open_section
                   click_page) Hr) as [Hp (sh & Hpq & _) _ _ _].
  apply Hp. rewrite Hpq, Hq. apply elem_of_app. right. left.
Qed.

(** A turn that ends the script on the exception of [slugFromUrl]. *)
Lemma step_throws st st' :
  step st = Crawl.Throw st' ->
  exists url rest result,
    Crawl.queue st = url :: rest
    /\ (url ∉ Crawl.visited st)
    /\ Crawl.below (Crawl.count st) MAX_PAGES = true
    /\ scrapePage (Crawl.count st + 1)%Z url = Some result
    /\ Url.slugFromUrl new_URL url = None
    /\ st' = mark url rest st.
Proof.
  intros Hs.
  destruct (step_cases new_URL MAX_PAGES scrapePage st st' (or_intror Hs))
    as (url & rest & Hq & Hlt & Hc).
  destruct Hc as [(_ & Hn & _) | (Hv & [(_ & Hn & _) |
                   [(r & sl & _ & _ & Hn & _) | (r & Hr & Hl & _ & ->)]])];
    try congruence.
  exists url, rest, r. auto 10.
Qed.


End EndFacts.

(* ===================================================================== *)
(** * Three turns on the small site *)
(* ===================================================================== *)

(** A state of a run in which no URL was skipped: what is visited, the URLs
    fetched so far, the site map, the records written, and the head of the
    queue. *)
Local Abbreviation shape st vis done all wr todo :=
  (Crawl.visited st = vis
   /\ Crawl.count st = Z.of_nat (length (done : list string))
   /\ Crawl.marked st = done%list /\ Crawl.fetched st = done%list
   /\ Crawl.allUrls st = all /\ Crawl.written st = wr
   /\ exists more,
        Crawl.queue st = app todo more
        /\ Crawl.pushed st = app done%list (app todo more)).

Section ShapeFacts.

Variable new_URL : Url.ctor.
Variable MAX_PAGES : Crawl.budget.
Variable scrapePage : Z -> string -> option Crawl.page.

Local Abbreviation step := (Crawl.step new_URL MAX_PAGES scrapePage).

(** The turn of a page that loads: it is recorded, and its links are
    pushed behind the queue. *)
Lemma turn_saved st vis done all wr url todo result slug :
  shape st vis done all wr (url :: todo) ->
  Crawl.below (Z.of_nat (length done)) MAX_PAGES = true ->
  url ∉ vis ->
  scrapePage (Z.of_nat (length done) + 1)%Z url = Some result ->
  Url.slugFromUrl new_URL url = Some slug ->
  exists st',
    step st = Crawl.Next st'
    /\ shape st' ({[url]} ∪ vis) (done ++ [url])%list
         (all ++ [(url, Classify.classifyPage new_URL url,
                   Crawl.p_title result)])%list
         (wr ++ [(Classify.getOutputDir (Classify.classifyPage new_URL url),
                  slug)])%list
         todo.
Proof.
  intros (Hv & Hc & Hm & Hf & Ha & Hw & more & Hq & Hp) Hb Hn Hs Hl.
  eexists. split.
  - apply (step_saved _ _ _ st url (todo ++ more)%list result slug);
      [exact Hq | rewrite Hc; exact Hb | rewrite Hv; exact Hn
      | rewrite Hc; exact Hs | exact Hl].
  - destruct (harvest_fields new_URL url result slug
                (Crawl.mark scrapePage url (todo ++ more)%list st))
      as (H1 & H2 & H3 & H4 & H5 & H6 & more' & H7 & H8).
    cbn [Crawl.visited Crawl.count Crawl.marked Crawl.fetched Crawl.allUrls
         Crawl.written Crawl.queue Crawl.pushed Crawl.mark] in *.
    rewrite H1, H2, H3, H4, H5, H6, Hv, Hc, Hm, Hf, Ha, Hw.
    split; [reflexivity|]. split; [rewrite length_app; cbn [length]; lia|].
    split; [reflexivity|]. split; [reflexivity|]. split; [reflexivity|].
    split; [reflexivity|]. exists (more ++ more')%list.
    rewrite H7, H8, Hp, <- !app_assoc. split; reflexivity.
Qed.

(** The turn of a page that does not load: it is marked and counted. *)
Lemma turn_no_page st vis done all wr url todo :
  shape st vis done all wr (url :: todo) ->
  Crawl.below (Z.of_nat (length done)) MAX_PAGES = true ->
  url ∉ vis ->
  scrapePage (Z.of_nat (length done) + 1)%Z url = None ->
  exists st',
    step st = Crawl.Next st'
    /\ shape st' ({[url]} ∪ vis) (done ++ [url])%list all wr todo.
Proof.
  intros (Hv & Hc & Hm & Hf & Ha & Hw & more & Hq & Hp) Hb Hn Hs.
  eexists. split.
  - apply (step_no_page _ _ _ st url (todo ++ more)%list);
      [exact Hq | rewrite Hc; exact Hb | rewrite Hv; exact Hn
      | rewrite Hc; exact Hs].
  - cbn [Crawl.visited Crawl.count Crawl.marked Crawl.fetched Crawl.allUrls
         Crawl.written Crawl.queue Crawl.pushed Crawl.mark].
    rewrite Hv, Hc, Hm, Hf, Ha, Hw.
    split; [reflexivity|]. split; [rewrite length_app; cbn [length]; lia|].
    split; [reflexivity|]. split; [reflexivity|]. split; [reflexivity|].
    split; [reflexivity|]. exists more.
    rewrite Hp, <- !app_assoc. split; reflexivity.
Qed.

End ShapeFacts.

(** Two URLs differ, and a URL is none of a few. *)
Ltac differ H := apply String.eqb_eq in H; cbv in H; discriminate H.

Ltac absent :=
  let H := fresh "H" in
  intros H;
  repeat (apply elem_of_union in H as [H|H];
          [apply elem_of_singleton in H; differ H|]);
  first [ apply elem_of_empty in H; exact H
        | apply elem_of_list_to_set in H;
          repeat (apply elem_of_cons in H as [H|H]; [differ H|]);
          apply elem_of_nil in H; exact H ].

Local Abbreviation make_a_gift := "https://www.thcf.org/donors/make-a-gift".
Local Abbreviation planned_giving := "https://www.thcf.org/donors/planned-giving".
Local Abbreviation ways_to_give := "https://www.thcf.org/donors/ways-to-give".

(** The crawl of the small site starts from a queue headed by the first
    seeds that the site map of the earlier run does not hold. *)
Lemma example_frontier_shape :
  shape example_frontier (list_to_set Example.existing) [] [] []
    [Example.home; make_a_gift; planned_giving].
Proof.
  pose (s0 := Crawl.setup true (Some Example.existing)).
  pose (s3 := Crawl.push planned_giving
                (Crawl.push make_a_gift (Crawl.push Example.home s0))).
  assert (CrawlLog.only_pushes s3 example_frontier) as Hgrow.
  { unfold Crawl.frontier. fold s0.
    eapply only_pushes_trans; [|apply discover_only_pushes].
    eapply only_pushes_trans; [|apply add_nav_only_pushes].
    unfold Crawl.seed, Crawl.enqueue_all.
    change Crawl.seedUrls
      with (["/"; "/donors"; "/donors/make-a-gift"; "/donors/planned-giving"]
            ++ drop 4 Crawl.seedUrls)%list.
    rewrite fold_left_app.
    assert (fold_left (fun acc href => Crawl.enqueue_unvisited Url.path_ctor href acc)
              ["/"; "/donors"; "/donors/make-a-gift"; "/donors/planned-giving"] s0
            = s3) as ->.
    { cbn [fold_left].
      rewrite (enqueue_unvisited_push Url.path_ctor "/" Example.home s0);
        [|reflexivity|discriminate|cbn [Crawl.visited Crawl.setup s0]; absent
         |cbn [Crawl.seenInQueue Crawl.setup s0]; absent].
      rewrite (enqueue_unvisited_gate Url.path_ctor "/donors" Example.donors);
        [|reflexivity
         |left; cbn [Crawl.visited Crawl.push Crawl.setup s0];
          apply elem_of_list_to_set; left].
      rewrite (enqueue_unvisited_push Url.path_ctor "/donors/make-a-gift"
                 make_a_gift);
        [|reflexivity|discriminate
         |cbn [Crawl.visited Crawl.push Crawl.setup s0]; absent
         |cbn [Crawl.seenInQueue Crawl.push Crawl.setup s0]; absent].
      rewrite (enqueue_unvisited_push Url.path_ctor "/donors/planned-giving"
                 planned_giving);
        [|reflexivity|discriminate
         |cbn [Crawl.visited Crawl.push Crawl.setup s0]; absent
         |cbn [Crawl.seenInQueue Crawl.push Crawl.setup s0]; absent].
      reflexivity. }
    apply fold_only_pushes. intros st href. apply enqueue_unvisited_only_pushes. }
  destruct Hgrow as (H1 & H2 & H3 & H4 & H5 & H6 & more & H7 & H8).
  rewrite H1, H2, H3, H4, H5, H6.
  repeat (split; [reflexivity|]). exists more. rewrite H7, H8. split; reflexivity.
Qed.

Local Abbreviation example_step :=
  (Crawl.step Url.path_ctor (Crawl.Pages 3) Example.scrapePage).
Local Abbreviation example_reaches :=
  (Crawl.reaches Url.path_ctor (Crawl.Pages 3) Example.scrapePage).
Local Abbreviation example_run :=
  (Crawl.run Url.path_ctor true (Crawl.Pages 3) (Some Example.existing)
     Example.navStructure Example.open_section Example.click_page
     Example.scrapePage).

(** With a budget of three pages the loop fetches the home page, which
    loads, the page of gifts, which loads and links to a page not seen
    before, and the page of planned giving, which does not load. *)
Lemma example_turns :
  exists st1 st2 st3,
    example_step example_frontier = Crawl.Next st1
    /\ shape st1 ({[Example.home]} ∪ list_to_set Example.existing)
         [Example.home] [(Example.home, "page", "Home")] [("pages", "index")]
         [make_a_gift; planned_giving]
    /\ example_step st1 = Crawl.Next st2
    /\ shape st2
         ({[make_a_gift]} ∪ ({[Example.home]} ∪ list_to_set Example.existing))
         [Example.home; make_a_gift]
         [(Example.home, "page", "Home"); (make_a_gift, "page", "Make a gift")]
         [("pages", "index"); ("pages", "donors--make-a-gift")]
         [planned_giving]
    /\ example_step st2 = Crawl.Next st3
    /\ shape st3
         ({[planned_giving]}
          ∪ ({[make_a_gift]} ∪ ({[Example.home]} ∪ list_to_set Example.existing)))
         [Example.home; make_a_gift; planned_giving]
         [(Example.home, "page", "Home"); (make_a_gift, "page", "Make a gift")]
         [("pages", "index"); ("pages", "donors--make-a-gift")]
         [].
Proof.
  destruct (turn_saved Url.path_ctor (Crawl.Pages 3) Example.scrapePage
              example_frontier _ [] [] [] Example.home
              [make_a_gift; planned_giving] Example.home_page "index"
              example_frontier_shape)
    as (st1 & Hs1 & Hshape1); [reflexivity | absent | reflexivity | reflexivity|].
  destruct (turn_saved Url.path_ctor (Crawl.Pages 3) Example.scrapePage
              st1 _ _ _ _ make_a_gift [planned_giving]
              (Crawl.Page "Make a gift" ["/"; "/donors/ways-to-give"] [])
              "donors--make-a-gift" Hshape1)
    as (st2 & Hs2 & Hshape2); [reflexivity | absent | reflexivity | reflexivity|].
  destruct (turn_no_page Url.path_ctor (Crawl.Pages 3) Example.scrapePage
              st2 _ _ _ _ planned_giving [] Hshape2)
    as (st3 & Hs3 & Hshape3); [reflexivity | absent | reflexivity|].
  exists st1, st2, st3.
  split; [exact Hs1|]. split; [exact Hshape1|]. split; [exact Hs2|].
  split; [exact Hshape2|]. split; [exact Hs3 | exact Hshape3].
Qed.

(** The run of the small site: after three turns the budget is used up and
    the loop leaves of itself. *)
Lemma example_ends :
  exists st1 st2 st3,
    example_reaches example_frontier st1
    /\ example_step st1 = Crawl.Next st2
    /\ example_reaches example_frontier st2
    /\ example_reaches example_frontier st3
    /\ example_run 4 = Some (Crawl.Finished, st3)
    /\ shape st1 ({[Example.home]} ∪ list_to_set Example.existing)
         [Example.home] [(Example.home, "page", "Home")] [("pages", "index")]
         [make_a_gift; planned_giving]
    /\ shape st2
         ({[make_a_gift]} ∪ ({[Example.home]} ∪ list_to_set Example.existing))
         [Example.home; make_a_gift]
         [(Example.home, "page", "Home"); (make_a_gift, "page", "Make a gift")]
         [("pages", "index"); ("pages", "donors--make-a-gift")]
         [planned_giving]
    /\ shape st3
         ({[planned_giving]}
          ∪ ({[make_a_gift]} ∪ ({[Example.home]} ∪ list_to_set Example.existing)))
         [Example.home; make_a_gift; planned_giving]
         [(Example.home, "page", "Home"); (make_a_gift, "page", "Make a gift")]
         [("pages", "index"); ("pages", "donors--make-a-gift")]
         [].
Proof.
  destruct example_turns as (st1 & st2 & st3 & Hs1 & H1 & Hs2 & H2 & Hs3 & H3).
  exists st1, st2, st3.
  assert (example_step st3 = Crawl.Exit) as Hexit.
  { apply step_exit_iff. right. destruct H3 as (_ & -> & _). reflexivity. }
  split; [eapply Crawl.reaches_next; [exact Hs1 | constructor]|].
  split; [exact Hs2|]. split.
  { eapply Crawl.reaches_next; [exact Hs1|].
    eapply Crawl.reaches_next; [exact Hs2 | constructor]. }
  split.
  { eapply Crawl.reaches_next; [exact Hs1|].
    eapply Crawl.reaches_next; [exact Hs2|].
    eapply Crawl.reaches_next; [exact Hs3 | constructor]. }
  split; [|auto].
  unfold Crawl.run.
  rewrite (loop_next _ _ _ _ _ _ Hs1), (loop_next _ _ _ _ _ _ Hs2),
    (loop_next _ _ _ _ _ _ Hs3).
  cbn [Crawl.loop]. rewrite Hexit. reflexivity.
Qed.

(** The constructor of the examples parses what the normaliser returns. *)
Lemma read_path_rooted r :
  String.prefix "/" (Url.pathname (Url.read_path (String "/" r))) = true.
Proof.
  unfold Url.read_path.
  destruct (Url.break_at "#" (String "/" r)) as [rest h] eqn:E1.
  pose proof (break_at_rooted "#" r eq_refl) as H1. rewrite E1 in H1.
  cbn [fst] in H1. destruct rest as [|x rest]; [discriminate|].
  cbn [String.prefix] in H1. destruct (ascii_dec "/" x) as [<-|]; [|discriminate].
  destruct (Url.break_at "?" (String "/" rest)) as [p q] eqn:E2.
  pose proof (break_at_rooted "?" rest eq_refl) as H2. rewrite E2 in H2.
  exact H2.
Qed.

Lemma path_ctor_rooted href base u :
  Url.path_ctor href base = Some u ->
  Url.origin u = Url.site_prefix /\ String.prefix "/" (Url.pathname u) = true.
Proof.
  unfold Url.path_ctor. destruct (String.prefix "/" href) eqn:Hp.
  - destruct base; [|discriminate]. intros [= <-].
    apply prefix_split in Hp as (r & ->).
    split; [|apply (read_path_rooted r)].
    unfold Url.read_path. destruct (Url.break_at "#" _) as [rest h].
    destruct (Url.break_at "?" rest). reflexivity.
  - destruct (String.prefix (Url.site_prefix +:+ "/") href) eqn:Hq;
      [|discriminate]. intros [= <-].
    apply prefix_split in Hq as (r & ->).
    replace (Str.drop (String.length Url.site_prefix)
               ((Url.site_prefix +:+ "/") +:+ r)) with (String "/" r)
      by reflexivity.
    split; [|apply (read_path_rooted r)].
    unfold Url.read_path. destruct (Url.break_at "#" _) as [rest h].
    destruct (Url.break_at "?" rest). reflexivity.
Qed.

Lemma strip_trailing_slash_rooted s :
  Str.strip_trailing_slash (String "/" s) = ""
  \/ String.prefix "/" (Str.strip_trailing_slash (String "/" s)) = true.
Proof.
  cbn [Str.strip_trailing_slash].
  destruct (Str.is_empty s && Ascii.eqb "/" "/")%bool; [left; reflexivity|].
  right. exact (prefix_append "/" _).
Qed.

Lemma path_ctor_parses_normalised href u :
  Url.normalizeUrl Url.path_ctor href = Some u -> Url.path_ctor u None <> None.
Proof.
  intros (url & Hc & _ & _ & ->)%normalizeUrl_spec.
  destruct (path_ctor_rooted _ _ _ Hc) as [-> Hp].
  destruct (Url.pathname url) as [|c p]; [discriminate|].
  cbn [String.prefix] in Hp. destruct (ascii_dec "/" c) as [<-|]; [|discriminate].
  assert (exists r, Str.or_else (Str.strip_trailing_slash (String "/" p)) "/"
                    = String "/" r) as (r & ->).
  { destruct (strip_trailing_slash_rooted p) as [-> | H].
    - exists "". reflexivity.
    - destruct (Str.strip_trailing_slash (String "/" p)) as [|d q];
        [discriminate|].
      cbn [String.prefix] in H.
      destruct (ascii_dec "/" d) as [<-|]; [|discriminate].
      exists q. reflexivity. }
  unfold Url.path_ctor.
  assert (String.prefix "/" (Url.site_prefix +:+ String "/" r) = false) as ->.
  { change (Url.site_prefix +:+ String "/" r)
      with (String "h" ("ttps://www.thcf.org" +:+ String "/" r)).
    cbn [String.prefix]. destruct (ascii_dec "/" "h"); [discriminate | reflexivity]. }
  change (Url.site_prefix +:+ String "/" r)
    with ((Url.site_prefix +:+ "/") +:+ r).
  rewrite prefix_append. discriminate.
Qed.

Lemma C6_resume_skips_known_urls_witness :
  exists st st',
    example_reaches example_frontier st
    /\ example_step st = Crawl.Next st'
    /\ Crawl.fetched st' = [Example.home; make_a_gift]
    /\ (Example.donors ∉ Crawl.fetched st')
    /\ ways_to_give ∈ Crawl.queue st'.
Proof.
  destruct example_ends
    as (st1 & st2 & st3 & Hr1 & Hs2 & Hr2 & _ & _ & H1 & H2 & _).
  exists st1, st2.
  split; [exact Hr1|]. split; [exact Hs2|].
  split; [destruct H2 as (_ & _ & _ & -> & _); reflexivity|].
  destruct (C6_resume_skips_known_urls Url.path_ctor true (Crawl.Pages 3)
              (Some Example.existing) Example.navStructure Example.open_section
              Example.click_page Example.scrapePage Example.existing st2
              eq_refl eq_refl Hr2) as (Hnot & _ & _).
  destruct (C6_resume_skips_known_urls Url.path_ctor true (Crawl.Pages 3)
              (Some Example.existing) Example.navStructure Example.open_section
              Example.click_page Example.scrapePage Example.existing st1
              eq_refl eq_refl Hr1) as (_ & Hlinks & _).
  split; [apply Hnot; left|].
  destruct H1 as (Hv1 & _ & _ & _ & _ & _ & more & Hq1 & _).
  destruct H2 as (Hv2 & _).
  apply (Hlinks st2 make_a_gift (planned_giving :: more)
           (Crawl.Page "Make a gift" ["/"; "/donors/ways-to-give"] [])
           "/donors/ways-to-give" ways_to_give).
  - exact Hq1.
  - rewrite Hv1. absent.
  - reflexivity.
  - exact Hs2.
  - right. left.
  - reflexivity.
  - rewrite Hv2. absent.
Defined.



Lemma X5_site_map_entries_witness :
  exists st,
    example_reaches example_frontier st
    /\ Crawl.fetched st = [Example.home; make_a_gift; planned_giving]
    /\ Crawl.allUrls st
       = [(Example.home, "page", "Home"); (make_a_gift, "page", "Make a gift")]
    /\ Crawl.written st = [("pages", "index"); ("pages", "donors--make-a-gift")]
    /\ NoDup (map CrawlLog.url_of (Crawl.allUrls st))
    /\ Forall2 (CrawlLog.file_of Url.path_ctor) (Crawl.allUrls st)
         (Crawl.written st).
Proof.
  destruct example_ends
    as (st1 & st2 & st3 & _ & _ & _ & Hr3 & _ & _ & _ & H3).
  destruct (X5_site_map_entries Url.path_ctor true (Crawl.Pages 3)
              (Some Example.existing) Example.navStructure Example.open_section
              Example.click_page Example.scrapePage st3 Hr3)
    as (Hnodup & _ & _ & Hfiles & _).
  destruct H3 as (_ & _ & _ & Hf & Ha & Hw & _).
  exists st3. split; [exact Hr3|]. split; [exact Hf|]. split; [exact Ha|].
  split; [exact Hw|]. split; [exact Hnodup | exact Hfiles].
Defined.

Lemma X4_pages_are_fetched_in_queue_order_witness :
  exists st shifted,
    example_reaches example_frontier st
    /\ Crawl.fetched st = [Example.home; make_a_gift; planned_giving]
    /\ map CrawlLog.url_of (Crawl.allUrls st) = [Example.home; make_a_gift]
    /\ Crawl.pushed st = (shifted ++ Crawl.queue st)%list
    /\ sublist (Crawl.fetched st) shifted
    /\ sublist (map CrawlLog.url_of (Crawl.allUrls st)) (Crawl.fetched st).
Proof.
  destruct example_ends
    as (st1 & st2 & st3 & _ & _ & _ & Hr3 & _ & _ & _ & H3).
  destruct (X4_pages_are_fetched_in_queue_order Url.path_ctor true
              (Crawl.Pages 3) (Some Example.existing) Example.navStructure
              Example.open_section Example.click_page Example.scrapePage st3 Hr3)
    as (shifted & Hp & Hsub & Hmap).
  destruct H3 as (_ & _ & _ & Hf & Ha & _).
  exists st3, shifted. split; [exact Hr3|]. split; [exact Hf|].
  split; [rewrite Ha; reflexivity|]. split; [exact Hp|].
  split; [exact Hsub | exact Hmap].
Defined.
